(** * The Word paste normalizer ([src/normalizer.ts]) as a shallow embedding

    The normalizer rebuilds nested lists from the flat, style-annotated
    paragraphs that Microsoft Word puts on the clipboard, and strips the
    vendor residue afterwards.  The development has four layers:

    - [JS]: the string, number and exception primitives the source relies on;
    - [Re]: the backtracking regular expressions of the source, as syntax
      trees run by a small matcher;
    - [Dom]: the mutable tree the source edits in place, as a heap of nodes
      addressed by identity;
    - [Normalizer]: the functions of [normalizer.ts], in source order of
      their dependencies, followed by the properties proved about them.

    Strings are sequences of code units below 256 (the Latin-1 range), one
    [ascii] per code unit; every literal of the source lies in that range. *)

From Stdlib Require Import ZArith Ascii String List Bool Lia.
From stdpp Require Import base option list gmap strings.

Set Warnings "-register-all".

Open Scope string_scope.
Open Scope Z_scope.

(* ===================================================================== *)
(** ** JavaScript primitives                                              *)
(* ===================================================================== *)

Module JS.

(** Exceptions the modelled fragment can raise. *)
Inductive exn :=
| TypeError (what : string)
| RangeError (what : string)
| HierarchyRequestError
| NotFoundError.

Inductive result (A : Type) :=
| Ok (a : A)
| Throw (e : exn).
Arguments Ok {A} a.
Arguments Throw {A} e.

Definition bind {A B} (m : result A) (f : A -> result B) : result B :=
  match m with
  | Ok a => f a
  | Throw e => Throw e
  end.

Definition is_ok {A} (m : result A) : bool :=
  match m with Ok _ => true | Throw _ => false end.

(** A number that is either an integer or [NaN]; the counters of the source
    only ever hold such values. *)
Inductive num :=
| Num (z : Z)
| NaN.

Definition truthy_num (n : num) : bool :=
  match n with
  | Num z => negb (z =? 0)
  | NaN => false
  end.

(** [x++] on a property that may be missing: [undefined + 1] is [NaN]. *)
Definition incr (n : option num) : num :=
  match n with
  | Some (Num z) => Num (z + 1)
  | _ => NaN
  end.

Definition code (c : ascii) : Z := Z.of_nat (nat_of_ascii c).
Definition chr (n : nat) : ascii := ascii_of_nat n.

Definition nbsp : ascii := chr 160.

(** White space of [\s] and of [String.prototype.trim], below 256. *)
Definition isSpace (c : ascii) : bool :=
  let n := code c in
  ((9 <=? n) && (n <=? 13)) || (n =? 32) || (n =? 160).

Definition isDigit (c : ascii) : bool :=
  let n := code c in (48 <=? n) && (n <=? 57).

Definition isUpperAscii (c : ascii) : bool :=
  let n := code c in (65 <=? n) && (n <=? 90).

Definition isLowerAscii (c : ascii) : bool :=
  let n := code c in (97 <=? n) && (n <=? 122).

(** Word characters of [\b] and [\w]. *)
Definition isWordChar (c : ascii) : bool :=
  isUpperAscii c || isLowerAscii c || isDigit c || (code c =? 95).

(** [toLowerCase] on one code unit: A-Z, and the Latin-1 capitals
    (192..222 without the multiplication sign 215). *)
Definition lower (c : ascii) : ascii :=
  let n := code c in
  if isUpperAscii c then chr (Z.to_nat (n + 32))
  else if (192 <=? n) && (n <=? 222) && negb (n =? 215) then chr (Z.to_nat (n + 32))
  else c.

(** The upper-casing of ASCII letters ([tagName] of an HTML element). *)
Definition upper_ascii (c : ascii) : ascii :=
  if isLowerAscii c then chr (Z.to_nat (code c - 32)) else c.

Fixpoint map_string (f : ascii -> ascii) (s : string) : string :=
  match s with
  | EmptyString => EmptyString
  | String c s' => String (f c) (map_string f s')
  end.

Definition toLowerCase : string -> string := map_string lower.
Definition toUpperAscii : string -> string := map_string upper_ascii.

Fixpoint forall_string (p : ascii -> bool) (s : string) : bool :=
  match s with
  | EmptyString => true
  | String c s' => p c && forall_string p s'
  end.

Definition str_eqb (a b : string) : bool := bool_decide (a = b).

Definition is_empty (s : string) : bool :=
  match s with EmptyString => true | _ => false end.

Fixpoint trimStart (s : string) : string :=
  match s with
  | String c s' => if isSpace c then trimStart s' else s
  | EmptyString => EmptyString
  end.

Fixpoint trimEnd (s : string) : string :=
  match s with
  | EmptyString => EmptyString
  | String c s' =>
      let r := trimEnd s' in
      if isSpace c && is_empty r then EmptyString else String c r
  end.

Definition trim (s : string) : string := trimEnd (trimStart s).

(** [s.split(sep)] for a one-character separator: never the empty list. *)
Fixpoint splitOn (sep : ascii) (s : string) : list string :=
  match s with
  | EmptyString => [EmptyString]
  | String c s' =>
      if bool_decide (c = sep) then EmptyString :: splitOn sep s'
      else match splitOn sep s' with
           | p :: ps => String c p :: ps
           | [] => [String c EmptyString]
           end
  end.

(** [parts.join(sep)]. *)
Fixpoint join (sep : string) (l : list string) : string :=
  match l with
  | [] => EmptyString
  | [x] => x
  | x :: rest => x +:+ sep +:+ join sep rest
  end.

Fixpoint startsWith (p s : string) : bool :=
  match p, s with
  | EmptyString, _ => true
  | String a p', String b s' => bool_decide (a = b) && startsWith p' s'
  | _, EmptyString => false
  end.

Fixpoint includes (needle s : string) : bool :=
  startsWith needle s ||
  match s with
  | EmptyString => false
  | String _ s' => includes needle s'
  end.

(** [s.substring(0, n)]. *)
Fixpoint substring0 (n : nat) (s : string) : string :=
  match n, s with
  | S n', String c s' => String c (substring0 n' s')
  | _, _ => EmptyString
  end.

(** [s.charCodeAt(0)]; [None] stands for [NaN]. *)
Definition charCodeAt0 (s : string) : option Z :=
  match s with
  | String c _ => Some (code c)
  | EmptyString => None
  end.

(** [Array(n + 1).join(sep)]: [n] copies of [sep]. *)
Fixpoint repeat_string (n : nat) (sep : string) : string :=
  match n with
  | O => EmptyString
  | S n' => sep +:+ repeat_string n' sep
  end.

Definition digit_value (c : ascii) : Z := code c - 48.

(** [parseInt] on a string of decimal digits.  JavaScript rounds above
    2^53; the model keeps the exact integer. *)
Definition parseInt_digits (s : string) : Z :=
  (fix go (acc : Z) (s : string) : Z :=
     match s with
     | EmptyString => acc
     | String c s' => go (10 * acc + digit_value c) s'
     end) 0 s.

Definition digit_char (d : Z) : ascii := chr (Z.to_nat (48 + d)).

Fixpoint pos_digits (fuel : nat) (z : Z) (acc : string) : string :=
  match fuel with
  | O => acc
  | S fuel' =>
      let acc' := String (digit_char (z mod 10)) acc in
      if z <? 10 then acc' else pos_digits fuel' (z / 10) acc'
  end.

(** [n.toString()] of an integer. *)
Definition toString (z : Z) : string :=
  if z <? 0 then String "-" (pos_digits (Z.to_nat (Z.log2 (- z)) + 1) (- z) EmptyString)
  else pos_digits (Z.to_nat (Z.log2 z) + 1) z EmptyString.

(** [s.indexOf(needle)]; [None] stands for -1. *)
Fixpoint str_indexOf (needle s : string) : option nat :=
  if startsWith needle s then Some O
  else match s with
       | EmptyString => None
       | String _ s' => S <$> str_indexOf needle s'
       end.

(** [s.substring(n)]. *)
Fixpoint str_drop (n : nat) (s : string) : string :=
  match n, s with
  | S n', String _ s' => str_drop n' s'
  | _, _ => s
  end.

(** [s.indexOf(needle, from)] for [from] within the string. *)
Definition str_indexOf_from (needle s : string) (from : nat) : option nat :=
  (fun i => (from + i)%nat) <$> str_indexOf needle (str_drop from s).

End JS.

Export JS.

Notation "x <- m ;; k" := (JS.bind m (fun x => k))
  (at level 100, m at next level, right associativity).
Notation "m ;;; k" := (JS.bind m (fun _ => k))
  (at level 100, right associativity).

(* ===================================================================== *)
(** ** Regular expressions                                                *)
(* ===================================================================== *)

(** The regular expressions of the source are kept as syntax trees and run
    by a backtracking matcher in continuation-passing style, the way the
    language defines them: alternatives left to right, quantifiers greedy,
    an iteration that consumes nothing is refused. *)

Module Re.

Inductive regex :=
| Eps
| Chr (c : ascii)                       (* a literal character *)
| Cls (p : ascii -> bool)               (* a character class *)
| Seq (r1 r2 : regex)
| Alt (r1 r2 : regex)
| Rep (lo : nat) (hi : option nat) (r : regex)   (* r{lo,hi}, greedy *)
| Grp (i : nat) (r : regex)             (* capturing group number i *)
| Bol                                   (* ^ *)
| WordB.                                (* \b *)

(** Captures, most recent first. *)
Definition captures := list (nat * string).

Definition capture (i : nat) (cs : captures) : option string :=
  snd <$> List.find (fun p => Nat.eqb (fst p) i) cs.

(** With the [i] flag an ASCII literal matches both cases of its letter;
    a code unit above 127 never folds onto an ASCII one. *)
Definition chr_matches (icase : bool) (c d : ascii) : bool :=
  if icase then bool_decide (upper_ascii c = upper_ascii d)
  else bool_decide (c = d).

Definition is_word (o : option ascii) : bool :=
  match o with Some c => isWordChar c | None => false end.

Definition head (s : string) : option ascii :=
  match s with String c _ => Some c | EmptyString => None end.

Section Matcher.
Context {R : Type}.
Variable icase : bool.

Definition cont := option ascii -> string -> captures -> option R.
Definition matcher := option ascii -> string -> captures -> cont -> option R.

  (** [m{lo,hi}], greedy: one more round of [m] is tried first, and the
      continuation only when that fails.  Every round either counts down
      [lo] or consumes input, which bounds the number of rounds. *)
Fixpoint rep_loop (m : matcher) (k : cont) (fuel lo : nat) (hi : option nat)
           (prev : option ascii) (s : string) (cs : captures) {struct fuel} : option R :=
    match fuel with
    | O => None
    | S fuel' =>
        match hi with
        | Some O => k prev s cs
        | _ =>
            match m prev s cs
                    (fun p' s' cs' =>
                       if Nat.eqb lo 0 && Nat.eqb (String.length s') (String.length s)
                       then None
                       else rep_loop m k fuel' (Nat.pred lo) (Nat.pred <$> hi) p' s' cs')
            with
            | Some x => Some x
            | None => match lo with O => k prev s cs | S _ => None end
            end
        end
    end.

  (** [run r prev s cs k]: match [r] at the front of [s], the character
      before it being [prev], then go on with [k]. *)
Fixpoint run (r : regex) (prev : option ascii) (s : string) (cs : captures)
           (k : cont) {struct r} : option R :=
    match r with
    | Eps => k prev s cs
    | Chr c =>
        match s with
        | String d s' => if chr_matches icase c d then k (Some d) s' cs else None
        | EmptyString => None
        end
    | Cls p =>
        match s with
        | String d s' => if p d then k (Some d) s' cs else None
        | EmptyString => None
        end
    | Seq r1 r2 => run r1 prev s cs (fun p' s' cs' => run r2 p' s' cs' k)
    | Alt r1 r2 =>
        match run r1 prev s cs k with
        | Some x => Some x
        | None => run r2 prev s cs k
        end
    | Grp i r1 =>
        run r1 prev s cs
            (fun p' s' cs' =>
               k p' s' ((i, substring0 (String.length s - String.length s') s) :: cs'))
    | Bol => match prev with None => k prev s cs | Some _ => None end
    | WordB =>
        if xorb (is_word prev) (is_word (head s)) then k prev s cs else None
    | Rep lo hi r1 =>
        rep_loop (run r1) k (S (lo + String.length s)) lo hi prev s cs
    end.
End Matcher.

(** One attempt at the current position: what is left after the match, and
    the captures. *)
Definition match_here (icase : bool) (r : regex) (prev : option ascii) (s : string)
  : option (string * captures) :=
  run icase r prev s [] (fun _ s' cs => Some (s', cs)).

(** [regex.exec(s)] from index 0: the leftmost match, as the matched text
    and the captures. *)
Fixpoint exec_from (icase : bool) (r : regex) (prev : option ascii) (s : string)
  : option (string * captures) :=
  match match_here icase r prev s with
  | Some (rest, cs) => Some (substring0 (String.length s - String.length rest) s, cs)
  | None =>
      match s with
      | EmptyString => None
      | String c s' => exec_from icase r (Some c) s'
      end
  end.

Definition exec (icase : bool) (r : regex) (s : string) : option (string * captures) :=
  exec_from icase r None s.

Definition test (icase : bool) (r : regex) (s : string) : bool :=
  match exec icase r s with Some _ => true | None => false end.

(** [s.replace(regex, callback)] with the [g] flag; [skip] counts the
    characters of the current match still to be passed over. *)
Fixpoint replace_from (icase : bool) (r : regex) (f : string -> captures -> string)
         (prev : option ascii) (s : string) (skip : nat) : string :=
  match skip with
  | S n =>
      match s with
      | String c s' => replace_from icase r f (Some c) s' n
      | EmptyString => EmptyString
      end
  | O =>
      match match_here icase r prev s with
      | Some (rest, cs) =>
          let len := (String.length s - String.length rest)%nat in
          let out := f (substring0 len s) cs in
          match s with
          | String c s' =>
              match len with
              | O => out +:+ String c (replace_from icase r f (Some c) s' 0)
              | S n => out +:+ replace_from icase r f (Some c) s' n
              end
          | EmptyString => out
          end
      | None =>
          match s with
          | String c s' => String c (replace_from icase r f (Some c) s' 0)
          | EmptyString => EmptyString
          end
      end
  end.

Definition replaceAll (icase : bool) (r : regex) (f : string -> captures -> string)
           (s : string) : string :=
  replace_from icase r f None s 0.

(** Building blocks. *)
Fixpoint lit (s : string) : regex :=
  match s with
  | EmptyString => Eps
  | String c EmptyString => Chr c
  | String c s' => Seq (Chr c) (lit s')
  end.

Definition star (r : regex) : regex := Rep 0 None r.
Definition plus (r : regex) : regex := Rep 1 None r.
Definition upto (lo hi : nat) (r : regex) : regex := Rep lo (Some hi) r.
Definition space : regex := Cls isSpace.
Definition digit : regex := Cls isDigit.
Definition notchar (c : ascii) : regex := Cls (fun d => negb (bool_decide (d = c))).

Fixpoint seqs (l : list regex) : regex :=
  match l with
  | [] => Eps
  | [r] => r
  | r :: rest => Seq r (seqs rest)
  end.

(** [r?] *)
Definition opt (r : regex) : regex := Rep 0 (Some 1%nat) r.

End Re.

(* ===================================================================== *)
(** ** Arrays                                                             *)
(* ===================================================================== *)

(** A JavaScript array: integer-keyed properties and a [length].  Writing
    at or beyond [length] extends the array (possibly leaving holes), and
    assigning [length] deletes every index at or above the new value; a
    negative [length] is a [RangeError]. *)

Module Arr.

Record array (A : Type) := Array { props : gmap Z A; len : Z }.
Arguments Array {A} props len.
Arguments props {A} a.
Arguments len {A} a.

Definition empty {A} : array A := Array ∅ 0.

Definition get {A} (i : Z) (a : array A) : option A := props a !! i.

Definition set {A} (i : Z) (x : A) (a : array A) : array A :=
  Array (<[i := x]> (props a)) (if 0 <=? i then Z.max (len a) (i + 1) else len a).

Definition truncate {A} (n : Z) (a : array A) : array A :=
  Array (filter (fun kv => kv.1 < n) (props a)) n.

Definition set_length {A} (n : Z) (a : array A) : result (array A) :=
  if n <? 0 then Throw (RangeError "Invalid array length")
  else Ok (truncate n a).

(** No holes: exactly the indices [0 .. len-1] are present. *)
Definition dense {A} (a : array A) : Prop :=
  0 <= len a /\ forall i : Z, is_Some (get i a) <-> 0 <= i < len a.

End Arr.

(* ===================================================================== *)
(** ** The document tree                                                  *)
(* ===================================================================== *)

(** Nodes live in a heap and are named by their index, so that a node keeps
    its identity while it is moved around; a node that is removed from the
    tree stays in the heap, unreachable from the document. *)

Module Dom.

Inductive kind :=
| Element (localName : string) (html : bool)
| Text (data : string)
| Comment (data : string)
| Document.

Record node := Node {
  nkind : kind;
  attrs : list (string * string);
  parent : option nat;
  childNodes : list nat
}.

Abbreviation heap := (list node) (only parsing).
Abbreviation ref := nat (only parsing).

Definition kindOf (h : heap) (n : ref) : option kind := nkind <$> h !! n.

Definition isElement (h : heap) (n : ref) : bool :=
  match kindOf h n with Some (Element _ _) => true | _ => false end.

(** [n instanceof HTMLElement]. *)
Definition isHTMLElement (h : heap) (n : ref) : bool :=
  match kindOf h n with Some (Element _ true) => true | _ => false end.

(** [n.tagName]: upper case for an HTML element, [undefined] for a node
    that is not an element. *)
Definition tagName (h : heap) (n : ref) : option string :=
  match kindOf h n with
  | Some (Element name true) => Some (toUpperAscii name)
  | Some (Element name false) => Some name
  | _ => None
  end.

Definition parentNode (h : heap) (n : ref) : option ref :=
  nd ← h !! n; parent nd.

Definition parentElement (h : heap) (n : ref) : option ref :=
  p ← parentNode h n; if isElement h p then Some p else None.

Definition kids (h : heap) (n : ref) : list ref :=
  match h !! n with Some nd => childNodes nd | None => [] end.

(** [n.children]: the element children only. *)
Definition children (h : heap) (n : ref) : list ref :=
  List.filter (isElement h) (kids h n).

Fixpoint before (x : ref) (l : list ref) : option ref :=
  match l with
  | a :: ((b :: _) as rest) => if Nat.eqb b x then Some a else before x rest
  | _ => None
  end.

Definition previousSibling (h : heap) (n : ref) : option ref :=
  p ← parentNode h n; before n (kids h p).

Definition getAttribute (h : heap) (n : ref) (name : string) : option string :=
  nd ← h !! n; snd <$> List.find (fun kv => str_eqb (fst kv) name) (attrs nd).

Definition hasAttribute (h : heap) (n : ref) (name : string) : bool :=
  match getAttribute h n name with Some _ => true | None => false end.

Fixpoint set_assoc (name value : string) (l : list (string * string))
  : list (string * string) :=
  match l with
  | [] => [(name, value)]
  | (k, v) :: rest =>
      if str_eqb k name then (k, value) :: rest
      else (k, v) :: set_assoc name value rest
  end.

Definition update (n : ref) (f : node -> node) (h : heap) : heap :=
  match h !! n with
  | Some nd => <[n := f nd]> h
  | None => h
  end.

Definition with_attrs (f : list (string * string) -> list (string * string)) (nd : node) :=
  Node (nkind nd) (f (attrs nd)) (parent nd) (childNodes nd).
Definition with_parent (p : option ref) (nd : node) :=
  Node (nkind nd) (attrs nd) p (childNodes nd).
Definition with_kids (f : list ref -> list ref) (nd : node) :=
  Node (nkind nd) (attrs nd) (parent nd) (f (childNodes nd)).

Definition setAttribute (h : heap) (n : ref) (name value : string) : heap :=
  update n (with_attrs (set_assoc name value)) h.

(** [document.createElement(name)]: a new HTML element outside any tree. *)
Definition createElement (h : heap) (name : string) : heap * ref :=
  ((h ++ [Node (Element (toLowerCase name) true) [] None []])%list, length h).

(** [document.createTextNode(data)]. *)
Definition createTextNode (h : heap) (data : string) : heap * ref :=
  ((h ++ [Node (Text data) [] None []])%list, length h).

Definition remove_ref (x : ref) (l : list ref) : list ref :=
  List.filter (fun y => negb (Nat.eqb y x)) l.

(** Take [c] out of its parent, if it has one. *)
Definition detach (h : heap) (c : ref) : heap :=
  match parentNode h c with
  | Some p => update c (with_parent None) (update p (with_kids (remove_ref c)) h)
  | None => h
  end.

(** Is [a] the node [n] or one of its ancestors?  The walk is bounded by
    the size of the heap, which bounds the depth of any tree in it. *)
Fixpoint isInclusiveAncestor_fuel (fuel : nat) (h : heap) (a n : ref) : bool :=
  Nat.eqb a n ||
  match fuel with
  | O => false
  | S fuel' =>
      match parentNode h n with
      | Some p => isInclusiveAncestor_fuel fuel' h a p
      | None => false
      end
  end.

Definition isInclusiveAncestor (h : heap) (a n : ref) : bool :=
  isInclusiveAncestor_fuel (length h) h a n.

(** The checks every insertion makes first: the parent can have children,
    the new child is a node that can be one, and it is not the parent
    itself or an ancestor of it. *)
Definition canInsert (h : heap) (p c : ref) : bool :=
  match kindOf h p, kindOf h c with
  | Some (Element _ _ | Document), Some (Element _ _ | Text _ | Comment _) =>
      negb (isInclusiveAncestor h c p)
  | _, _ => false
  end.

Definition appendChild (h : heap) (p c : ref) : result heap :=
  if canInsert h p c then
    let h1 := detach h c in
    Ok (update c (with_parent (Some p)) (update p (with_kids (fun l => (l ++ [c])%list)) h1))
  else Throw HierarchyRequestError.

Fixpoint insert_before (c r : ref) (l : list ref) : list ref :=
  match l with
  | [] => [c]
  | x :: rest => if Nat.eqb x r then c :: x :: rest else x :: insert_before c r rest
  end.

Definition isChildOf (h : heap) (c p : ref) : bool :=
  match parentNode h c with Some q => Nat.eqb q p | None => false end.

(** [p.insertBefore(c, r)] for a new child [c] other than [r]. *)
Definition insertBefore (h : heap) (p c r : ref) : result heap :=
  if canInsert h p c then
    if isChildOf h r p then
      let h1 := detach h c in
      Ok (update c (with_parent (Some p)) (update p (with_kids (insert_before c r)) h1))
    else Throw NotFoundError
  else Throw HierarchyRequestError.

Definition removeChild (h : heap) (p c : ref) : result heap :=
  if isChildOf h c p then Ok (detach h c) else Throw NotFoundError.

(** The descendants of [n] in tree order, [n] excluded. *)
Fixpoint descendants_fuel (fuel : nat) (h : heap) (n : ref) : list ref :=
  match fuel with
  | O => []
  | S fuel' => flat_map (fun c => c :: descendants_fuel fuel' h c) (kids h n)
  end.

Definition descendants (h : heap) (n : ref) : list ref :=
  descendants_fuel (length h) h n.

(** [n.querySelectorAll('*')]: a snapshot, not a live collection. *)
Definition querySelectorAll_any (h : heap) (n : ref) : list ref :=
  List.filter (isElement h) (descendants h n).

Definition hasLocalName (h : heap) (name : string) (n : ref) : bool :=
  match kindOf h n with
  | Some (Element l true) => str_eqb l name
  | _ => false
  end.

(** [n.querySelectorAll(name)] for a type selector. *)
Definition querySelectorAll_tag (h : heap) (name : string) (n : ref) : list ref :=
  List.filter (hasLocalName h name) (descendants h n).

Definition ownText (h : heap) (n : ref) : string :=
  match kindOf h n with Some (Text d) => d | _ => EmptyString end.

(** [n.textContent] of an element: the text of its descendants. *)
Definition textContent (h : heap) (n : ref) : string :=
  List.fold_right (fun c acc => ownText h c +:+ acc) EmptyString (descendants h n).

(** [n.classList]: the class attribute split at ASCII white space, without
    duplicates. *)
Definition isAsciiSpace (c : ascii) : bool :=
  let n := code c in (n =? 9) || (n =? 10) || (n =? 12) || (n =? 13) || (n =? 32).

Fixpoint tokens_aux (cur : string) (s : string) : list string :=
  match s with
  | EmptyString => if is_empty cur then [] else [cur]
  | String c s' =>
      if isAsciiSpace c
      then (if is_empty cur then tokens_aux EmptyString s' else cur :: tokens_aux EmptyString s')
      else tokens_aux (cur +:+ String c EmptyString) s'
  end.

Fixpoint dedup (l : list string) : list string :=
  match l with
  | [] => []
  | x :: rest => x :: List.filter (fun y => negb (str_eqb y x)) (dedup rest)
  end.

Definition classList (h : heap) (n : ref) : list string :=
  match getAttribute h n "class" with
  | Some v => dedup (tokens_aux EmptyString v)
  | None => []
  end.

Definition set_classList (h : heap) (n : ref) (l : list string) : heap :=
  match getAttribute h n "class", l with
  | None, [] => h
  | _, _ => setAttribute h n "class" (join " " l)
  end.

Definition classList_remove (h : heap) (n : ref) (token : string) : heap :=
  set_classList h n (List.filter (fun y => negb (str_eqb y token)) (classList h n)).

Definition classList_add (h : heap) (n : ref) (token : string) : heap :=
  let l := classList h n in
  set_classList h n (if existsb (str_eqb token) l then l else (l ++ [token])%list).

(** [n.style.setProperty(name, value)] for a valid declaration.  The source
    calls it on elements it has just created, whose declaration block is
    empty, so that the style attribute becomes [name: value;]; on a block
    that already has text the declaration is added at the end. *)
Definition style_setProperty (h : heap) (n : ref) (name value : string) : heap :=
  let decl := name +:+ ": " +:+ value +:+ ";" in
  match getAttribute h n "style" with
  | None | Some EmptyString => setAttribute h n "style" decl
  | Some old => setAttribute h n "style" (old +:+ " " +:+ decl)
  end.

(** [n.innerText = text] for a text without line breaks: the children are
    replaced by one text node (by none for the empty string). *)
Definition drop_children (h : heap) (n : ref) : heap :=
  update n (with_kids (fun _ => []))
         (List.fold_left (fun h' c => update c (with_parent None) h') (kids h n) h).

Definition set_innerText (h : heap) (n : ref) (text : string) : heap :=
  let h1 := drop_children h n in
  if is_empty text then h1
  else
    let '(h2, t) := createTextNode h1 text in
    update t (with_parent (Some n)) (update n (with_kids (fun _ => [t])) h2).

(** Trees as the parser delivers them, and their layout in a heap: nodes
    are numbered in tree order. *)
Inductive tree :=
| El (name : string) (al : list (string * string)) (ts : list tree)
| Tx (data : string).

Fixpoint alloc (t : tree) (p : option ref) (h : heap) {struct t} : heap * ref :=
  match t with
  | Tx d => ((h ++ [Node (Text d) [] p []])%list, length h)
  | El name al ts =>
      let n := length h in
      let '(h1, cs) :=
        (fix go (ts : list tree) (h : heap) {struct ts} : heap * list ref :=
           match ts with
           | [] => (h, [])
           | t :: rest =>
               let '(h', c) := alloc t (Some n) h in
               let '(h'', cs) := go rest h' in
               (h'', c :: cs)
           end) ts (h ++ [Node (Element name true) al p []])%list in
      (update n (with_kids (fun _ => cs)) h1, n)
  end.

(** The document [<html><head></head><body>ts</body></html>]: the document
    node is 0, [html] 1, [head] 2 and [body] 3. *)
Definition documentOf (ts : list tree) : heap :=
  fst (alloc (El "html" [] [El "head" [] []; El "body" [] ts]) (Some O)
             [Node Document [] None [1%nat]]).

Definition documentNode : ref := 0%nat.
Definition body : ref := 3%nat.

(** [n.innerHTML]: the serialization of the children of [n].  Text is
    escaped, a void element has no end tag. *)
Definition quote : ascii := chr 34.

Fixpoint escape (inAttr : bool) (s : string) : string :=
  match s with
  | EmptyString => EmptyString
  | String c s' =>
      (if bool_decide (c = "&"%char) then "&amp;"
       else if bool_decide (c = nbsp) then "&nbsp;"
       else if inAttr && bool_decide (c = quote) then "&quot;"
       else if negb inAttr && bool_decide (c = "<"%char) then "&lt;"
       else if negb inAttr && bool_decide (c = ">"%char) then "&gt;"
       else String c EmptyString) +:+ escape inAttr s'
  end.

Definition isVoid (name : string) : bool :=
  existsb (str_eqb name)
          ["area"; "base"; "br"; "col"; "embed"; "hr"; "img"; "input";
           "link"; "meta"; "source"; "track"; "wbr"].

Definition serializeAttrs (l : list (string * string)) : string :=
  List.fold_right
    (fun kv acc =>
       " " +:+ fst kv +:+ "=" +:+ String quote (escape true (snd kv)) +:+ String quote acc)
    EmptyString l.

Fixpoint serialize_fuel (fuel : nat) (h : heap) (n : ref) : string :=
  match fuel with
  | O => EmptyString
  | S fuel' =>
      match h !! n with
      | Some (Node (Text d) _ _ _) => escape false d
      | Some (Node (Comment d) _ _ _) => "<!--" +:+ d +:+ "-->"
      | Some (Node (Element name _) al _ cs) =>
          "<" +:+ name +:+ serializeAttrs al +:+ ">" +:+
          (if isVoid name then EmptyString
           else List.fold_right (fun c acc => serialize_fuel fuel' h c +:+ acc)
                                EmptyString cs +:+ "</" +:+ name +:+ ">")
      | _ => EmptyString
      end
  end.

Definition innerHTML (h : heap) (n : ref) : string :=
  List.fold_right (fun c acc => serialize_fuel (length h) h c +:+ acc)
                  EmptyString (kids h n).

End Dom.

(* ===================================================================== *)
(** ** The normalizer                                                     *)
(* ===================================================================== *)

Module Normalizer.

Import Re Dom.

(** *** Data *)

Record ListItemData := {
  id : option string;
  order : option string;
  indent : option Z
}.

(** [interface ListLikeElement extends ListItemData]. *)
Record ListLikeElement := {
  itemData : ListItemData;
  element : ref
}.

(** An entry of the reconstruction stack: the item that opened the list,
    the list container and the list items put into it so far. *)
Record Frame := {
  item : ListLikeElement;
  listElement : ref;
  listItemElements : list ref
}.

(** What [detectListStyle] returns.  [type] is ['ol'] or ['ul']. *)
Record ListStyle := {
  type : string;
  startIndex : option Z;
  style : option string;
  isLegalStyleList : bool
}.

(** The working state of the reconstruction loop. *)
Record State := {
  heap : Dom.heap;
  stack : Arr.array Frame;
  encounteredLists : gmap string num
}.

Definition tagNameOf (h : Dom.heap) (n : ref) : string := default EmptyString (tagName h n).

(** *** Style strings *)

(** The object built by [convertStyleToObject]: declarations are entered
    left to right, a later one replacing an earlier one of the same name.
    The object is a plain [{}], so that an assignment to [__proto__] makes
    no property: it calls the setter inherited from [Object.prototype],
    which ignores a value that is not an object, and the value here is a
    string. *)
Definition addDeclaration (styleObject : gmap string string) (declaration : string)
  : gmap string string :=
  match List.map trim (splitOn ":" declaration) with
  | property :: value :: _ =>
      if negb (is_empty property) && negb (is_empty value)
      then if str_eqb property "__proto__" then styleObject
           else <[property := value]> styleObject
      else styleObject
  | _ => styleObject
  end.

Definition convertStyleToObject (styleString : string) : gmap string string :=
  if is_empty styleString then ∅
  else List.fold_left addDeclaration (List.map trim (splitOn ";" styleString)) ∅.

(** [/\bmso/gi] *)
Definition msoRegex : regex := Seq WordB (lit "mso").

Definition keyOf (property : string) : string :=
  match splitOn ":" property with
  | key :: _ => key
  | [] => EmptyString
  end.

Definition keepsProperty (property : string) : bool :=
  negb (test true msoRegex (toLowerCase (keyOf property))).

Definition filterMSOStyles (currentStyle : string) : string :=
  join ";" (List.filter keepsProperty (List.map trim (splitOn ";" currentStyle))).

Definition removeMSOStyles (h : Dom.heap) (element : ref) : Dom.heap :=
  let currentStyle := default EmptyString (getAttribute h element "style") in
  setAttribute h element "style" (filterMSOStyles currentStyle).

Definition isElementEmpty (h : Dom.heap) (element : ref) : bool :=
  is_empty (textContent h element) && is_empty (trim (innerHTML h element)).

(** *** List metadata *)

(** [/(^|\s{1,100})l(\d+)/i] *)
Definition idRegex : regex :=
  seqs [Grp 1 (Alt Bol (upto 1 100 space)); Chr "l"; Grp 2 (plus digit)].
(** [/\s{0,100}lfo(\d+)/i] *)
Definition orderRegex : regex :=
  seqs [upto 0 100 space; lit "lfo"; Grp 1 (plus digit)].
(** [/\s{0,100}level(\d+)/i] *)
Definition indentRegex : regex :=
  seqs [upto 0 100 space; lit "level"; Grp 1 (plus digit)].

Definition getListItemData (styles : gmap string string) : ListItemData :=
  match styles !! "mso-list" with
  | None => {| id := None; order := None; indent := None |}
  | Some listStyle =>
      match exec true idRegex listStyle,
            exec true orderRegex listStyle,
            exec true indentRegex listStyle with
      | Some (_, idMatch), Some (_, orderMatch), Some (_, indentMatch) =>
          {| id := capture 2 idMatch;
             order := capture 1 orderMatch;
             indent := Some (parseInt_digits (default EmptyString (capture 1 indentMatch))) |}
      | _, _, _ => {| id := None; order := None; indent := Some 1 |}
      end
  end.

(** *** The style interpreter *)

Definition mapListStyleDefinition (value : string) : option string :=
  if startsWith "arabic-leading-zero" value then Some "decimal-leading-zero"
  else if str_eqb value "alpha-upper" then Some "upper-alpha"
  else if str_eqb value "alpha-lower" then Some "lower-alpha"
  else if str_eqb value "roman-upper" then Some "upper-roman"
  else if str_eqb value "roman-lower" then Some "lower-roman"
  else if str_eqb value "circle" || str_eqb value "disc" || str_eqb value "square"
  then Some value
  else None.

Definition findListMarkerNode (h : Dom.heap) (element : ref) : option ref :=
  let firstIsText :=
    match children h element with
    | c :: _ => str_eqb (toLowerCase (tagNameOf h c)) "#text"
    | [] => false
    end in
  if firstIsText then None
  else List.find (fun childNode =>
                    existsb (str_eqb (toLowerCase (tagNameOf h childNode)))
                            ["element"; "span"])
                 (children h element).

(** The section sign, code unit 167. *)
Definition sectionSign : string := String (chr 167) EmptyString.

Definition markerStyle (listMarker : string) : option string :=
  if str_eqb listMarker "o" then Some "circle"
  else if bool_decide (charCodeAt0 listMarker = Some 183) then Some "disc"
  else if str_eqb listMarker sectionSign then Some "square"
  else None.

Definition findBulletedListStyle (h : Dom.heap) (element : ref) : result (option string) :=
  let viaMarker :=
    match findListMarkerNode h element with
    | None => None
    | Some listMarkerElement => markerStyle (textContent h listMarkerElement)
    end in
  if str_eqb (toLowerCase (tagNameOf h element)) "li" then
    match parentElement h element with
    | None => Throw (TypeError "parentElement is null")
    | Some p =>
        if str_eqb (toLowerCase (tagNameOf h p)) "ul" && hasAttribute h p "type"
        then Ok (getAttribute h p "type")
        else Ok viaMarker
    end
  else Ok viaMarker.

Definition idText (it : ListLikeElement) : string :=
  default "undefined" (id (itemData it)).
Definition indentText (it : ListLikeElement) : string :=
  match indent (itemData it) with Some n => toString n | None => "undefined" end.

Definition anyChar : regex :=
  Cls (fun c => negb (bool_decide (c = chr 10)) && negb (bool_decide (c = chr 13))).

(** The pattern [@list l<id>:level<indent>\s*] followed by the group
    [{[^}]*]: the rule block up to its closing brace. *)
Definition listStyleRegexp (it : ListLikeElement) : regex :=
  seqs [lit ("@list l" +:+ idText it +:+ ":level" +:+ indentText it); star space;
        Grp 1 (Seq (Chr "{") (star (notchar "}")))].
(** [/mso-level-number-format:([^;]{0,100});/gi] *)
Definition listStyleTypeRegex : regex :=
  seqs [lit "mso-level-number-format:"; Grp 1 (upto 0 100 (notchar ";")); Chr ";"].
(** [/mso-level-start-at:\s{0,100}([0-9]{0,10})\s{0,100};/gi] *)
Definition listStartIndexRegex : regex :=
  seqs [lit "mso-level-start-at:"; upto 0 100 space; Grp 1 (upto 0 10 digit);
        upto 0 100 space; Chr ";"].
(** [@list\s+l<id>:level\d\s*{], any run without an opening brace, then
    [mso-level-text:], a double quote, [%\d], a backslash and any character. *)
Definition legalStyleListRegex (it : ListLikeElement) : regex :=
  seqs [lit "@list"; plus space; lit ("l" +:+ idText it +:+ ":level"); digit; star space;
        Chr "{"; star (notchar "{"); lit "mso-level-text:"; Chr quote; Chr "%"; digit;
        Chr "\"; anyChar].
(** [@list l<id>:level\d\s*{], any run without an opening brace, then
    [mso-level-number-format:]. *)
Definition multiLevelNumberFormatTypeRegex (it : ListLikeElement) : regex :=
  seqs [lit ("@list l" +:+ idText it +:+ ":level"); digit; star space;
        Chr "{"; star (notchar "{"); lit "mso-level-number-format:"].

Definition nonEmptyCapture (i : nat) (m : option (string * captures)) : option string :=
  match m with
  | Some (_, cs) =>
      match capture i cs with
      | Some s => if is_empty s then None else Some s
      | None => None
      end
  | None => None
  end.

Definition detectListStyle (h : Dom.heap) (listLikeItem : ListLikeElement)
           (stylesString : string) : result ListStyle :=
  let legalStyleListMatch := test true (legalStyleListRegex listLikeItem) stylesString in
  let multiLevelNumberFormatMatch :=
    test true (multiLevelNumberFormatTypeRegex listLikeItem) stylesString in
  let islegalStyleList := legalStyleListMatch && negb multiLevelNumberFormatMatch in
  match nonEmptyCapture 1 (exec true (listStyleRegexp listLikeItem) stylesString) with
  | Some block =>
      let '(listStyleType, type) :=
        match nonEmptyCapture 1 (exec true listStyleTypeRegex block) with
        | Some t =>
            let t' := trim t in
            (t', if negb (str_eqb t' "bullet") && negb (str_eqb t' "image")
                 then "ol" else "ul")
        | None => ("decimal", "ol")
        end in
      resolved <-
        (if str_eqb listStyleType "bullet" then
           bulletedStyle <- findBulletedListStyle h (element listLikeItem) ;;
           Ok (match bulletedStyle with
               | Some b => if is_empty b then listStyleType else b
               | None => listStyleType
               end, None)
         else
           Ok (listStyleType,
               parseInt_digits <$> nonEmptyCapture 1 (exec true listStartIndexRegex block))) ;;
      Ok {| type := if islegalStyleList then "ol" else type;
            startIndex := snd resolved;
            style := mapListStyleDefinition (fst resolved);
            isLegalStyleList := islegalStyleList |}
  | None =>
      Ok {| type := "ol";
            startIndex := None;
            style := mapListStyleDefinition "decimal";
            isLegalStyleList := islegalStyleList |}
  end.

(** *** Building blocks of the reconstruction *)

Definition createNewEmptyList (h : Dom.heap) (listStyle : ListStyle)
           (hasMultiLevelListPlugin : bool) : Dom.heap * ref :=
  let '(h1, list) := createElement h (type listStyle) in
  let h2 :=
    match style listStyle with
    | Some st => style_setProperty h1 list "list-style-type" st
    | None => h1
    end in
  let h3 :=
    match startIndex listStyle with
    | Some n => if negb (n =? 0) && (n >? 1) then setAttribute h2 list "start" (toString n) else h2
    | None => h2
    end in
  let h4 :=
    if isLegalStyleList listStyle && hasMultiLevelListPlugin
    then classList_add h3 list "legal-list" else h3 in
  (h4, list).

Definition ignoresMarker (h : Dom.heap) (span : ref) : bool :=
  match getAttribute h span "style" with
  | Some st => negb (is_empty st) && includes "mso-list:Ignore" st
  | None => false
  end.

Definition removeMsoListIgnoreSpans (h : Dom.heap) (parentElement : ref) : result Dom.heap :=
  List.fold_left
    (fun acc span =>
       h' <- acc ;;
       if ignoresMarker h' span then
         match parentNode h' span with
         | Some p => removeChild h' p span
         | None => Ok h'
         end
       else Ok h')
    (querySelectorAll_tag h "span" parentElement) (Ok h).

(** [isList] reads [tagName] and calls [toLowerCase] on it; on a node that
    is not an element the property is [undefined] and the call throws. *)
Definition isList (h : Dom.heap) (element : option ref) : result bool :=
  match element with
  | None => Throw (TypeError "Cannot read properties of null (reading 'tagName')")
  | Some e =>
      match tagName h e with
      | None => Throw (TypeError "Cannot read properties of undefined (reading 'toLowerCase')")
      | Some t => Ok (existsb (str_eqb (toLowerCase t)) ["ul"; "ol"])
      end
  end.

Definition isListContinuation (h : Dom.heap) (currentItem : ListLikeElement) : result bool :=
  match previousSibling h (element currentItem) with
  | None => isList h (parentElement h (element currentItem))
  | Some previous => isList h (Some previous)
  end.

Definition itemTags : list string :=
  ["p"; "h1"; "h2"; "h3"; "h4"; "h5"; "h6"; "li"; "div"].

Definition styleOf (h : Dom.heap) (n : ref) : gmap string string :=
  convertStyleToObject (default EmptyString (getAttribute h n "style")).

Definition hasMsoList (h : Dom.heap) (n : ref) : bool :=
  bool_decide (is_Some (styleOf h n !! "mso-list")).

Definition isItemLike (h : Dom.heap) (n : ref) : result bool :=
  if negb (existsb (str_eqb (toLowerCase (tagNameOf h n))) itemTags) || negb (isHTMLElement h n)
  then Ok false
  else if hasMsoList h n then
    match parentElement h n with
    | None => Ok false
    | Some p => inList <- isList h (Some p) ;; Ok (negb inList)
    end
  else Ok false.

Definition findAllItemLikeElements (h : Dom.heap) (doc : ref) : result (list ListLikeElement) :=
  List.fold_left
    (fun acc n =>
       res <- acc ;;
       keep <- isItemLike h n ;;
       if keep
       then Ok (res ++ [{| itemData := getListItemData (styleOf h n); element := n |}])%list
       else Ok res)
    (querySelectorAll_any h doc) (Ok []).

(** *** The reconstruction loop *)

Definition originalListId (it : ListLikeElement) : string :=
  idText it +:+ ":" +:+ indentText it.

Definition frameId (f : option Frame) : option string :=
  f ≫= fun fr => id (itemData (item fr)).

Definition indexOf (x : ref) (l : list ref) : Z :=
  (fix go (i : Z) (l : list ref) : Z :=
     match l with
     | [] => -1
     | y :: rest => if Nat.eqb y x then i else go (i + 1) rest
     end) 0 l.

(** Lines 87-94: a reopened numbered list at depth 0 takes the running
    counter of its key as start index. *)
Definition resumeNumbering (indentN : Z) (it : ListLikeElement)
           (encountered : gmap string num) (listStyle : ListStyle) : ListStyle :=
  match encountered !! originalListId it with
  | Some (Num n) =>
      if (indentN =? 0) && str_eqb (type listStyle) "ol"
         && bool_decide (is_Some (id (itemData it))) && negb (n =? 0)
      then {| type := type listStyle; startIndex := Some n;
              style := style listStyle; isLegalStyleList := isLegalStyleList listStyle |}
      else listStyle
  | _ => listStyle
  end.

(** Lines 99-114: where the new list container goes. *)
Definition insertList (h : Dom.heap) (stack : Arr.array Frame) (indentN : Z)
           (it : ListLikeElement) (listElement : ref) : result Dom.heap :=
  if Arr.len stack =? 0 then
    match parentNode h (element it) with
    | None => Throw (TypeError "Cannot read properties of null (reading 'children')")
    | Some parent =>
        let index := indexOf (element it) (children h parent) + 1 in
        if index =? Z.of_nat (length (children h parent))
        then appendChild h parent listElement
        else insertBefore h parent listElement (element it)
    end
  else
    match Arr.get (indentN - 1) stack with
    | Some parentFrame =>
        match last (listItemElements parentFrame) with
        | Some li => appendChild h li listElement
        | None => Ok h
        end
    | None => Ok h
    end.

(** Lines 84-127: open a new list container if the item needs one. *)
Definition openList (stylesString : string) (indentN : Z) (it : ListLikeElement)
           (st : State) : result State :=
  listStyle <- detectListStyle (heap st) it stylesString ;;
  let openedTag :=
    (fun fr => toLowerCase (tagNameOf (heap st) (listElement fr))) <$> Arr.get indentN (stack st) in
  if (indentN >? Arr.len (stack st) - 1)
     || negb (bool_decide (openedTag = Some (type listStyle)))
  then
    let listStyle' := resumeNumbering indentN it (encounteredLists st) listStyle in
    let '(h1, listElement) := createNewEmptyList (heap st) listStyle' false in
    h2 <- insertList h1 (stack st) indentN it listElement ;;
    Ok {| heap := h2;
          stack := Arr.set indentN
                     {| item := it; listElement := listElement; listItemElements := [] |}
                     (stack st);
          encounteredLists :=
            if (indentN =? 0) && bool_decide (is_Some (id (itemData it)))
            then <[originalListId it :=
                     Num (match startIndex listStyle' with
                          | Some n => if n =? 0 then 1 else n
                          | None => 1
                          end)]> (encounteredLists st)
            else encounteredLists st |}
  else Ok st.

Definition withStack (st : State) (s : Arr.array Frame) : State :=
  {| heap := heap st; stack := s; encounteredLists := encounteredLists st |}.

Definition pushListItem (listItem : ref) (fr : Frame) : Frame :=
  {| item := item fr; listElement := listElement fr;
     listItemElements := (listItemElements fr ++ [listItem])%list |}.

(** Lines 130-147: put the item into the list open at its depth. *)
Definition appendItem (indentN : Z) (it : ListLikeElement) (st : State) : result State :=
  let '(h1, listItem) :=
    if str_eqb (toLowerCase (tagNameOf (heap st) (element it))) "li"
    then (heap st, element it)
    else createElement (heap st) "li" in
  appended <-
    match Arr.get indentN (stack st) with
    | Some fr =>
        h2 <- appendChild h1 (listElement fr) listItem ;;
        Ok (h2, Arr.set indentN (pushListItem listItem fr) (stack st))
    | None => Ok (h1, stack st)
    end ;;
  let h2 := fst appended in
  let stack2 := snd appended in
  let encountered :=
    if (indentN =? 0) && bool_decide (is_Some (id (itemData it)))
    then <[originalListId it := incr (encounteredLists st !! originalListId it)]>
           (encounteredLists st)
    else encounteredLists st in
  h3 <- (if negb (Nat.eqb (element it) listItem)
         then appendChild h2 listItem (element it) else Ok h2) ;;
  h4 <- removeMsoListIgnoreSpans h3 (element it) ;;
  Ok {| heap := h4; stack := stack2; encounteredLists := encountered |}.

(** The normalized depth of line 73. *)
Definition normalizedIndent (level : Z) (stack : Arr.array Frame) : Z :=
  Z.min (level - 1) (Arr.len stack).

(** The stack after the continuation check of lines 66-68. *)
Definition resetStack (continues : bool) (stack : Arr.array Frame)
  : result (Arr.array Frame) :=
  if negb continues then Arr.set_length 0 stack else Ok stack.

(** The body of the loop, lines 64-148. *)
Definition processItem (stylesString : string) (st : State) (it : ListLikeElement)
  : result State :=
  match indent (itemData it) with
  | None => Ok st
  | Some level =>
      continues <- isListContinuation (heap st) it ;;
      stack1 <- resetStack continues (stack st) ;;
      let indentN := normalizedIndent level stack1 in
      stack2 <-
        (if (indentN <? Arr.len stack1)
            && negb (bool_decide (frameId (Arr.get indentN stack1) = id (itemData it)))
         then Arr.set_length indentN stack1 else Ok stack1) ;;
      st3 <-
        (if indentN <? Arr.len stack2 - 1
         then stack3 <- Arr.set_length (indentN + 1) stack2 ;; Ok (withStack st stack3)
         else openList stylesString indentN it (withStack st stack2)) ;;
      appendItem indentN it st3
  end.

Definition processItems (stylesString : string) (items : list ListLikeElement) (st : State)
  : result State :=
  List.fold_left (fun acc it => st' <- acc ;; processItem stylesString st' it) items (Ok st).

Definition initialState (h : Dom.heap) : State :=
  {| heap := h; stack := Arr.empty; encounteredLists := ∅ |}.

Definition transformListItemLikeLElementsIntoLists (h : Dom.heap) (doc : ref)
           (stylesString : string) : result Dom.heap :=
  itemLikeElements <- findAllItemLikeElements h doc ;;
  match itemLikeElements with
  | [] => Ok h
  | _ => st <- processItems stylesString itemLikeElements (initialState h) ;; Ok (heap st)
  end.

(** *** Attribute cleanup *)

(** The loop over [item.classList] walks a live list by index: after a
    removal the classes behind it move up while the index moves on. *)
Fixpoint removeMsoClasses_from (fuel : nat) (h : Dom.heap) (item : ref) (i : nat) : Dom.heap :=
  match fuel with
  | O => h
  | S fuel' =>
      match classList h item !! i with
      | None => h
      | Some className =>
          if test true msoRegex className
          then removeMsoClasses_from fuel' (classList_remove h item className) item (S i)
          else removeMsoClasses_from fuel' h item (S i)
      end
  end.

Definition removeMsoClasses (h : Dom.heap) (item : ref) : Dom.heap :=
  removeMsoClasses_from (length (classList h item)) h item 0.

Definition isWordElement (h : Dom.heap) (item : ref) : bool :=
  let t := tagNameOf h item in
  str_eqb t "W:SDT"
  || (str_eqb t "W:SDTPR" && isElementEmpty h item)
  || (str_eqb t "O:P" && isElementEmpty h item).

Definition cleanItem (acc : Dom.heap * list ref) (item : ref) : Dom.heap * list ref :=
  let '(h, elementsToUnwrap) := acc in
  let h1 := removeMsoClasses h item in
  let h2 := if isHTMLElement h1 item then removeMSOStyles h1 item else h1 in
  (h2, if isWordElement h2 item then (elementsToUnwrap ++ [item])%list else elementsToUnwrap).

Definition removeMSAttributes (h : Dom.heap) (doc : ref) : result Dom.heap :=
  let '(h1, elementsToUnwrap) :=
    List.fold_left cleanItem (querySelectorAll_any h doc) (h, []) in
  List.fold_left
    (fun acc item =>
       h' <- acc ;;
       match parentNode h' item with
       | Some itemParent => removeChild h' itemParent item
       | None => Throw (TypeError "Cannot read properties of null (reading 'removeChild')")
       end)
    elementsToUnwrap (Ok h1).

(** [normalize] once the body has been parsed: lines 14 and 15. *)
Definition normalizeDocument (h : Dom.heap) (doc : ref) (stylesString : string)
  : result Dom.heap :=
  h1 <- transformListItemLikeLElementsIntoLists h doc stylesString ;;
  removeMSAttributes h1 doc.

(** *** White space *)

(** The replacement of a run of [n] spaces: [Array(n + 1).join(nbsp space)]
    cut to [n] characters. *)
Definition spaceRun (n : nat) : string :=
  substring0 n (repeat_string n (String nbsp " ")).

(** [<span>] or [<span class=Apple-converted-space>] (the class in double
    quotes) around white space only. *)
Definition safariSpanRegex : regex :=
  seqs [lit "<span";
        Alt (seqs [lit " class="; Chr quote; lit "Apple-converted-space"; Chr quote]) Eps;
        Chr ">"; Grp 1 (plus space); lit "</span>"].

Definition safariReplacement (fullMatch : string) (groups : captures) : string :=
  let spaces := default EmptyString (capture 1 groups) in
  if Nat.eqb (String.length spaces) 1 then " " else spaceRun (String.length spaces).

Definition normalizeSafariSpaceSpans (htmlString : string) : string :=
  replaceAll false safariSpanRegex safariReplacement htmlString.

(** [span[style*=spacerun]] *)
Definition isSpacerunSpan (h : Dom.heap) (n : ref) : bool :=
  hasLocalName h "span" n &&
  match getAttribute h n "style" with
  | Some st => includes "spacerun" st
  | None => false
  end.

(** The document comes from [DOMParser] and is not rendered, so that
    [innerText] reads as [textContent]. *)
Definition normalizeSpacerunSpan (h : Dom.heap) (el : ref) : Dom.heap :=
  let innerTextLength := String.length (textContent h el) in
  set_innerText h el (spaceRun innerTextLength).

Definition normalizeSpacerunSpans (h : Dom.heap) (htmlDocument : ref) : Dom.heap :=
  List.fold_left normalizeSpacerunSpan
                 (List.filter (isSpacerunSpan h) (descendants h htmlDocument)) h.

(** *** The text before parsing *)

Definition cleanContentAfterBody (htmlString : string) : string :=
  let bodyCloseTag := "</body>" in
  let htmlCloseTag := "</html>" in
  match str_indexOf bodyCloseTag htmlString with
  | None => htmlString
  | Some bodyCloseIndex =>
      let htmlCloseIndex :=
        str_indexOf_from htmlCloseTag htmlString
                         (bodyCloseIndex + String.length bodyCloseTag) in
      substring0 (bodyCloseIndex + String.length bodyCloseTag) htmlString +:+
      match htmlCloseIndex with
      | Some i => str_drop i htmlString
      | None => EmptyString
      end
  end.

(** *** The detector *)

(** The generator tag of Word, [<meta name=generator content=microsoft word N>]
    with optional double quotes around the two values, optional white space
    between the parts and an optional slash before the closing bracket. *)
Definition generatorRegex : regex :=
  seqs [lit "<meta"; star space; lit "name="; opt (Chr quote); lit "generator";
        opt (Chr quote); star space; lit "content="; opt (Chr quote); lit "microsoft";
        star space; lit "word"; star space; plus digit; opt (Chr quote); opt (Chr "/");
        Chr ">"].

(** The declaration of the Office namespace: [xmlns:o=], a double quote and
    the beginning of the namespace name. *)
Definition officeNamespace : string :=
  "xmlns:o=" +:+ String quote "urn:schemas-microsoft-com".
Definition namespaceRegex : regex := lit officeNamespace.

Definition MS_WORD_MATCHES : list regex := [generatorRegex; namespaceRegex].

Definition isActive (htmlString : string) : bool :=
  existsb (fun regex => test true regex htmlString) MS_WORD_MATCHES.

End Normalizer.

(* ===================================================================== *)
(** ** Vocabulary of the statements                                       *)
(* ===================================================================== *)

Module Spec.

Import Re Dom Normalizer.

(** *** Heaps *)

(** [links_only h h']: the same nodes with the same kinds and attributes;
    only parent and child links may differ. *)
Definition links_only (h h' : list node) : Prop :=
  length h' = length h /\
  forall n, (nkind <$> h' !! n) = (nkind <$> h !! n) /\
            (attrs <$> h' !! n) = (attrs <$> h !! n).

(** [preserves h h']: [h'] has the nodes of [h], unchanged in kind and
    attributes, and maybe more. *)
Definition preserves (h h' : list node) : Prop :=
  (length h <= length h')%nat /\
  forall n, (n < length h)%nat ->
    (nkind <$> h' !! n) = (nkind <$> h !! n) /\
    (attrs <$> h' !! n) = (attrs <$> h !! n).

(** [grows h h']: as [preserves], and the nodes that [h'] adds carry no
    class attribute. *)
Definition grows (h h' : list node) : Prop :=
  preserves h h' /\ forall n, (length h <= n)%nat -> getAttribute h' n "class" = None.

(** *** Regular expressions *)

(** A matcher that succeeds has called its continuation successfully. *)
Definition calls {R : Type} (m : @matcher R) : Prop :=
  forall prev s cs (k : cont) x,
    m prev s cs k = Some x -> exists p' s' cs', k p' s' cs' = Some x.

(** *** The reconstruction stack *)

(** The frame pushed for [it] when the list container [l] is opened. *)
Definition newFrame (it : ListLikeElement) (l : nat) : Frame :=
  {| item := it; listElement := l; listItemElements := [] |}.

(** What one iteration of the loop may do to the stack [s], for an item of
    indent level [level]: the stack [s0] it works on is [s] or, after an
    interruption, the empty stack; the normalized depth [d] is
    [min (level - 1) (length s0)] and lies within [0 .. length s0]; the
    result has length [d + 1], agrees with [s0] below [d], and holds at [d]
    either the frame that was there or a frame newly opened for [it], with
    the list item of this iteration pushed onto it. *)
Definition stack_step (it : ListLikeElement) (level : Z) (s s' : Arr.array Frame) : Prop :=
  exists s0 d,
    (s0 = s \/ s0 = Arr.truncate 0 s) /\
    d = normalizedIndent level s0 /\ 0 <= d <= Arr.len s0 /\
    Arr.len s' = d + 1 /\
    (forall j, j < d -> Arr.get j s' = Arr.get j s0) /\
    exists fr li, Arr.get d s' = Some (pushListItem li fr) /\
                  (Arr.get d s0 = Some fr \/ exists l, fr = newFrame it l).

(** The two shapes of what [getListItemData] returns for a candidate: the
    triple, or the fallback without id and with indent 1. *)
Definition wf_item (it : ListLikeElement) : Prop :=
  id (itemData it) = None ->
  indent (itemData it) = None \/ indent (itemData it) = Some 1.


(** [opens st st' it]: the step from [st] to [st'] created a list container
    for [it]; the container is the node allocated first, [length (heap st)],
    and it is the list open at depth 0 afterwards. *)
Definition opens (st st' : State) (it : ListLikeElement) : Prop :=
  exists li, Arr.get 0 (stack st') = Some (pushListItem li (newFrame it (length (heap st)))).

(** *** Counters *)

(** The [start] attribute that [createNewEmptyList] gives a container. *)
Definition startAttr (ls : ListStyle) : option string :=
  match startIndex ls with
  | Some n => if 1 <? n then Some (toString n) else None
  | None => None
  end.

(** [listStyle.startIndex || 1] *)
Definition startOr1 (ls : ListStyle) : Z :=
  match startIndex ls with
  | Some n => if n =? 0 then 1 else n
  | None => 1
  end.

(** The counters after line 125 and after line 139. *)
Definition primed (d : Z) (it : ListLikeElement) (ls : ListStyle) (enc : gmap string num)
  : gmap string num :=
  if (d =? 0) && bool_decide (is_Some (id (itemData it)))
  then <[originalListId it := Num (startOr1 ls)]> enc
  else enc.

Definition bumped (d : Z) (it : ListLikeElement) (enc : gmap string num) : gmap string num :=
  if (d =? 0) && bool_decide (is_Some (id (itemData it)))
  then <[originalListId it := incr (enc !! originalListId it)]> enc
  else enc.

(** The state handed to [appendItem]: either no list was opened and the
    stack was at most cut, or a list was opened for the item. *)
Inductive prepared (css : string) (st : State) (it : ListLikeElement)
          (s0 : Arr.array Frame) (d : Z) : State -> Prop :=
| prepared_kept (s3 : Arr.array Frame) :
    (s3 = s0 \/ s3 = Arr.truncate (d + 1) s0 /\ 0 <= d + 1) ->
    d <= Arr.len s0 - 1 ->
    prepared css st it s0 d (withStack st s3)
| prepared_opened (s2 : Arr.array Frame) ls h1 h2 :
    (s2 = s0 \/ s2 = Arr.truncate d s0 /\ 0 <= d) ->
    detectListStyle (heap st) it css = Ok ls ->
    createNewEmptyList (heap st) (resumeNumbering d it (encounteredLists st) ls) false
      = (h1, length (heap st)) ->
    links_only h1 h2 ->
    prepared css st it s0 d
      {| heap := h2;
         stack := Arr.set d (newFrame it (length (heap st))) s2;
         encounteredLists :=
           primed d it (resumeNumbering d it (encounteredLists st) ls) (encounteredLists st) |}.





(** *** Classes *)

(** A class token: not empty, no ASCII white space. *)
Definition nospace (s : string) : bool := forall_string (fun c => negb (isAsciiSpace c)) s.
Definition isToken (s : string) : Prop := nospace s = true /\ s <> EmptyString.

(** [class_only h h']: nothing but class attributes differs. *)
Definition class_only (h h' : list node) : Prop :=
  length h' = length h /\
  forall n, kindOf h' n = kindOf h n /\ kids h' n = kids h n /\
            forall k, k <> "class" -> getAttribute h' n k = getAttribute h n k.

(** *** Vendor names *)

(** Does [s] begin with [mso], in any case? *)
Definition startsMso (s : string) : bool :=
  match s with
  | String a (String b (String c _)) =>
      chr_matches true "m" a && chr_matches true "s" b && chr_matches true "o" c
  | _ => false
  end.

(** [mso] at the front of [s], at a word boundary. *)
Definition msoHere (prev : option ascii) (s : string) : bool :=
  negb (is_word prev) && startsMso s.

(** [mso] at a word boundary somewhere in [s]. *)
Fixpoint msoFrom (prev : option ascii) (s : string) : bool :=
  msoHere prev s ||
  match s with
  | String c s' => msoFrom (Some c) s'
  | EmptyString => false
  end.

(** The test that [removeMSOStyles] applies to a property name. *)
Definition hasMso (p : string) : bool := test true msoRegex (toLowerCase p).

(** The property name that [convertStyleToObject] reads off a declaration. *)
Definition propOf (declaration : string) : string := trim (keyOf declaration).

Definition noChar (sep : ascii) (s : string) : bool :=
  forall_string (fun c => negb (bool_decide (c = sep))) s.

(** The object read from the kept declarations is the object read from
    all of them, without the vendor properties. *)
Definition filtered (mF mD : gmap string string) : Prop :=
  forall p, mF !! p = if hasMso p then None else mD !! p.

(** The state of the cleanup loop: the elements of [processed] that are
    HTML elements have lost their vendor properties, the style of every
    other node is as it was. *)
Definition styled (h0 h : list node) (processed : list nat) : Prop :=
  forall e, kindOf h e = kindOf h0 e /\
    if decide (e ∈ processed /\ isHTMLElement h0 e = true)
    then forall p, styleOf h e !! p = if hasMso p then None else styleOf h0 e !! p
    else getAttribute h e "style" = getAttribute h0 e "style".

(** *** White space *)

(** The previous character once [ws] has been read. *)
Fixpoint lastOr (prev : option ascii) (ws : string) : option ascii :=
  match ws with
  | EmptyString => prev
  | String c ws' => lastOr (Some c) ws'
  end.

(** The next character, if any, is not in the class [p]. *)
Definition stopsAt (p : ascii -> bool) (rest : string) : Prop :=
  match rest with
  | String c _ => p c = false
  | EmptyString => True
  end.

(** What [normalizeSafariSpaceSpans] puts in the place of a span. *)
Definition safariSpaces (ws : string) : string :=
  if Nat.eqb (String.length ws) 1 then " " else spaceRun (String.length ws).

(** The two opening tags that the pattern of [normalizeSafariSpaceSpans]
    accepts: a bare span, and a span of class Apple-converted-space. *)
Definition spanOpen : string := "<span>".
Definition appleSpanOpen : string :=
  "<span class=" +:+ String quote ("Apple-converted-space" +:+ String quote ">").

(** *** Bullets *)



(** *** Candidates *)

(** The test that [findAllItemLikeElements] applies to an element: one of
    the nine block tags, an HTML element, an [mso-list] property in its
    inline style, and a parent element that is not a list. *)
Definition isCandidate (h : list node) (n : nat) : bool :=
  existsb (str_eqb (toLowerCase (tagNameOf h n))) itemTags
  && isHTMLElement h n
  && hasMsoList h n
  && match parentElement h n with
     | Some p => negb (existsb (str_eqb (toLowerCase (tagNameOf h p))) ["ul"; "ol"])
     | None => false
     end.

(** What the loop over a live class list leaves of it: a vendor class is
    removed, and the class behind it, moved into its place, is passed over
    unexamined. *)
Fixpoint skipRemove (l : list string) : list string :=
  match l with
  | [] => []
  | c :: rest =>
      if test true msoRegex c
      then match rest with
           | [] => []
           | d :: rest' => d :: skipRemove rest'
           end
      else c :: skipRemove rest
  end.

(** *** Style declarations *)

(** A property name or a value as [convertStyleToObject] stores it: not
    empty, no white space around it, no colon and no semicolon in it. *)
Definition trimmed (x : string) : Prop :=
  x <> EmptyString /\ trim x = x /\ noChar ":" x = true /\ noChar ";" x = true.

(** *** Numbers as text *)

(** The loop of [parseInt_digits], with its accumulator. *)
Definition parse_from : Z -> string -> Z :=
  fix go (acc : Z) (s : string) : Z :=
    match s with
    | EmptyString => acc
    | String c s' => go (10 * acc + digit_value c) s'
    end.

(** *** Regular expressions without groups *)

Fixpoint groupless (r : regex) : bool :=
  match r with
  | Grp _ _ => false
  | Seq r1 r2 | Alt r1 r2 => groupless r1 && groupless r2
  | Rep _ _ r1 => groupless r1
  | _ => true
  end.

(** A matcher that succeeds has called its continuation successfully, on
    the captures it was given. *)
Definition calls_same {R : Type} (m : @matcher R) : Prop :=
  forall prev s cs (k : cont) x,
    m prev s cs k = Some x -> exists p' s', k p' s' cs = Some x.

(** *** List data *)

(** A string of one or more decimal digits. *)
Definition digits (x : string) : Prop := x <> EmptyString /\ forall_string isDigit x = true.

(** The value of the [mso-list] property as Word writes it: the list id,
    the level and the order. *)
Definition wordListValue (i n o : string) : string :=
  "l" +:+ i +:+ " level" +:+ n +:+ " lfo" +:+ o.

(** *** Resolved styles *)

(** The values of [list-style-type] that [mapListStyleDefinition] returns. *)
Definition cssListStyles : list string :=
  ["decimal-leading-zero"; "upper-alpha"; "lower-alpha"; "upper-roman"; "lower-roman";
   "circle"; "disc"; "square"].

(** *** Detection *)

(** [w'] is [w] up to the case of its ASCII letters. *)
Definition sameLetters (w w' : string) : Prop :=
  toUpperAscii w' = toUpperAscii w.

(** The generator tag as Word writes it, for the version [v]. *)
Definition generatorTag (v : string) : string :=
  "<meta name=Generator content=" +:+ String quote ("Microsoft Word " +:+ v +:+ String quote ">").

(** *** Where candidates end up *)

Definition isListTag (h : list node) (l : nat) : Prop :=
  tagName h l = Some "OL" \/ tagName h l = Some "UL".

(** [e] is a list item of the list [l], or the only thing that the list
    item [li] of [l] was made for. *)
Definition housedIn (h : list node) (e li l : nat) : Prop :=
  (li = e \/ parentNode h e = Some li) /\
  tagName h li = Some "LI" /\ parentNode h li = Some l /\ isListTag h l.

Definition housed (h : list node) (e : nat) : Prop := exists li l, housedIn h e li l.

(** The frames of the stack hold list containers of the heap. *)
Definition stack_of_lists (st : State) : Prop :=
  forall j fr, Arr.get j (stack st) = Some fr ->
    (listElement fr < length (heap st))%nat /\ isListTag (heap st) (listElement fr).

(** [housed], with the list item either the element itself or a node made
    by the loop (the nodes of the parsed document are those below [n0]). *)
Definition housedFrom (n0 : nat) (h : list node) (e : nat) : Prop :=
  exists li l,
    (li = e \/ ((n0 <= li)%nat /\ parentNode h e = Some li)) /\
    tagName h li = Some "LI" /\ parentNode h li = Some l /\ isListTag h l.

(** *** Word elements *)

(** The three tag names that attribute cleanup looks for. *)
Definition isWordTag (t : string) : Prop := t = "W:SDT" \/ t = "W:SDTPR" \/ t = "O:P".

(** *** The marker of a bullet item *)



(** *** Spans that hold text *)

(** [c] is a text node; a text node has no children. *)
Definition isTextLeaf (h : list node) (c : nat) : Prop :=
  (exists d, kindOf h c = Some (Text d)) /\ kids h c = [].

(** The content of [s] is text: its children are text nodes. *)
Definition holdsText (h : list node) (s : nat) : Prop :=
  Forall (isTextLeaf h) (kids h s).

(** *** Trees *)

(** The heap holds trees: the children of a node are nodes of the heap, and
    the nodes can be ranked so that a child ranks below its parent, the
    ranks of the parents staying below the size of the heap. *)
Definition treeLike (h : list node) : Prop :=
  exists rank : nat -> nat,
    forall p c, In c (kids h p) -> (c < length h)%nat /\ (rank c < rank p < length h)%nat.

(** The text of the descendants that a walk of depth [fuel] reaches. *)
Definition textAt (fuel : nat) (h : list node) (n : nat) : string :=
  fold_right (fun c acc => ownText h c +:+ acc) EmptyString (descendants_fuel fuel h n).

End Spec.

(* ===================================================================== *)
(** ** Sample documents                                                   *)
(* ===================================================================== *)

(** Bodies as the parser delivers them for small Word fragments, and the
    style sheets that go with them. *)

Module Examples.

Import Re Dom Normalizer.

Definition noData : ListItemData := {| id := None; order := None; indent := None |}.

Definition msoList (level : string) : string := "mso-list:l0 level" +:+ level +:+ " lfo1".

(** A list paragraph of Word: the rendered marker in a span to be ignored,
    then the text. *)
Definition wordItem (level text : string) : tree :=
  El "p" [("class", "MsoListParagraph"); ("style", "text-indent:-18pt;" +:+ msoList level)]
     [El "span" [("style", "mso-list:Ignore")] [Tx "1."]; Tx text].

(** A numbered list that starts at 5. *)
Definition cssStart5 : string :=
  "@list l0:level1 {mso-level-number-format:decimal; mso-level-start-at:5;}".

(** Two items, a plain paragraph, and a third item of the same list. *)
Definition docResume : list node :=
  documentOf [wordItem "1" "a"; wordItem "1" "b"; El "p" [] [Tx "break"]; wordItem "1" "c"].

(** Items at levels 1, 2 and 1. *)
Definition docNested : list node :=
  documentOf [wordItem "1" "a"; wordItem "2" "b"; wordItem "1" "c"].

(** A list paragraph that follows a text node. *)
Definition docTextSibling : list node :=
  documentOf [El "p" [] [Tx "a"]; Tx "x"; El "p" [("style", msoList "1")] [Tx "b"]].

(** A list paragraph separated from the paragraph before it by a space. *)
Definition docSpaceSibling : list node :=
  documentOf [El "p" [] [Tx "Intro"]; Tx " "; El "p" [("style", msoList "1")] [Tx "Item"]].

Definition cssBullet : string := "@list l0:level1 {mso-level-number-format:bullet;}".



(** A bullet item that starts with bare text; a span follows. *)
Definition docTextFirst : list node :=
  documentOf [El "p" [("style", msoList "1")] [Tx "text"; El "span" [] [Tx "o"]]].

(** Names that contain the letters m, s, o inside a word. *)
Definition docCrimson : list node :=
  documentOf [El "p" [("class", "crimson MsoNormal");
                      ("style", "crimson-x:1;mso-foo:2;color:red")] [Tx "x"]].

(** A space run of one space. *)
Definition docSpacerun : list node :=
  documentOf [El "p" [] [Tx "a"; El "span" [("style", "mso-spacerun:yes")] [Tx " "]; Tx "b"]].

(** A paragraph that already carries the class legal-list. *)
Definition docLegal : list node :=
  documentOf [El "p" [("class", "legal-list")] [Tx "x"]].

(** A list paragraph at level 0. *)
Definition docLevel0 : list node :=
  documentOf [El "p" [("style", msoList "0")] [Tx "b"]].

(** Two vendor classes side by side. *)
Definition docTwoClasses : list node :=
  documentOf [El "p" [("class", "MsoNormal MsoListParagraph")] [Tx "x"]].

(** The candidates of a document, and the state of the loop after the
    first [n] of them. *)
Definition items (h : list node) : list ListLikeElement :=
  match findAllItemLikeElements h documentNode with Ok l => l | Throw _ => [] end.

Definition item_at (h : list node) (n : nat) : ListLikeElement :=
  nth n (items h) {| itemData := noData; element := O |}.

Definition stateAfter (css : string) (n : nat) (h : list node) : State :=
  match processItems css (firstn n (items h)) (initialState h) with
  | Ok st => st
  | Throw _ => initialState h
  end.

(** What [detectListStyle] resolves for [cssStart5]. *)
Definition ls5 : ListStyle :=
  {| type := "ol"; startIndex := Some 5; style := None; isLegalStyleList := false |}.

Definition heapOf (r : result (list node)) : list node :=
  match r with Ok h => h | Throw _ => [] end.

(** A content control of Word around a paragraph, and a paragraph. *)
Definition docSdt : list node :=
  documentOf [El "w:sdt" [] [El "p" [] [Tx "x"]]; El "p" [] [Tx "y"]].

(** An empty Office paragraph, one with text, and a content control. *)
Definition docOfficeP : list node :=
  documentOf [El "p" [] [Tx "a"; El "o:p" [] []];
              El "p" [] [El "o:p" [] [Tx "b"]];
              El "w:sdt" [] [El "p" [] [Tx "c"]]].

End Examples.

Import Re Dom Normalizer Spec Examples.

(* ===================================================================== *)
(** ** Facts                                                              *)
(* ===================================================================== *)

Lemma links_only_refl h : links_only h h.
Proof. split; [done | intros n; done]. Qed.

Lemma links_only_trans h1 h2 h3 : links_only h1 h2 -> links_only h2 h3 -> links_only h1 h3.
Proof.
  intros [L1 H1] [L2 H2]. split; [congruence |].
  intros n. destruct (H1 n) as [A B], (H2 n) as [C D]. split; congruence.
Qed.

Lemma update_length n f (h : list node) : length (update n f h) = length h.
Proof. unfold update. destruct (h !! n); [apply length_insert | done]. Qed.

Lemma update_lookup n f (h : list node) m :
  update n f h !! m = if decide (m = n) then f <$> h !! n else h !! m.
Proof.
  unfold update. destruct (h !! n) as [nd|] eqn:E.
  - destruct (decide (m = n)) as [->|Hne].
    + rewrite list_lookup_insert_eq; [done|]. by eapply lookup_lt_Some.
    + by rewrite list_lookup_insert_ne.
  - destruct (decide (m = n)) as [->|Hne]; [by rewrite E | done].
Qed.

Lemma update_links_only n f h :
  (forall nd, nkind (f nd) = nkind nd /\ attrs (f nd) = attrs nd) -> links_only h (update n f h).
Proof.
  intros Hf. split; [apply update_length|].
  intros m. rewrite update_lookup. destruct (decide (m = n)) as [->|]; [|done].
  destruct (h !! n) as [nd|]; simpl; [|done]. destruct (Hf nd) as [-> ->]. done.
Qed.

Lemma with_parent_same p nd : nkind (with_parent p nd) = nkind nd /\ attrs (with_parent p nd) = attrs nd.
Proof. done. Qed.
Lemma with_kids_same f nd : nkind (with_kids f nd) = nkind nd /\ attrs (with_kids f nd) = attrs nd.
Proof. done. Qed.

Lemma detach_links_only h c : links_only h (detach h c).
Proof.
  unfold detach. destruct (parentNode h c); [|apply links_only_refl].
  eapply links_only_trans; apply update_links_only; intros; done.
Qed.

Lemma appendChild_links_only h p c h' : appendChild h p c = Ok h' -> links_only h h'.
Proof.
  unfold appendChild. destruct (canInsert h p c); [|done]. intros [= <-].
  eapply links_only_trans; [apply detach_links_only|].
  eapply links_only_trans; apply update_links_only; intros; done.
Qed.

Lemma insertBefore_links_only h p c r h' : insertBefore h p c r = Ok h' -> links_only h h'.
Proof.
  unfold insertBefore. destruct (canInsert h p c); [|done].
  destruct (isChildOf _ _ _); [|done]. intros [= <-].
  eapply links_only_trans; [apply detach_links_only|].
  eapply links_only_trans; apply update_links_only; intros; done.
Qed.

Lemma removeChild_links_only h p c h' : removeChild h p c = Ok h' -> links_only h h'.
Proof.
  unfold removeChild. destruct (isChildOf _ _ _); [|done]. intros [= <-].
  apply detach_links_only.
Qed.

Lemma links_only_getAttribute h h' n name : links_only h h' -> getAttribute h' n name = getAttribute h n name.
Proof.
  intros [_ H]. destruct (H n) as [_ A]. unfold getAttribute.
  destruct (h' !! n) as [a|], (h !! n) as [b|]; simpl in *; try done.
  by injection A as ->.
Qed.

Lemma links_only_kindOf h h' n : links_only h h' -> kindOf h' n = kindOf h n.
Proof. intros [_ H]. by destruct (H n). Qed.

Lemma links_only_preserves h h' : links_only h h' -> preserves h h'.
Proof. intros [L H]. split; [lia|]. intros n _. apply H. Qed.

Lemma preserves_refl h : preserves h h.
Proof. split; [lia | done]. Qed.

Lemma preserves_trans h1 h2 h3 : preserves h1 h2 -> preserves h2 h3 -> preserves h1 h3.
Proof.
  intros [L1 H1] [L2 H2]. split; [lia|]. intros n Hn.
  destruct (H1 n Hn) as [A B], (H2 n ltac:(lia)) as [C D]. split; congruence.
Qed.

Lemma preserves_app h extra : preserves h (h ++ extra).
Proof.
  split; [rewrite length_app; lia|]. intros n Hn. by rewrite lookup_app_l.
Qed.

Lemma removeMsoListIgnoreSpans_links_only h e h' :
  removeMsoListIgnoreSpans h e = Ok h' -> links_only h h'.
Proof.
  unfold removeMsoListIgnoreSpans.
  generalize (querySelectorAll_tag h "span" e). intros l.
  assert (G : forall (acc : result Dom.heap) h',
    (forall h0, acc = Ok h0 -> links_only h h0) ->
    fold_left (fun acc span => h' <- acc ;; if ignoresMarker h' span then
         match parentNode h' span with Some p => removeChild h' p span | None => Ok h' end
       else Ok h') l acc = Ok h' -> links_only h h').
  { induction l as [|x l IH]; intros acc h2 Hacc; simpl.
    - intros ->. by apply Hacc.
    - apply IH. intros h0. destruct acc as [a|]; simpl; [|done].
      specialize (Hacc a eq_refl).
      destruct (ignoresMarker a x); [|by intros [= <-]].
      destruct (parentNode a x); [|by intros [= <-]].
      intros Hr. eapply links_only_trans; [exact Hacc|]. by eapply removeChild_links_only. }
  apply G. intros h0 [= <-]. apply links_only_refl.
Qed.

Section ArrFacts.
Context {A : Type}.
Implicit Types (s : Arr.array A) (i n : Z).

Lemma get_truncate i n s :
    Arr.get i (Arr.truncate n s) = if decide (i < n) then Arr.get i s else None.
  Proof.
    unfold Arr.get, Arr.truncate; simpl.
    destruct (decide (i < n)) as [H|H].
    - destruct (Arr.props s !! i) as [x|] eqn:E.
      + apply map_lookup_filter_Some; auto.
      + apply map_lookup_filter_None; left; done.
    - apply map_lookup_filter_None. right. intros x _. simpl. done.
  Qed.

Lemma get_set i j x s :
    Arr.get i (Arr.set j x s) = if decide (i = j) then Some x else Arr.get i s.
  Proof.
    unfold Arr.get, Arr.set; simpl. rewrite lookup_insert.
    destruct (decide (j = i)), (decide (i = j)); congruence.
  Qed.

Lemma len_truncate n s : Arr.len (Arr.truncate n s) = n.
  Proof. done. Qed.

Lemma len_set j x s :
    Arr.len (Arr.set j x s) = if 0 <=? j then Z.max (Arr.len s) (j + 1) else Arr.len s.
  Proof. done. Qed.

Lemma dense_empty : Arr.dense (@Arr.empty A).
  Proof.
    split; [done|]. intros i. unfold Arr.get, Arr.empty; simpl. rewrite lookup_empty.
    split; [intros [? ?]; done | lia].
  Qed.

Lemma dense_truncate n s : Arr.dense s -> 0 <= n <= Arr.len s -> Arr.dense (Arr.truncate n s).
  Proof.
    intros [L D] Hn. split; [simpl; lia|]. intros i. rewrite get_truncate, len_truncate.
    destruct (decide (i < n)).
    - rewrite (D i). lia.
    - split; [intros [? ?]; done | lia].
  Qed.

Lemma dense_set j x s : Arr.dense s -> 0 <= j <= Arr.len s -> Arr.dense (Arr.set j x s).
  Proof.
    intros [L D] Hj. split; [rewrite len_set; destruct (0 <=? j); lia|].
    intros i. rewrite get_set, len_set.
    destruct (Z.leb_spec 0 j); [|lia].
    destruct (decide (i = j)) as [->|].
    - split; [lia | eauto].
    - rewrite (D i). lia.
  Qed.

Lemma set_length_Ok n s s' : Arr.set_length n s = Ok s' -> 0 <= n /\ s' = Arr.truncate n s.
  Proof.
    unfold Arr.set_length. destruct (Z.ltb_spec n 0); [done|]. intros [= <-]. split; [lia|done].
  Qed.

End ArrFacts.

Lemma bind_Ok {A B} (m : result A) (f : A -> result B) b :
  JS.bind m f = Ok b -> exists a, m = Ok a /\ f a = Ok b.
Proof. destruct m; simpl; [eauto | done]. Qed.

Tactic Notation "inv_bind" hyp(H) "as" ident(a) ident(Ha) :=
  apply bind_Ok in H; destruct H as (a & Ha & H).

Lemma resetStack_Ok c (s s1 : Arr.array Frame) :
  resetStack c s = Ok s1 -> s1 = s \/ s1 = Arr.truncate 0 s.
Proof.
  unfold resetStack. destruct c; simpl; [intros [= <-]; by left|].
  intros H. apply set_length_Ok in H as [_ ->]. by right.
Qed.

Lemma openList_stack css d it st st' :
  openList css d it st = Ok st' ->
  (stack st' = stack st /\ d <= Arr.len (stack st) - 1 /\ is_Some (Arr.get d (stack st)))
  \/ (exists l, stack st' = Arr.set d (newFrame it l) (stack st)).
Proof.
  unfold openList. intros H. inv_bind H as ls Hls.
  destruct (_ || _) eqn:C.
  - destruct (createNewEmptyList _ _ _) as [h1 l] eqn:E.
    inv_bind H as h2 Hh2. injection H as <-. right. by exists l.
  - injection H as <-. left. apply orb_false_elim in C as [C1 C2].
    split; [done|]. split; [lia|].
    apply negb_false_iff in C2. apply bool_decide_eq_true in C2.
    destruct (Arr.get d (stack st)); [eauto | done].
Qed.

Lemma appendItem_stack d it st st' :
  appendItem d it st = Ok st' ->
  match Arr.get d (stack st) with
  | Some fr => exists li, stack st' = Arr.set d (pushListItem li fr) (stack st)
  | None => stack st' = stack st
  end.
Proof.
  unfold appendItem. destruct (if str_eqb _ _ then _ else _) as [h1 li].
  intros H. inv_bind H as ap Hap. inv_bind H as h3 Hh3. inv_bind H as h4 Hh4.
  injection H as <-. simpl.
  destruct (Arr.get d (stack st)) as [fr|].
  - inv_bind Hap as h2 Hh2. injection Hap as <-. simpl. eauto.
  - injection Hap as <-. done.
Qed.

Lemma processItem_stack_step css st it st' level :
  wf_item it -> Arr.dense (stack st) ->
  indent (itemData it) = Some level ->
  processItem css st it = Ok st' ->
  Arr.dense (stack st') /\ stack_step it level (stack st) (stack st').
Proof.
  intros Hwf D Hlevel H. unfold processItem in H. rewrite Hlevel in H.
  inv_bind H as continues Hcont.
  inv_bind H as s1 Hs1. apply resetStack_Ok in Hs1.
  assert (D1 : Arr.dense s1).
  { destruct Hs1 as [->| ->]; [done|]. apply dense_truncate; [done|]. destruct D; lia. }
  set (d := normalizedIndent level s1) in *.
  inv_bind H as s2 Ha1.
  inv_bind H as st3 Ha2.
  assert (Hd : d <= Arr.len s1) by (unfold d, normalizedIndent; lia).
  assert (L1 : 0 <= Arr.len s1) by (by destruct D1).
  (* the normalized depth is not negative when the step completes *)
  assert (Hd0 : 0 <= d).
  { destruct (Z.le_gt_cases 0 d) as [|Hneg]; [done|]. exfalso.
    assert (Hget : Arr.get d s1 = None).
    { destruct (Arr.get d s1) eqn:E; [|done].
      assert (is_Some (Arr.get d s1)) as X by eauto. apply D1 in X. lia. }
    destruct (id (itemData it)) as [i|] eqn:Eid.
    - rewrite Hget in Ha1.
      rewrite bool_decide_eq_false_2 in Ha1 by done.
      destruct (Z.ltb_spec d (Arr.len s1)); [|lia]. simpl in Ha1.
      apply set_length_Ok in Ha1. lia.
    - destruct (Hwf Eid) as [E|E]; rewrite Hlevel in E; [done|].
      injection E as ->. unfold d, normalizedIndent in Hneg. lia. }
  assert (H2 : (s2 = s1 /\ (d < Arr.len s1 -> frameId (Arr.get d s1) = id (itemData it)))
               \/ (s2 = Arr.truncate d s1 /\ d < Arr.len s1)).
  { destruct (_ && _) eqn:C in Ha1.
    - apply set_length_Ok in Ha1 as [_ ->]. right. split; [done|].
      apply andb_true_iff in C as [C _]. lia.
    - injection Ha1 as <-. left. split; [done|]. intros Hlt.
      apply andb_false_iff in C as [C|C]; [lia|].
      apply negb_false_iff, bool_decide_eq_true in C. done. }
  assert (D2 : Arr.dense s2).
  { destruct H2 as [[-> _]|[-> _]]; [done|]. apply dense_truncate; [done|lia]. }
  assert (L2 : Arr.len s2 = Arr.len s1 \/ Arr.len s2 = d).
  { destruct H2 as [[-> _]|[-> _]]; [by left | by right]. }
  (* the stack handed to appendItem *)
  assert (H3 : Arr.dense (stack st3) /\ Arr.len (stack st3) = d + 1 /\
               (forall j, j < d -> Arr.get j (stack st3) = Arr.get j s1) /\
               exists fr, Arr.get d (stack st3) = Some fr /\
                          (Arr.get d s1 = Some fr \/ exists l, fr = newFrame it l)).
  { destruct (Z.ltb_spec d (Arr.len s2 - 1)) as [Hlt|Hge].
    - inv_bind Ha2 as s3 Hs3. injection Ha2 as <-. simpl.
      apply set_length_Ok in Hs3 as [_ ->].
      assert (s2 = s1) as -> by (destruct H2 as [[-> _]|[-> _]]; [done | simpl in *; lia]).
      split; [apply dense_truncate; [done|lia]|]. split; [done|].
      split; [intros j Hj; rewrite get_truncate; destruct (decide (j < d + 1)); [done|lia]|].
      destruct D1 as [_ D1]. destruct (proj2 (D1 d)) as [fr Hfr]; [lia|].
      exists fr. split; [|by left].
      rewrite get_truncate. destruct (decide (d < d + 1)); [done|lia].
    - apply openList_stack in Ha2. simpl in Ha2.
      destruct Ha2 as [(-> & Hle & [fr Hfr])|[l ->]].
      + split; [done|]. split; [lia|].
        assert (s2 = s1) as ->.
        { destruct H2 as [[-> _]|[-> _]]; [done|].
          rewrite get_truncate in Hfr. destruct (decide (d < d)); [lia|done]. }
        split; [done|]. exists fr. split; [done | by left].
      + split; [apply dense_set; [done|lia]|].
        split; [rewrite len_set; destruct (Z.leb_spec 0 d); lia|].
        split.
        * intros j Hj. rewrite get_set. destruct (decide (j = d)); [lia|].
          destruct H2 as [[-> _]|[-> _]]; [done|].
          rewrite get_truncate. destruct (decide (j < d)); [done|lia].
        * exists (newFrame it l). split; [|right; eauto].
          rewrite get_set. destruct (decide (d = d)); done. }
  destruct H3 as (D3 & L3 & P3 & fr & Hfr & Horigin).
  apply appendItem_stack in H. rewrite Hfr in H. destruct H as [li ->].
  split; [apply dense_set; [done|lia]|].
  exists s1, d. split; [done|]. split; [done|]. split; [lia|].
  split; [rewrite len_set; destruct (Z.leb_spec 0 d); lia|].
  split.
  - intros j Hj. rewrite get_set. destruct (decide (j = d)); [lia|]. by apply P3.
  - exists fr, li. split; [|done]. rewrite get_set. destruct (decide (d = d)); done.
Qed.

Section RunFacts.
Context {R : Type}.
Variable icase : bool.

Lemma rep_loop_calls (m : @matcher R) k :
    calls m ->
    forall fuel lo hi prev s cs (x : R),
      rep_loop m k fuel lo hi prev s cs = Some x -> exists p' s' cs', k p' s' cs' = Some x.
  Proof.
    intros Hm. induction fuel as [|fuel IH]; intros lo hi prev s cs x; simpl; [done|].
    assert (G : match m prev s cs
                  (fun p' s' cs' =>
                     if Nat.eqb lo 0 && Nat.eqb (String.length s') (String.length s)
                     then None
                     else rep_loop m k fuel (Nat.pred lo) (Nat.pred <$> hi) p' s' cs')
                with Some x => Some x
                | None => match lo with O => k prev s cs | S _ => None end
                end = Some x -> exists p' s' cs', k p' s' cs' = Some x).
    { destruct (m prev s cs _) as [y|] eqn:E.
      - intros [= ->]. apply Hm in E as (p' & s' & cs' & E).
        destruct (_ && _); [done|]. by eapply IH.
      - destruct lo; [eauto | done]. }
    destruct hi as [[|n]|]; [eauto | exact G | exact G].
  Qed.

Lemma run_calls r : calls (R := R) (run icase r).
  Proof.
    induction r as [| c | p | r1 IH1 r2 IH2 | r1 IH1 r2 IH2 | lo hi r1 IH | i r1 IH | | ];
      intros prev s cs k x; [simpl..|intros H; eapply rep_loop_calls; [exact IH | exact H]|simpl|simpl|simpl].
    - eauto.
    - destruct s as [|d s']; [done|]. destruct (chr_matches _ _ _); [eauto | done].
    - destruct s as [|d s']; [done|]. destruct (p d); [eauto | done].
    - intros H. apply IH1 in H as (p' & s' & cs' & H). by apply IH2 in H.
    - destruct (run icase r1 prev s cs k) eqn:E.
      + intros [= ->]. by apply IH1 in E.
      + apply IH2.
    - intros H. apply IH in H as (p' & s' & cs' & H). eauto.
    - destruct prev; [done | eauto].
    - destruct (xorb _ _); [eauto | done].
  Qed.
End RunFacts.

(** A successful match of [Seq a (Grp i r)]-shaped expressions records group [i]. *)
Lemma exec_from_inv icase r prev s m cs :
  exec_from icase r prev s = Some (m, cs) ->
  exists prev' s' rest, match_here icase r prev' s' = Some (rest, cs).
Proof.
  revert prev. induction s as [|c s IH]; intros prev; simpl.
  - destruct (match_here icase r prev EmptyString) as [[rest cs']|] eqn:E; [|done].
    intros [= _ <-]. eauto.
  - destruct (match_here icase r prev (String c s)) as [[rest cs']|] eqn:E.
    + intros [= _ <-]. eauto.
    + apply IH.
Qed.

Lemma idRegex_captures s m cs :
  exec true idRegex s = Some (m, cs) -> is_Some (capture 2 cs).
Proof.
  intros H. apply exec_from_inv in H as (prev & s' & rest & H).
  unfold match_here, idRegex in H. simpl seqs in H.
  change (run true (Seq ?a (Seq ?b (Grp 2 ?c))) ?p ?s ?cs ?k)
    with (run true a p s cs (fun p' s' cs' => run true b p' s' cs'
            (fun p2 s2 cs2 => run true c p2 s2 cs2
               (fun p3 s3 cs3 => k p3 s3 ((2%nat, substring0 (String.length s2 - String.length s3) s2) :: cs3))))) in H.
  apply run_calls in H as (? & ? & ? & H).
  apply run_calls in H as (? & ? & ? & H).
  apply run_calls in H as (? & ? & ? & H).
  injection H as _ <-. unfold capture. simpl. eauto.
Qed.

Lemma getListItemData_wf styles :
  id (getListItemData styles) = None ->
  indent (getListItemData styles) = None \/ indent (getListItemData styles) = Some 1.
Proof.
  unfold getListItemData. destruct (styles !! "mso-list") as [listStyle|]; [|by left].
  destruct (exec true idRegex listStyle) as [[m1 c1]|] eqn:E1; [|by right].
  destruct (exec true orderRegex listStyle) as [[m2 c2]|]; [|by right].
  destruct (exec true indentRegex listStyle) as [[m3 c3]|]; [|by right].
  simpl. intros Hnone. apply idRegex_captures in E1 as [v Hv]. congruence.
Qed.

Lemma processItems_Throw css items e :
  fold_left (fun acc it => st' <- acc ;; processItem css st' it) items (Throw e) = Throw e.
Proof. induction items as [|it items IH]; simpl; [done | exact IH]. Qed.

Lemma processItems_cons css it items st :
  processItems css (it :: items) st =
  (st1 <- processItem css st it ;; processItems css items st1).
Proof.
  unfold processItems. simpl. destruct (processItem css st it); simpl; [done|].
  apply processItems_Throw.
Qed.

Lemma processItems_app css pre post st :
  processItems css (pre ++ post) st =
  (st1 <- processItems css pre st ;; processItems css post st1).
Proof.
  revert st. induction pre as [|it pre IH]; intros st; [done|].
  simpl app. rewrite !processItems_cons. destruct (processItem css st it); simpl; [apply IH | done].
Qed.

Lemma processItem_dense css st it st' :
  wf_item it -> Arr.dense (stack st) -> processItem css st it = Ok st' -> Arr.dense (stack st').
Proof.
  intros Hwf D H. destruct (indent (itemData it)) as [level|] eqn:E.
  - by destruct (processItem_stack_step css st it st' level Hwf D E H).
  - unfold processItem in H. rewrite E in H. by injection H as <-.
Qed.

Lemma processItems_dense css items : forall st st',
  Forall wf_item items -> Arr.dense (stack st) ->
  processItems css items st = Ok st' -> Arr.dense (stack st').
Proof.
  induction items as [|it items IH]; intros st st' Hwf D.
  - by intros [= <-].
  - rewrite processItems_cons. intros H. inv_bind H as st1 H1.
    inversion Hwf; subst. eapply IH; [done | | exact H].
    by eapply processItem_dense.
Qed.

Lemma findAllItemLikeElements_wf h doc items :
  findAllItemLikeElements h doc = Ok items -> Forall wf_item items.
Proof.
  unfold findAllItemLikeElements. generalize (querySelectorAll_any h doc). intros l.
  assert (G : forall acc items,
    (forall res, acc = Ok res -> Forall wf_item res) ->
    fold_left (fun acc n => res <- acc ;; keep <- isItemLike h n ;;
                 if keep
                 then Ok (res ++ [{| itemData := getListItemData (styleOf h n); element := n |}])%list
                 else Ok res) l acc = Ok items -> Forall wf_item items).
  { induction l as [|n l IH]; intros acc its Hacc; simpl.
    - intros ->. by apply Hacc.
    - apply IH. intros res. destruct acc as [r|]; simpl; [|done].
      specialize (Hacc r eq_refl). destruct (isItemLike h n) as [[|]|]; simpl; try done.
      + intros [= <-]. apply Forall_app. split; [done|].
        constructor; [|constructor]. unfold wf_item; simpl. apply getListItemData_wf.
      + by intros [= <-]. }
  apply G. intros res [= <-]. constructor.
Qed.

(** C5: the stack discipline of the reconstruction loop.  Take the
    candidates of any document, any point of the loop, and the next
    candidate [it]; if the loop has come that far and the step on [it]
    completes, then the stack is dense before and after the step (every
    position from 0 to its length minus one holds a frame), and the step is a
    [stack_step]: the normalized depth is [min (level - 1) (length)] of the
    stack it works on, so at most that length; the stack only shrinks by
    being cut to a prefix, the frames below the depth stay where they are,
    and the frame at position [depth] is the one that was there or a frame
    opened at exactly that position. *)
Theorem stack_discipline css h doc items pre it post st st' level :
  findAllItemLikeElements h doc = Ok items ->
  items = (pre ++ it :: post)%list ->
  processItems css pre (initialState h) = Ok st ->
  processItem css st it = Ok st' ->
  indent (itemData it) = Some level ->
  Arr.dense (stack st) /\ Arr.dense (stack st') /\ stack_step it level (stack st) (stack st').
Proof.
  intros Hfind -> Hpre Hstep Hlevel.
  apply findAllItemLikeElements_wf in Hfind.
  apply Forall_app in Hfind as [Wpre Wit]. inversion Wit as [|? ? Wi _]; subst.
  assert (D : Arr.dense (stack st)).
  { eapply processItems_dense; [exact Wpre | | exact Hpre]. apply dense_empty. }
  split; [done|]. by eapply processItem_stack_step.
Qed.

Lemma preserves_getAttribute h h' n name :
  preserves h h' -> (n < length h)%nat -> getAttribute h' n name = getAttribute h n name.
Proof.
  intros [_ H] Hn. destruct (H n Hn) as [_ A]. unfold getAttribute.
  destruct (h' !! n) as [a|], (h !! n) as [b|]; simpl in *; try done.
  by injection A as ->.
Qed.

Lemma preserves_tagName h h' n :
  preserves h h' -> (n < length h)%nat -> tagName h' n = tagName h n.
Proof.
  intros [_ H] Hn. destruct (H n Hn) as [K _]. unfold tagName, kindOf. by rewrite K.
Qed.

Lemma links_only_length h h' : links_only h h' -> length h' = length h.
Proof. by intros [? _]. Qed.

Lemma setAttribute_links h n name v :
  length (setAttribute h n name v) = length h /\
  forall m, (nkind <$> setAttribute h n name v !! m) = (nkind <$> h !! m) /\
            (m <> n -> setAttribute h n name v !! m = h !! m).
Proof.
  unfold setAttribute. split; [apply update_length|]. intros m. rewrite update_lookup.
  destruct (decide (m = n)) as [->|]; [|done].
  split; [|done]. by destruct (h !! n).
Qed.

Lemma find_set_assoc name value l k :
  snd <$> List.find (fun kv => str_eqb (fst kv) k) (set_assoc name value l) =
  if decide (k = name) then Some value
  else snd <$> List.find (fun kv => str_eqb (fst kv) k) l.
Proof.
  induction l as [|[a b] l IH]; simpl; unfold str_eqb in *.
  - repeat (case_bool_decide || case_decide); simplify_eq/=; done.
  - repeat (case_bool_decide || case_decide; simpl); simplify_eq/=; done.
Qed.

Lemma getAttribute_setAttribute h n name v m k :
  getAttribute (setAttribute h n name v) m k =
  if decide (m = n /\ k = name /\ is_Some (h !! n)) then Some v else getAttribute h m k.
Proof.
  unfold getAttribute, setAttribute. rewrite update_lookup.
  destruct (decide (m = n)) as [->|Hne].
  - destruct (h !! n) as [nd|] eqn:E; simpl.
    + rewrite find_set_assoc. destruct (decide (k = name)) as [->|].
      * rewrite decide_True; [done|]. split_and!; eauto.
      * rewrite decide_False; [done|]. intros (_ & ? & _). done.
    + rewrite decide_False; [done|]. intros (_ & _ & [? ?]). done.
  - rewrite decide_False; [done|]. intros (? & _). done.
Qed.

Lemma kindOf_setAttribute h n name v m : kindOf (setAttribute h n name v) m = kindOf h m.
Proof. unfold kindOf. by destruct (setAttribute_links h n name v) as [_ H], (H m). Qed.

Lemma length_setAttribute h n name v : length (setAttribute h n name v) = length h.
Proof. apply update_length. Qed.

Lemma setAttribute_preserves h0 h n name v :
  preserves h0 h -> (length h0 <= n)%nat -> preserves h0 (setAttribute h n name v).
Proof.
  intros [L P] Hn. split; [rewrite length_setAttribute; lia|].
  intros m Hm. destruct (P m Hm) as [K A]. 
  destruct (setAttribute_links h n name v) as [_ Hs]. destruct (Hs m) as [K' E'].
  rewrite E' by lia. by rewrite K, A.
Qed.

Lemma createNewEmptyList_spec h ls h1 l :
  createNewEmptyList h ls false = (h1, l) ->
  l = length h /\ length h1 = S (length h) /\ preserves h h1 /\
  kindOf h1 l = Some (Element (toLowerCase (type ls)) true) /\
  getAttribute h1 l "start" = startAttr ls /\
  getAttribute h1 l "class" = None.
Proof.
  unfold createNewEmptyList, createElement.
  set (n0 := Node (Element (toLowerCase (type ls)) true) [] None []).
  set (h0 := (h ++ [n0])%list).
  rewrite andb_false_r.
  assert (E0 : h0 !! length h = Some n0) by (unfold h0; by rewrite list_lookup_middle).
  assert (L0 : length h0 = S (length h)) by (unfold h0; rewrite length_app; simpl; lia).
  assert (P0 : preserves h h0) by apply preserves_app.
  set (h2 := match style ls with Some st => style_setProperty h0 (length h) "list-style-type" st | None => h0 end).
  assert (H2 : length h2 = S (length h) /\ preserves h h2 /\
               kindOf h2 (length h) = Some (Element (toLowerCase (type ls)) true) /\
               getAttribute h2 (length h) "start" = None /\
               getAttribute h2 (length h) "class" = None /\ is_Some (h2 !! length h)).
  { assert (B : length h0 = S (length h) /\ preserves h h0 /\
               kindOf h0 (length h) = Some (Element (toLowerCase (type ls)) true) /\
               getAttribute h0 (length h) "start" = None /\
               getAttribute h0 (length h) "class" = None /\ is_Some (h0 !! length h)).
    { split; [done|]. split; [done|]. unfold kindOf, getAttribute. rewrite E0. simpl. eauto 6. }
    unfold h2. destruct (style ls) as [st|]; [|exact B].
    assert (S0 : getAttribute h0 (length h) "style" = None)
      by (unfold getAttribute; by rewrite E0).
    unfold style_setProperty. rewrite S0.
    rewrite length_setAttribute. split; [done|].
    split; [by apply setAttribute_preserves|].
    rewrite kindOf_setAttribute. split; [apply B|].
    rewrite !getAttribute_setAttribute.
    rewrite !decide_False by (intros (_ & ? & _); done).
    split; [apply B|]. split; [apply B|].
    destruct (setAttribute_links h0 (length h) "style" ("list-style-type" +:+ ": " +:+ st +:+ ";")) as [Ls _].
    apply lookup_lt_is_Some. rewrite Ls. lia. }
  destruct H2 as (L2 & P2 & K2 & S2 & C2 & I2).
  unfold startAttr. destruct (startIndex ls) as [n|].
  - destruct (Z.ltb_spec 1 n) as [Hn|Hn].
    + replace (negb (n =? 0) && (n >? 1)) with true.
      2:{ symmetry. apply andb_true_iff. split; [apply negb_true_iff; lia | lia]. }
      intros [= <- <-]. rewrite length_setAttribute. split; [done|]. split; [done|].
      split; [by apply setAttribute_preserves|].
      rewrite kindOf_setAttribute. split; [done|].
      rewrite !getAttribute_setAttribute.
      rewrite decide_True by done.
      rewrite decide_False by (intros (_ & ? & _); done). done.
    + replace (negb (n =? 0) && (n >? 1)) with false.
      2:{ symmetry. apply andb_false_iff. right. lia. }
      intros [= <- <-]. done.
  - intros [= <- <-]. done.
Qed.

Lemma grows_refl h : grows h h.
Proof.
  split; [apply preserves_refl|]. intros n Hn. unfold getAttribute.
  by rewrite (lookup_ge_None_2 h n).
Qed.

Lemma grows_trans h1 h2 h3 : grows h1 h2 -> grows h2 h3 -> grows h1 h3.
Proof.
  intros [P1 C1] [P2 C2]. split; [by eapply preserves_trans|].
  intros n Hn. destruct (decide (n < length h2)%nat).
  - rewrite (preserves_getAttribute h2 h3) by done. by apply C1.
  - apply C2. lia.
Qed.

Lemma links_only_grows h h' : links_only h h' -> grows h h'.
Proof.
  intros L. split; [by apply links_only_preserves|]. intros n Hn.
  unfold getAttribute. rewrite (lookup_ge_None_2 h' n); [done|].
  rewrite (links_only_length _ _ L). done.
Qed.

Lemma createElement_grows h name h1 l :
  createElement h name = (h1, l) -> l = length h /\ length h1 = S (length h) /\ grows h h1.
Proof.
  unfold createElement. intros [= <- <-]. split; [done|].
  split; [rewrite length_app; simpl; lia|].
  split; [apply preserves_app|]. intros n Hn. unfold getAttribute.
  destruct (decide (n = length h)) as [->|].
  - by rewrite list_lookup_middle.
  - rewrite lookup_ge_None_2; [done|]. rewrite length_app; simpl; lia.
Qed.

Lemma createNewEmptyList_grows h ls h1 l :
  createNewEmptyList h ls false = (h1, l) -> grows h h1.
Proof.
  intros H. apply createNewEmptyList_spec in H as (-> & L & P & _ & _ & C).
  split; [done|]. intros n Hn. destruct (decide (n = length h)) as [->|]; [done|].
  unfold getAttribute. rewrite lookup_ge_None_2; [done|lia].
Qed.

Lemma insertList_links_only h stack d it l h2 :
  insertList h stack d it l = Ok h2 -> links_only h h2.
Proof.
  unfold insertList. destruct (Arr.len stack =? 0).
  - destruct (parentNode h (element it)) as [p|]; [|done].
    destruct (_ =? _); [apply appendChild_links_only | apply insertBefore_links_only].
  - destruct (Arr.get _ _) as [fr|]; [|intros [= <-]; apply links_only_refl].
    destruct (last _); [apply appendChild_links_only | intros [= <-]; apply links_only_refl].
Qed.

Lemma appendItem_spec d it st st' :
  appendItem d it st = Ok st' ->
  grows (heap st) (heap st') /\
  encounteredLists st' = bumped d it (encounteredLists st).
Proof.
  unfold appendItem.
  destruct (if str_eqb _ _ then _ else _) as [h1 li] eqn:E.
  assert (G1 : grows (heap st) h1).
  { destruct (str_eqb _ _); [injection E as <- <-; apply grows_refl|].
    by apply createElement_grows in E as (_ & _ & G). }
  intros H. inv_bind H as ap Hap. inv_bind H as h3 Hh3. inv_bind H as h4 Hh4.
  injection H as <-. simpl. split; [|done].
  eapply grows_trans; [exact G1|].
  assert (G2 : grows h1 ap.1).
  { destruct (Arr.get d (stack st)) as [fr|].
    - inv_bind Hap as h2 Hh2. injection Hap as <-. simpl.
      apply links_only_grows. by eapply appendChild_links_only.
    - injection Hap as <-. apply grows_refl. }
  eapply grows_trans; [exact G2|].
  assert (G3 : grows ap.1 h3).
  { destruct (negb _); [|injection Hh3 as <-; apply grows_refl].
    apply links_only_grows. by eapply appendChild_links_only. }
  eapply grows_trans; [exact G3|].
  apply links_only_grows. by eapply removeMsoListIgnoreSpans_links_only.
Qed.

Lemma processItem_cases css st it st' level :
  indent (itemData it) = Some level ->
  processItem css st it = Ok st' ->
  exists (continues : bool) (st3 : State),
    let s0 := if continues then stack st else Arr.truncate 0 (stack st) in
    let d := normalizedIndent level s0 in
    isListContinuation (heap st) it = Ok continues /\
    prepared css st it s0 d st3 /\
    appendItem d it st3 = Ok st'.
Proof.
  intros Hlevel H. unfold processItem in H. rewrite Hlevel in H.
  inv_bind H as continues Hcont. exists continues.
  inv_bind H as s1 Hs1.
  assert (s1 = if continues then stack st else Arr.truncate 0 (stack st)) as E1.
  { unfold resetStack in Hs1. destruct continues; simpl in Hs1; [congruence|].
    by apply set_length_Ok in Hs1 as [_ ->]. }
  rewrite <- E1. clear E1 Hs1.
  set (d := normalizedIndent level s1) in *.
  inv_bind H as s2 Hs2. inv_bind H as st3 Hst3.
  exists st3. simpl. split; [done|]. split; [|done].
  assert (H2 : s2 = s1 \/ s2 = Arr.truncate d s1 /\ 0 <= d).
  { destruct (_ && _) in Hs2; [|injection Hs2 as <-; by left].
    apply set_length_Ok in Hs2 as [? ->]. by right. }
  destruct (Z.ltb_spec d (Arr.len s2 - 1)) as [Hlt|Hge].
  - inv_bind Hst3 as s3 Hs3. injection Hst3 as <-.
    apply set_length_Ok in Hs3 as [? ->].
    assert (s2 = s1) as -> by (destruct H2 as [->| [-> _]]; [done | simpl in *; lia]).
    constructor; [by right | lia].
  - unfold openList in Hst3. inv_bind Hst3 as ls Hls.
    unfold withStack in Hst3, Hls. cbn [heap stack encounteredLists] in Hst3, Hls.
    destruct (_ || _) eqn:C.
    + destruct (createNewEmptyList _ _ _) as [h1 l] eqn:E.
      inv_bind Hst3 as h2 Hh2. injection Hst3 as <-.
      pose proof (createNewEmptyList_spec _ _ _ _ E) as [-> _].
      apply insertList_links_only in Hh2.
      by eapply (prepared_opened css st it s1 d s2 ls h1 h2).
    + injection Hst3 as <-. apply orb_false_elim in C as [C1 C2].
      assert (s2 = s1) as ->.
      { destruct H2 as [->| [-> _]]; [done|]. cbn [Arr.len Arr.truncate] in C1. lia. }
      constructor; [by left | lia].
Qed.

Lemma append_nil (b : string) : EmptyString +:+ b = b.
Proof. done. Qed.
Lemma append_cons c (a b : string) : String c a +:+ b = String c (a +:+ b).
Proof. done. Qed.
Lemma append_assoc_s (a b c : string) : (a +:+ b) +:+ c = a +:+ (b +:+ c).
Proof. induction a as [|x a IH]; [done|]. rewrite !append_cons. by f_equal. Qed.







Lemma grows_length h h' : grows h h' -> (length h <= length h')%nat.
Proof. by intros [[? _] _]. Qed.










Lemma resume_counter it enc ls c :
  is_Some (id (itemData it)) -> type ls = "ol" ->
  enc !! originalListId it = Some (Num c) -> c <> 0 ->
  startIndex (resumeNumbering 0 it enc ls) = Some c.
Proof.
  intros Hid Hty Hc Hne. unfold resumeNumbering. rewrite Hc, Hty.
  rewrite bool_decide_eq_true_2 by done.
  destruct (Z.eqb_spec c 0); [done|]. done.
Qed.

Lemma resume_first it enc ls d :
  enc !! originalListId it = None -> resumeNumbering d it enc ls = ls.
Proof. intros H. unfold resumeNumbering. by rewrite H. Qed.

Lemma resume_type d it enc ls : type (resumeNumbering d it enc ls) = type ls.
Proof.
  unfold resumeNumbering. destruct (enc !! originalListId it) as [[n|]|]; try done.
  by destruct ((d =? 0) && str_eqb (type ls) "ol"
               && bool_decide (is_Some (id (itemData it))) && negb (n =? 0)).
Qed.







Lemma interrupted_depth (st : State) level :
  1 <= level -> normalizedIndent level (Arr.truncate 0 (stack st)) = 0.
Proof. intros L. unfold normalizedIndent. simpl. lia. Qed.

(** C2, as amended: the running counter wins.  When an item of a numbered
    list follows an interruption (its previous sibling is not a list), the
    step opens a new [ol] at depth 0; if the counter of its
    [listId:indentLevel] key holds a number [c] other than 0, the start
    index of the container is [c], whether or not the style sheet sets a
    start index of its own ([ls] is arbitrary here); the start index of the
    style sheet is used only when no counter is recorded for the key. *)
Theorem reopened_list_takes_counter css st it st' ls level :
  indent (itemData it) = Some level -> 1 <= level ->
  is_Some (id (itemData it)) ->
  isListContinuation (heap st) it = Ok false ->
  detectListStyle (heap st) it css = Ok ls -> type ls = "ol" ->
  processItem css st it = Ok st' ->
  opens st st' it /\
  tagName (heap st') (length (heap st)) = Some "OL" /\
  (forall c, encounteredLists st !! originalListId it = Some (Num c) -> c <> 0 ->
     getAttribute (heap st') (length (heap st)) "start"
       = if 1 <? c then Some (toString c) else None) /\
  (encounteredLists st !! originalListId it = None ->
     getAttribute (heap st') (length (heap st)) "start" = startAttr ls).
Proof.
  intros Hlv Hpos Hid Hcont Hls Hty H.
  destruct (processItem_cases _ _ _ _ _ Hlv H) as (c & st3 & Hc & P & A).
  assert (c = false) as -> by congruence. simpl in P, A.
  rewrite interrupted_depth in P, A by done.
  pose proof (appendItem_spec _ _ _ _ A) as [[G _] _].
  pose proof (appendItem_stack _ _ _ _ A) as Hst.
  inversion P as [s3 Hs3 Hd E3|s2 ls0 h1 h2 Hs2 Hls0 Hcr Hl E3]; subst st3.
  { simpl in Hd. lia. }
  assert (ls0 = ls) as -> by congruence.
  cbn [heap stack encounteredLists] in *.
  rewrite get_set in Hst. destruct (decide (0 = 0)); [|done]. destruct Hst as [li Hst].
  set (ls' := resumeNumbering 0 it (encounteredLists st) ls) in *.
  pose proof (createNewEmptyList_spec _ _ _ _ Hcr) as (_ & L1 & _ & K1 & S1 & _).
  assert (Hlt : (length (heap st) < length h2)%nat).
  { rewrite (links_only_length _ _ Hl). lia. }
  assert (Hattr : getAttribute (heap st') (length (heap st)) "start" = startAttr ls').
  { rewrite (preserves_getAttribute _ _ _ _ G) by done.
    by rewrite (links_only_getAttribute _ _ _ _ Hl). }
  split.
  { exists li. rewrite Hst, get_set. by destruct (decide (0 = 0)). }
  split.
  { rewrite (preserves_tagName _ _ _ G) by done.
    unfold tagName. rewrite (links_only_kindOf _ _ _ Hl), K1.
    unfold ls'. by rewrite resume_type, Hty. }
  split.
  - intros n Hn Hne. rewrite Hattr. unfold startAttr, ls'.
    by rewrite (resume_counter it _ ls n Hid Hty Hn Hne).
  - intros Hnone. rewrite Hattr. unfold ls'. by rewrite resume_first.
Qed.


Lemma append_nil_r (a : string) : a +:+ EmptyString = a.
Proof. induction a as [|c a IH]; [done|]. rewrite append_cons. by f_equal. Qed.

Lemma nospace_app a b : nospace (a +:+ b) = nospace a && nospace b.
Proof.
  induction a as [|c a IH]; [done|]. rewrite append_cons. unfold nospace in *. simpl.
  rewrite IH. by rewrite andb_assoc.
Qed.

Lemma tokens_aux_tokens s : forall cur, nospace cur = true -> Forall isToken (tokens_aux cur s).
Proof.
  induction s as [|c s IH]; intros cur Hcur; simpl.
  - destruct cur; [constructor|]. constructor; [|constructor]. split; done.
  - destruct (isAsciiSpace c) eqn:E.
    + destruct cur; simpl; [by apply IH|].
      constructor; [split; done|]. by apply IH.
    + apply IH. rewrite nospace_app, Hcur. unfold nospace. simpl. by rewrite E.
Qed.

Lemma tokens_aux_app t : forall cur s,
  nospace t = true -> tokens_aux cur (t +:+ s) = tokens_aux (cur +:+ t) s.
Proof.
  induction t as [|c t IH]; intros cur s Ht.
  - by rewrite append_nil, append_nil_r.
  - unfold nospace in Ht. simpl in Ht. apply andb_true_iff in Ht as [Hc Ht].
    rewrite append_cons. simpl. apply negb_true_iff in Hc. rewrite Hc.
    rewrite IH by done. f_equal. rewrite append_assoc_s. by rewrite append_cons, append_nil.
Qed.

Lemma tokens_join l : Forall isToken l -> tokens_aux EmptyString (join " " l) = l.
Proof.
  induction l as [|x l IH]; intros Hl; [done|].
  inversion Hl as [|? ? [Hx Hne] Hl']; subst.
  destruct l as [|y l].
  - simpl. rewrite <- (append_nil_r x) at 1. rewrite tokens_aux_app by done.
    rewrite append_nil. simpl. by destruct x.
  - change (join " " (x :: y :: l)) with (x +:+ " " +:+ join " " (y :: l)).
    rewrite tokens_aux_app by done. rewrite append_nil, append_cons, append_nil.
    simpl. destruct x; [done|]. simpl. f_equal. by apply IH.
Qed.

Lemma dedup_In x l : In x (dedup l) <-> In x l.
Proof.
  induction l as [|y l IH]; simpl; [done|].
  rewrite filter_In, IH. unfold str_eqb. split.
  - intros [->|[H _]]; auto.
  - intros [->|H]; [by left|]. destruct (decide (x = y)) as [->|]; [by left|].
    right. split; [done|]. by rewrite bool_decide_eq_false_2.
Qed.

Lemma dedup_NoDup l : List.NoDup (dedup l).
Proof.
  induction l as [|y l IH]; simpl; constructor.
  - rewrite filter_In. unfold str_eqb. intros [_ H]. by rewrite bool_decide_eq_true_2 in H.
  - by apply List.NoDup_filter.
Qed.

Lemma dedup_id l : List.NoDup l -> dedup l = l.
Proof.
  induction l as [|y l IH]; intros H; [done|]. inversion H as [|? ? Hy Hl]; subst.
  simpl. f_equal. rewrite IH by done.
  apply forallb_filter_id. apply forallb_forall. intros x Hx. unfold str_eqb.
  apply negb_true_iff, bool_decide_eq_false. intros ->. done.
Qed.

Lemma dedup_Forall P l : Forall P l -> Forall P (dedup l).
Proof.
  intros H. apply Forall_forall. intros x Hx.
  rewrite list_elem_of_In, dedup_In, <- list_elem_of_In in Hx.
  rewrite Forall_forall in H. by apply H.
Qed.

Lemma classList_tokens h n : Forall isToken (classList h n) /\ List.NoDup (classList h n).
Proof.
  unfold classList. destruct (getAttribute h n "class"); [|split; constructor].
  split; [|apply dedup_NoDup]. apply dedup_Forall. by apply tokens_aux_tokens.
Qed.

Lemma getAttribute_Some_node h n k v : getAttribute h n k = Some v -> is_Some (h !! n).
Proof. unfold getAttribute. destruct (h !! n); [eauto | done]. Qed.

Lemma classList_no_node h n : h !! n = None -> classList h n = [].
Proof. intros H. unfold classList, getAttribute. by rewrite H. Qed.

(** [classList] after [set_classList], for a list of distinct tokens. *)
Lemma classList_set h n l m :
  Forall isToken l -> List.NoDup l -> (h !! n = None -> l = []) ->
  classList (set_classList h n l) m = if decide (m = n) then l else classList h m.
Proof.
  intros Htok Hnd Hnone. unfold set_classList.
  destruct (getAttribute h n "class") as [v|] eqn:E.
  - unfold classList. rewrite getAttribute_setAttribute.
    destruct (decide (m = n)) as [->|Hne].
    + rewrite decide_True by (split_and!; eauto using getAttribute_Some_node).
      rewrite tokens_join by done. by apply dedup_id.
    + rewrite decide_False by (intros (? & _); done). done.
  - destruct l as [|x l].
    + destruct (decide (m = n)) as [->|]; [|done]. unfold classList. by rewrite E.
    + unfold classList. rewrite getAttribute_setAttribute.
      destruct (decide (m = n)) as [->|Hne].
      * destruct (h !! n) as [nd|] eqn:En; [|by specialize (Hnone eq_refl)].
        rewrite decide_True by (split_and!; eauto).
        rewrite tokens_join by done. by apply dedup_id.
      * rewrite decide_False by (intros (? & _); done). done.
Qed.

Lemma classList_remove_spec h n t m :
  classList (classList_remove h n t) m =
  if decide (m = n) then List.filter (fun y => negb (str_eqb y t)) (classList h n)
  else classList h m.
Proof.
  unfold classList_remove. destruct (classList_tokens h n) as [Htok Hnd].
  apply classList_set.
  - apply Forall_forall. intros x Hx. apply list_elem_of_In, filter_In in Hx as [Hx _].
    rewrite Forall_forall in Htok. by apply Htok, list_elem_of_In.
  - by apply List.NoDup_filter.
  - intros Hn. by rewrite classList_no_node.
Qed.

Lemma class_only_refl h : class_only h h.
Proof. split; [done|]. intros n. done. Qed.

Lemma class_only_trans h1 h2 h3 : class_only h1 h2 -> class_only h2 h3 -> class_only h1 h3.
Proof.
  intros [L1 H1] [L2 H2]. split; [congruence|]. intros n.
  destruct (H1 n) as (A & B & C), (H2 n) as (A' & B' & C').
  split; [congruence|]. split; [congruence|]. intros k Hk. rewrite C', C; done.
Qed.

Lemma kids_setAttribute h n name v m : kids (setAttribute h n name v) m = kids h m.
Proof.
  unfold kids, setAttribute. rewrite update_lookup.
  destruct (decide (m = n)) as [->|]; [|done]. by destruct (h !! n).
Qed.

Lemma setAttribute_class_only h n v : class_only h (setAttribute h n "class" v).
Proof.
  split; [apply length_setAttribute|]. intros m.
  split; [apply kindOf_setAttribute|]. split; [apply kids_setAttribute|].
  intros k Hk. rewrite getAttribute_setAttribute.
  rewrite decide_False; [done|]. intros (_ & ? & _). done.
Qed.

Lemma classList_remove_class_only h n t : class_only h (classList_remove h n t).
Proof.
  unfold classList_remove, set_classList.
  destruct (getAttribute h n "class"); [apply setAttribute_class_only|].
  destruct (List.filter _ _); [apply class_only_refl | apply setAttribute_class_only].
Qed.

Lemma removeMsoClasses_from_spec item fuel : forall h i,
  let h' := removeMsoClasses_from fuel h item i in
  class_only h h' /\
  (forall m, m <> item -> classList h' m = classList h m) /\
  (forall c, In c (classList h' item) -> In c (classList h item)) /\
  (forall c, In c (classList h item) -> test true msoRegex c = false ->
             In c (classList h' item)).
Proof.
  induction fuel as [|fuel IH]; intros h i; simpl.
  - split; [apply class_only_refl|]. done.
  - destruct (classList h item !! i) as [cn|] eqn:E; [|split; [apply class_only_refl | done]].
    destruct (test true msoRegex cn) eqn:T; [|apply IH].
    specialize (IH (classList_remove h item cn) (S i)). simpl in IH.
    destruct IH as (C & O & Sub & Keep).
    split; [eapply class_only_trans; [apply classList_remove_class_only | exact C]|].
    split.
    { intros m Hm. rewrite O by done. rewrite classList_remove_spec.
      by rewrite decide_False. }
    split.
    { intros c Hc. apply Sub in Hc. rewrite classList_remove_spec in Hc.
      rewrite decide_True in Hc by done. by apply filter_In in Hc as [? _]. }
    intros c Hc Hno. apply Keep; [|done]. rewrite classList_remove_spec.
    rewrite decide_True by done. apply filter_In. split; [done|].
    unfold str_eqb. apply negb_true_iff, bool_decide_eq_false. intros ->. congruence.
Qed.

Lemma prepared_grows css st it s0 d st3 :
  prepared css st it s0 d st3 -> grows (heap st) (heap st3).
Proof.
  intros [s3 _ _|s2 ls h1 h2 _ _ Hcr Hl]; cbn [heap withStack]; [apply grows_refl|].
  eapply grows_trans; [by eapply createNewEmptyList_grows | by apply links_only_grows].
Qed.

Lemma processItem_grows css st it st' :
  processItem css st it = Ok st' -> grows (heap st) (heap st').
Proof.
  intros H. destruct (indent (itemData it)) as [level|] eqn:E.
  - destruct (processItem_cases _ _ _ _ _ E H) as (c & st3 & _ & P & A).
    eapply grows_trans; [by eapply prepared_grows|]. by apply appendItem_spec in A as [? _].
  - unfold processItem in H. rewrite E in H. injection H as <-. apply grows_refl.
Qed.

Lemma processItems_grows css items : forall st st',
  processItems css items st = Ok st' -> grows (heap st) (heap st').
Proof.
  induction items as [|it items IH]; intros st st'.
  - intros [= <-]. apply grows_refl.
  - rewrite processItems_cons. intros H. inv_bind H as st1 H1.
    eapply grows_trans; [by eapply processItem_grows | by apply IH].
Qed.

Lemma transform_grows h doc css h' :
  transformListItemLikeLElementsIntoLists h doc css = Ok h' -> grows h h'.
Proof.
  unfold transformListItemLikeLElementsIntoLists. intros H. inv_bind H as items Hit.
  destruct items as [|it items]; [injection H as <-; apply grows_refl|].
  inv_bind H as st Hst. injection H as <-.
  by apply processItems_grows in Hst.
Qed.

Lemma grows_classList h h' n c :
  grows h h' -> In c (classList h' n) -> In c (classList h n).
Proof.
  intros [P C]. unfold classList. destruct (decide (n < length h)%nat).
  - by rewrite (preserves_getAttribute _ _ _ _ P).
  - rewrite C by lia. done.
Qed.

Lemma classList_setAttribute_other h n k v m :
  k <> "class" -> classList (setAttribute h n k v) m = classList h m.
Proof.
  intros Hk. unfold classList. rewrite getAttribute_setAttribute.
  rewrite decide_False; [done|]. intros (_ & ? & _). done.
Qed.

Lemma cleanItem_classes h u item h2 u2 :
  cleanItem (h, u) item = (h2, u2) ->
  forall n c, In c (classList h2 n) -> In c (classList h n).
Proof.
  unfold cleanItem. intros [= <- _] n c.
  assert (G : In c (classList (removeMsoClasses h item) n) -> In c (classList h n)).
  { unfold removeMsoClasses.
    destruct (removeMsoClasses_from_spec item (length (classList h item)) h 0) as (_ & O & S & _).
    destruct (decide (n = item)) as [->|Hne]; [apply S|]. by rewrite O. }
  destruct (isHTMLElement _ _); [|exact G].
  unfold removeMSOStyles. by rewrite classList_setAttribute_other.
Qed.

Lemma cleanItems_classes items : forall h u h2 u2,
  fold_left cleanItem items (h, u) = (h2, u2) ->
  forall n c, In c (classList h2 n) -> In c (classList h n).
Proof.
  induction items as [|x items IH]; intros h u h2 u2; cbn [fold_left].
  - by intros [= <- _].
  - destruct (cleanItem (h, u) x) as [h1 u1] eqn:E. intros H n c Hc.
    eapply cleanItem_classes; [exact E|]. by eapply IH.
Qed.

Lemma unwrap_links_only items : forall h h',
  fold_left (fun acc item => h' <- acc ;;
               match parentNode h' item with
               | Some itemParent => removeChild h' itemParent item
               | None => Throw (TypeError "Cannot read properties of null (reading 'removeChild')")
               end) items (Ok h) = Ok h' -> links_only h h'.
Proof.
  induction items as [|x items IH]; intros h h'; simpl.
  - intros [= <-]. apply links_only_refl.
  - destruct (parentNode h x) as [p|]; simpl.
    + destruct (removeChild h p x) as [h1|e] eqn:E.
      * intros H. eapply links_only_trans; [by eapply removeChild_links_only | by apply IH].
      * intros H. exfalso. clear -H. induction items; simpl in *; [done | auto].
    + intros H. exfalso. clear -H. induction items; simpl in *; [done | auto].
Qed.

Lemma links_only_classList h h' n : links_only h h' -> classList h' n = classList h n.
Proof. intros L. unfold classList. by rewrite (links_only_getAttribute _ _ _ _ L). Qed.

Lemma removeMSAttributes_classes h doc h' :
  removeMSAttributes h doc = Ok h' ->
  forall n c, In c (classList h' n) -> In c (classList h n).
Proof.
  unfold removeMSAttributes.
  destruct (fold_left cleanItem _ _) as [h1 u] eqn:E. intros H n c Hc.
  apply unwrap_links_only in H. rewrite (links_only_classList _ _ _ H) in Hc.
  by eapply cleanItems_classes.
Qed.

(** C10, as amended: [normalize] never attaches the class [legal-list].
    An element that carries the class after [normalizeDocument] is a node of
    the parsed input and carried it there already: the list containers and
    list items that the reconstruction creates have no class. *)
Theorem legal_list_class_never_added h doc css h' :
  normalizeDocument h doc css = Ok h' ->
  forall n, In "legal-list" (classList h' n) ->
            (n < length h)%nat /\ In "legal-list" (classList h n).
Proof.
  unfold normalizeDocument. intros H. inv_bind H as h1 H1. intros n Hn.
  apply (removeMSAttributes_classes _ _ _ H) in Hn.
  apply (grows_classList _ _ _ _ (transform_grows _ _ _ _ H1)) in Hn.
  split; [|done]. destruct (decide (n < length h)%nat); [done|].
  rewrite classList_no_node in Hn; [done|]. apply lookup_ge_None_2. lia.
Qed.

#[local] Arguments chr_matches : simpl never.

Lemma m_is_word a : chr_matches true "m" a = true -> isWordChar a = true.
Proof. destruct a as [[] [] [] [] [] [] [] []]; vm_compute; done. Qed.

Lemma match_here_mso prev s :
  match_here true msoRegex prev s =
  if msoHere prev s then Some (match s with String _ (String _ (String _ r)) => r | _ => s end, [])
  else None.
Proof.
  unfold match_here, msoRegex, msoHere, startsMso. simpl.
  destruct s as [|a s]; simpl.
  { rewrite andb_false_r. destruct (is_word prev); reflexivity. }
  destruct (chr_matches true "m" a) eqn:Ea.
  - rewrite (m_is_word a Ea). rewrite xorb_true_r.
    destruct (negb (is_word prev)); [|done]. simpl.
    destruct s as [|b s]; [done|]. destruct (chr_matches true "s" b); [|by destruct s].
    destruct s as [|c s]; [done|]. by destruct (chr_matches true "o" c).
  - destruct (is_word prev), (isWordChar a), s as [|? [|? ?]]; reflexivity.
Qed.

Lemma exec_from_mso s : forall prev,
  is_Some (exec_from true msoRegex prev s) <-> msoFrom prev s = true.
Proof.
  induction s as [|c s IH]; intros prev; simpl; rewrite match_here_mso.
  - destruct (msoHere prev EmptyString); simpl; [split; eauto | split; [intros [? ?]; done | done]].
  - destruct (msoHere prev (String c s)); simpl; [split; eauto | apply IH].
Qed.

Lemma test_mso s : test true msoRegex s = msoFrom None s.
Proof.
  unfold test, exec. pose proof (exec_from_mso s None) as H.
  destruct (exec_from true msoRegex None s) as [x|].
  - symmetry. apply H. eauto.
  - destruct (msoFrom None s); [|done]. destruct (proj2 H eq_refl). done.
Qed.

Lemma msoFrom_prev p1 p2 s : is_word p1 = is_word p2 -> msoFrom p1 s = msoFrom p2 s.
Proof. intros H. destruct s; simpl; unfold msoHere; by rewrite H. Qed.

Lemma lower_word a : isWordChar (lower a) = isWordChar a.
Proof. destruct a as [[] [] [] [] [] [] [] []]; vm_compute; done. Qed.

Lemma lower_matches x a :
  (x = "m" \/ x = "s" \/ x = "o")%char -> chr_matches true x (lower a) = chr_matches true x a.
Proof.
  intros [->|[->| ->]]; destruct a as [[] [] [] [] [] [] [] []]; vm_compute; done.
Qed.

Lemma startsMso_lower s : startsMso (toLowerCase s) = startsMso s.
Proof.
  destruct s as [|a [|b [|c s]]]; try done. simpl.
  rewrite !lower_matches by auto. done.
Qed.

Lemma msoFrom_lower s : forall prev,
  msoFrom (lower <$> prev) (toLowerCase s) = msoFrom prev s.
Proof.
  induction s as [|c s IH]; intros prev.
  - simpl. unfold msoHere, startsMso. by rewrite !andb_false_r.
  - change (toLowerCase (String c s)) with (String (lower c) (toLowerCase s)).
    pose proof (IH (Some c)) as IHc. simpl in IHc.
    simpl. rewrite IHc. f_equal. unfold msoHere.
    change (String (lower c) (toLowerCase s)) with (toLowerCase (String c s)).
    rewrite startsMso_lower. f_equal. f_equal.
    destruct prev as [a|]; [|done]. simpl. apply lower_word.
Qed.

Lemma hasMso_msoFrom p : hasMso p = msoFrom None p.
Proof. unfold hasMso. rewrite test_mso. apply (msoFrom_lower p None). Qed.

Lemma space_not_word c : isSpace c = true -> isWordChar c = false.
Proof. destruct c as [[] [] [] [] [] [] [] []]; vm_compute; done. Qed.

Lemma space_not_mso x c :
  (x = "m" \/ x = "s" \/ x = "o")%char -> isSpace c = true -> chr_matches true x c = false.
Proof.
  intros [->|[->| ->]]; destruct c as [[] [] [] [] [] [] [] []]; vm_compute; done.
Qed.

Lemma startsMso_space c s : isSpace c = true -> startsMso (String c s) = false.
Proof.
  intros Hc. destruct s as [|b [|c' s]]; simpl; try done.
  by rewrite (space_not_mso "m" c) by auto.
Qed.

Lemma msoHere_space prev c s : isSpace c = true -> msoHere prev (String c s) = false.
Proof. intros Hc. unfold msoHere. rewrite startsMso_space by done. apply andb_false_r. Qed.

Lemma msoFrom_trimStart s : forall prev,
  is_word prev = false -> msoFrom prev (trimStart s) = msoFrom prev s.
Proof.
  induction s as [|c s IH]; intros prev Hp; [done|].
  simpl trimStart. destruct (isSpace c) eqn:E; [|done].
  rewrite (IH prev Hp). cbn [msoFrom]. rewrite msoHere_space by done. simpl.
  apply msoFrom_prev. simpl. rewrite Hp. symmetry. by apply space_not_word.
Qed.

Lemma msoFrom_spaces_only s : forall prev,
  trimEnd s = EmptyString -> msoFrom prev s = false.
Proof.
  induction s as [|c s IH]; intros prev.
  - intros _. simpl. unfold msoHere, startsMso. by rewrite !andb_false_r.
  - simpl. destruct (isSpace c) eqn:E; [|done].
    destruct (trimEnd s) eqn:T; [|done]. intros _.
    rewrite (IH (Some c) eq_refl). by rewrite msoHere_space.
Qed.

Lemma trimEnd_cons c s :
  trimEnd (String c s) = EmptyString /\ isSpace c = true /\ trimEnd s = EmptyString
  \/ trimEnd (String c s) = String c (trimEnd s).
Proof.
  simpl. destruct (isSpace c); simpl; [|by right].
  destruct (trimEnd s); simpl; [left; done | by right].
Qed.

Lemma startsMso_trimEnd s : startsMso (trimEnd s) = startsMso s.
Proof.
  destruct s as [|a s]; [done|].
  destruct (trimEnd_cons a s) as [(-> & Ha & _)| ->]; [by rewrite startsMso_space|].
  destruct s as [|b s]; [done|].
  destruct (trimEnd_cons b s) as [(-> & Hb & _)| ->].
  { destruct s as [|c s]; simpl; [done|].
    rewrite (space_not_mso "s" b) by auto. by rewrite andb_false_r. }
  destruct s as [|c s]; [done|].
  destruct (trimEnd_cons c s) as [(-> & Hc & _)| ->]; [|done].
  simpl. rewrite (space_not_mso "o" c) by auto. by rewrite andb_false_r.
Qed.

Lemma msoFrom_trimEnd s : forall prev, msoFrom prev (trimEnd s) = msoFrom prev s.
Proof.
  induction s as [|c s IH]; intros prev; [done|].
  destruct (trimEnd_cons c s) as [(E & Hc & T)|E].
  - rewrite E. rewrite (msoFrom_spaces_only (String c s) prev E).
    simpl. unfold msoHere, startsMso. by rewrite andb_false_r.
  - rewrite E. cbn [msoFrom]. rewrite (IH (Some c)). f_equal.
    unfold msoHere. f_equal. rewrite <- E. apply startsMso_trimEnd.
Qed.

Lemma hasMso_trim k : hasMso (trim k) = hasMso k.
Proof.
  rewrite !hasMso_msoFrom. unfold trim. rewrite msoFrom_trimEnd.
  by apply msoFrom_trimStart.
Qed.

Lemma trimEnd_idem s : trimEnd (trimEnd s) = trimEnd s.
Proof.
  induction s as [|c s IH]; [done|].
  destruct (trimEnd_cons c s) as [(-> & _)|E]; [done|].
  rewrite E. destruct (trimEnd_cons c (trimEnd s)) as [(E' & Hc & T)|E'].
  - rewrite IH in T. simpl in E. rewrite Hc, T in E. done.
  - rewrite E'. by rewrite IH.
Qed.

Lemma trimStart_head s : trimStart s = EmptyString \/ exists c r, trimStart s = String c r /\ isSpace c = false.
Proof.
  induction s as [|c s IH]; [by left|]. simpl. destruct (isSpace c) eqn:E; [done|].
  right. eauto.
Qed.

Lemma trimStart_nonspace c r : isSpace c = false -> trimStart (String c r) = String c r.
Proof. intros H. simpl. by rewrite H. Qed.

Lemma trim_idem s : trim (trim s) = trim s.
Proof.
  unfold trim. destruct (trimStart_head s) as [->|(c & r & -> & Hc)]; [done|].
  destruct (trimEnd_cons c r) as [(_ & Hc' & _)|E]; [congruence|].
  rewrite E, trimStart_nonspace by done. rewrite <- E. apply trimEnd_idem.
Qed.

Lemma noChar_trimStart sep s : noChar sep s = true -> noChar sep (trimStart s) = true.
Proof.
  unfold noChar. induction s as [|c s IH]; [done|]. simpl. intros H.
  apply andb_true_iff in H as [Hc Hs]. destruct (isSpace c); [by apply IH|].
  simpl. by rewrite Hc, Hs.
Qed.

Lemma noChar_trimEnd sep s : noChar sep s = true -> noChar sep (trimEnd s) = true.
Proof.
  unfold noChar. induction s as [|c s IH]; [done|]. intros H. simpl in H.
  apply andb_true_iff in H as [Hc Hs].
  destruct (trimEnd_cons c s) as [(-> & _)| ->]; [done|]. simpl. by rewrite Hc, IH.
Qed.

Lemma noChar_trim sep s : noChar sep s = true -> noChar sep (trim s) = true.
Proof. intros H. by apply noChar_trimEnd, noChar_trimStart. Qed.

Lemma splitOn_nonempty sep s : splitOn sep s <> [].
Proof. destruct s as [|c s]; simpl; [done|]. case_bool_decide; [done|]. by destruct (splitOn sep s). Qed.

Lemma splitOn_noChar sep s : Forall (fun p => noChar sep p = true) (splitOn sep s).
Proof.
  induction s as [|c s IH]; simpl; [by constructor|].
  case_bool_decide as Hc; [by constructor|].
  destruct (splitOn sep s) as [|p ps]; [constructor; [|done]|].
  - unfold noChar. simpl. by rewrite bool_decide_eq_false_2.
  - inversion IH; subst. constructor; [|done].
    unfold noChar in *. simpl. by rewrite bool_decide_eq_false_2.
Qed.

Lemma splitOn_piece sep x : noChar sep x = true -> splitOn sep x = [x].
Proof.
  unfold noChar. induction x as [|c x IH]; [done|]. simpl. intros H.
  apply andb_true_iff in H as [Hc Hx]. apply negb_true_iff in Hc. rewrite Hc.
  by rewrite IH.
Qed.

Lemma splitOn_app sep x rest :
  noChar sep x = true -> splitOn sep (x +:+ String sep rest) = x :: splitOn sep rest.
Proof.
  unfold noChar. induction x as [|c x IH]; intros H.
  - rewrite append_nil. simpl. by rewrite bool_decide_eq_true_2.
  - simpl in H. apply andb_true_iff in H as [Hc Hx]. apply negb_true_iff in Hc.
    rewrite append_cons. simpl. rewrite Hc. by rewrite IH.
Qed.

Lemma splitOn_join sep l :
  l <> [] -> Forall (fun p => noChar sep p = true) l ->
  splitOn sep (join (String sep EmptyString) l) = l.
Proof.
  induction l as [|x l IH]; [done|]. intros _ H. inversion H as [|? ? Hx Hl]; subst.
  destruct l as [|y l].
  - simpl. by apply splitOn_piece.
  - change (join (String sep EmptyString) (x :: y :: l))
      with (x +:+ String sep EmptyString +:+ join (String sep EmptyString) (y :: l)).
    rewrite append_cons, append_nil. rewrite splitOn_app by done. f_equal. by apply IH.
Qed.

Lemma keyOf_head d : exists rest, splitOn ":" d = keyOf d :: rest.
Proof.
  unfold keyOf. destruct (splitOn ":" d) as [|k rest] eqn:E; [|eauto].
  by destruct (splitOn_nonempty ":" d).
Qed.

(** A declaration either adds nothing, or enters its property with a value
    that does not depend on the object. *)
Lemma addDeclaration_shape d :
  (forall m, addDeclaration m d = m) \/
  (exists v, forall m, addDeclaration m d = <[propOf d := v]> m).
Proof.
  unfold addDeclaration, propOf. destruct (keyOf_head d) as [rest ->]. simpl.
  destruct rest as [|v rest]; simpl; [by left|].
  destruct (negb (is_empty (trim (keyOf d))) && negb (is_empty (trim v))); [|by left].
  destruct (str_eqb (trim (keyOf d)) "__proto__"); [by left|].
  right. by exists (trim v).
Qed.

Lemma keepsProperty_hasMso d : keepsProperty d = negb (hasMso (propOf d)).
Proof. unfold keepsProperty, propOf. by rewrite hasMso_trim. Qed.

Lemma fold_filtered D : forall mF mD,
  filtered mF mD ->
  filtered (fold_left addDeclaration (List.filter keepsProperty D) mF)
           (fold_left addDeclaration D mD).
Proof.
  induction D as [|d D IH]; intros mF mD Hrel; [done|].
  simpl. destruct (keepsProperty d) eqn:K; simpl; apply IH; intros p;
    rewrite keepsProperty_hasMso in K.
  - destruct (addDeclaration_shape d) as [Hs|[v Hs]]; rewrite !Hs; [done|].
    destruct (decide (p = propOf d)) as [->|Hne].
    + rewrite !lookup_insert_eq. apply negb_true_iff in K. by rewrite K.
    + rewrite !lookup_insert_ne by done. apply Hrel.
  - destruct (addDeclaration_shape d) as [Hs|[v Hs]]; rewrite !Hs; [done|].
    destruct (decide (p = propOf d)) as [->|Hne].
    + rewrite lookup_insert_eq. apply negb_false_iff in K. rewrite K.
      specialize (Hrel (propOf d)). by rewrite K in Hrel.
    + rewrite lookup_insert_ne by done. apply Hrel.
Qed.

Lemma convertStyleToObject_fold s :
  convertStyleToObject s = fold_left addDeclaration (List.map trim (splitOn ";" s)) ∅.
Proof. unfold convertStyleToObject. by destruct s. Qed.

Lemma join_empty sep l : join (String sep EmptyString) l = EmptyString -> l = [] \/ l = [EmptyString].
Proof.
  destruct l as [|x [|y l]]; [by left | simpl; intros ->; by right|].
  change (join (String sep EmptyString) (x :: y :: l))
    with (x +:+ String sep EmptyString +:+ join (String sep EmptyString) (y :: l)).
  destruct x; rewrite ?append_cons, ?append_nil; done.
Qed.

Lemma convertStyleToObject_join F :
  Forall (fun d => noChar ";" d = true /\ trim d = d) F ->
  convertStyleToObject (join ";" F) = fold_left addDeclaration F ∅.
Proof.
  intros HF. destruct (decide (F = [])) as [->|Hne]; [done|].
  rewrite convertStyleToObject_fold. rewrite splitOn_join; [|done|].
  - f_equal. clear Hne. induction HF as [|d F [_ Hd] _ IH]; [done|]. simpl. by rewrite Hd, IH.
  - eapply Forall_impl; [exact HF|]. by intros d [? _].
Qed.

(** The style object read from the filtered attribute is the one read from
    the attribute, without the vendor properties. *)
Lemma filterMSOStyles_object s p :
  convertStyleToObject (filterMSOStyles s) !! p =
  if hasMso p then None else convertStyleToObject s !! p.
Proof.
  unfold filterMSOStyles.
  set (D := List.map trim (splitOn ";" s)).
  assert (HD : Forall (fun d => noChar ";" d = true /\ trim d = d) D).
  { unfold D. apply Forall_forall. intros d Hd.
    apply list_elem_of_In, in_map_iff in Hd as (x & <- & Hx).
    split; [|apply trim_idem]. apply noChar_trim.
    pose proof (splitOn_noChar ";" s) as H. rewrite Forall_forall in H.
    by apply H, list_elem_of_In. }
  rewrite convertStyleToObject_join.
  - rewrite (convertStyleToObject_fold s). fold D.
    apply fold_filtered. intros q. rewrite lookup_empty. by destruct (hasMso q).
  - apply Forall_forall. intros d Hd. apply list_elem_of_In, filter_In in Hd as [Hd _].
    rewrite Forall_forall in HD. by apply HD, list_elem_of_In.
Qed.
Lemma class_only_style h h' e : class_only h h' -> getAttribute h' e "style" = getAttribute h e "style".
Proof. intros [_ H]. destruct (H e) as (_ & _ & G). by apply G. Qed.

Lemma class_only_kindOf h h' e : class_only h h' -> kindOf h' e = kindOf h e.
Proof. intros [_ H]. by destruct (H e) as (? & _). Qed.

Lemma isHTMLElement_node h e : isHTMLElement h e = true -> is_Some (h !! e).
Proof. unfold isHTMLElement, kindOf. destruct (h !! e); [eauto | done]. Qed.

Lemma styleOf_removeMSOStyles h x e p :
  is_Some (h !! x) ->
  styleOf (removeMSOStyles h x) e !! p =
  if decide (e = x) then (if hasMso p then None else styleOf h x !! p) else styleOf h e !! p.
Proof.
  intros Hx. unfold styleOf, removeMSOStyles. rewrite getAttribute_setAttribute.
  destruct (decide (e = x)) as [->|Hne].
  - rewrite decide_True by done. simpl. apply filterMSOStyles_object.
  - rewrite decide_False; [done|]. intros (? & _). done.
Qed.

Lemma cleanItem_styled h0 h u x h2 u2 processed :
  styled h0 h processed -> cleanItem (h, u) x = (h2, u2) ->
  styled h0 h2 (processed ++ [x]).
Proof.
  intros Hst. unfold cleanItem. intros [= <- _]. intros e.
  set (h1 := removeMsoClasses h x).
  assert (C : class_only h h1).
  { unfold h1, removeMsoClasses.
    by destruct (removeMsoClasses_from_spec x (length (classList h x)) h 0) as (C & _). }
  destruct (Hst e) as [K S].
  assert (Hhtml : isHTMLElement h1 x = isHTMLElement h0 x).
  { unfold isHTMLElement. rewrite (class_only_kindOf _ _ _ C). by destruct (Hst x) as [-> _]. }
  split.
  { destruct (isHTMLElement h1 x).
    - unfold removeMSOStyles. rewrite kindOf_setAttribute. by rewrite (class_only_kindOf _ _ _ C).
    - by rewrite (class_only_kindOf _ _ _ C). }
  assert (S1 : if decide (e ∈ processed /\ isHTMLElement h0 e = true)
               then forall p, styleOf h1 e !! p = if hasMso p then None else styleOf h0 e !! p
               else getAttribute h1 e "style" = getAttribute h0 e "style").
  { destruct (decide _); [|by rewrite (class_only_style _ _ _ C)].
    intros p. unfold styleOf. rewrite (class_only_style _ _ _ C). apply S. }
  destruct (decide (e = x)) as [->|Hne].
  - destruct (isHTMLElement h1 x) eqn:E1.
    + rewrite decide_True by (split; [apply elem_of_app; right; by apply list_elem_of_singleton | congruence]).
      intros p. rewrite styleOf_removeMSOStyles by (by apply isHTMLElement_node).
      rewrite decide_True by done. destruct (hasMso p) eqn:Hp; [done|].
      destruct (decide _) in S1; [by rewrite S1, Hp|].
      unfold styleOf. by rewrite S1.
    + rewrite decide_False by (intros [_ ?]; congruence).
      destruct (decide _) as [[_ ?]|] in S1; [congruence | done].
  - assert (e ∈ (processed ++ [x])%list <-> e ∈ processed) as Hin.
    { rewrite elem_of_app, list_elem_of_singleton. split; [intros [?|?]; [done|congruence] | auto]. }
    assert (forall p, styleOf (if isHTMLElement h1 x then removeMSOStyles h1 x else h1) e !! p
                      = styleOf h1 e !! p) as Hsame.
    { intros p. destruct (isHTMLElement h1 x) eqn:E1; [|done].
      rewrite styleOf_removeMSOStyles by (by apply isHTMLElement_node).
      by rewrite decide_False. }
    assert (getAttribute (if isHTMLElement h1 x then removeMSOStyles h1 x else h1) e "style"
            = getAttribute h1 e "style") as Hattr.
    { destruct (isHTMLElement h1 x); [|done]. unfold removeMSOStyles.
      rewrite getAttribute_setAttribute. rewrite decide_False; [done|]. intros (? & _). done. }
    destruct (decide (e ∈ processed /\ isHTMLElement h0 e = true)) as [[Hi Hh]|Hno].
    + rewrite decide_True by (split; [by apply Hin | done]).
      intros p. rewrite Hsame. apply S1.
    + rewrite decide_False by (intros [Hi Hh]; apply Hno; split; [by apply Hin | done]).
      by rewrite Hattr.
Qed.

Lemma cleanItems_styled h0 items : forall h u h2 u2 processed,
  styled h0 h processed -> fold_left cleanItem items (h, u) = (h2, u2) ->
  styled h0 h2 (processed ++ items).
Proof.
  induction items as [|x items IH]; intros h u h2 u2 processed Hst; cbn [fold_left].
  - intros [= <- _]. by rewrite app_nil_r.
  - destruct (cleanItem (h, u) x) as [h1 u1] eqn:E. intros H.
    replace (processed ++ x :: items)%list with ((processed ++ [x]) ++ items)%list
      by (by rewrite <- app_assoc).
    eapply IH; [|exact H]. by eapply cleanItem_styled.
Qed.



(** *** The tree after the cleanup *)

Lemma cleanItems_shape items : forall h u h2 u2,
  fold_left cleanItem items (h, u) = (h2, u2) ->
  length h2 = length h /\ forall n, kids h2 n = kids h n.
Proof.
  induction items as [|x items IH]; intros h u h2 u2; cbn [fold_left].
  - by intros [= <- _].
  - destruct (cleanItem (h, u) x) as [h1 u1] eqn:E. intros H.
    destruct (IH _ _ _ _ H) as [Hlen Hkids].
    unfold cleanItem in E. injection E as <- _.
    assert (C : class_only h (removeMsoClasses h x)).
    { unfold removeMsoClasses.
      by destruct (removeMsoClasses_from_spec x (length (classList h x)) h 0) as (C & _). }
    destruct C as [Cl C]. split.
    + rewrite Hlen. destruct (isHTMLElement _ _); [|done].
      unfold removeMSOStyles, setAttribute. by rewrite update_length.
    + intros n. rewrite Hkids. destruct (C n) as (_ & K & _).
      destruct (isHTMLElement _ _); [|done].
      unfold removeMSOStyles. by rewrite kids_setAttribute.
Qed.

Lemma kids_update_parent n p (h : list node) m :
  kids (update n (with_parent p) h) m = kids h m.
Proof.
  unfold kids. rewrite update_lookup.
  destruct (decide (m = n)) as [->|]; [|done].
  by destruct (h !! n).
Qed.

Lemma kids_update_remove n c (h : list node) m :
  incl (kids (update n (with_kids (remove_ref c)) h) m) (kids h m).
Proof.
  unfold kids. rewrite update_lookup.
  destruct (decide (m = n)) as [->|]; [|apply incl_refl].
  destruct (h !! n) as [nd|]; simpl; [|apply incl_refl].
  intros x Hx. unfold remove_ref in Hx. by apply filter_In in Hx as [? _].
Qed.

Lemma kids_detach h c m : incl (kids (detach h c) m) (kids h m).
Proof.
  unfold detach. destruct (parentNode h c) as [p|]; [|apply incl_refl].
  rewrite kids_update_parent. apply kids_update_remove.
Qed.

Lemma unwrap_kids items : forall h h',
  fold_left (fun acc item => h' <- acc ;;
               match parentNode h' item with
               | Some itemParent => removeChild h' itemParent item
               | None => Throw (TypeError "Cannot read properties of null (reading 'removeChild')")
               end) items (Ok h) = Ok h' -> forall n, incl (kids h' n) (kids h n).
Proof.
  induction items as [|x items IH]; intros h h'; simpl.
  - intros [= <-] n. apply incl_refl.
  - destruct (parentNode h x) as [p|]; simpl.
    + destruct (removeChild h p x) as [h1|e] eqn:E.
      * intros H n. eapply incl_tran; [by apply (IH _ _ H)|].
        unfold removeChild in E. destruct (isChildOf h x p); [|done].
        injection E as <-. apply kids_detach.
      * intros H. exfalso. clear -H. induction items; simpl in *; [done | auto].
    + intros H. exfalso. clear -H. induction items; simpl in *; [done | auto].
Qed.

Lemma descendants_fuel_incl (h h' : list node) :
  (forall n, incl (kids h' n) (kids h n)) ->
  forall fuel n, incl (descendants_fuel fuel h' n) (descendants_fuel fuel h n).
Proof.
  intros K. induction fuel as [|fuel IH]; intros n x; simpl; [done|].
  rewrite !in_flat_map. intros (c & Hc & Hx). exists c. split; [by apply K|].
  destruct Hx as [->|Hx]; [by left | right; by apply IH].
Qed.

Lemma removeMSAttributes_elements h doc h' :
  removeMSAttributes h doc = Ok h' ->
  incl (querySelectorAll_any h' doc) (querySelectorAll_any h doc).
Proof.
  unfold removeMSAttributes.
  destruct (fold_left cleanItem _ _) as [h1 u] eqn:E. intros H x.
  pose proof (unwrap_links_only _ _ _ H) as L.
  pose proof (unwrap_kids _ _ _ H) as K.
  destruct (cleanItems_shape _ _ _ _ _ E) as [Hlen Hkids].
  assert (St : styled h h1 ([] ++ querySelectorAll_any h doc)).
  { eapply cleanItems_styled; [|exact E]. intros n. split; [done|].
    rewrite decide_False; [done|]. intros [Hin _]. by apply elem_of_nil in Hin. }
  unfold querySelectorAll_any, descendants. rewrite !filter_In.
  rewrite (links_only_length _ _ L), Hlen.
  intros [Hd He]. split.
  - apply (descendants_fuel_incl h h'); [|done].
    intros n. rewrite <- Hkids. apply K.
  - unfold isElement in *. rewrite (links_only_kindOf _ _ _ L) in He.
    destruct (St x) as [Kx _]. by rewrite <- Kx.
Qed.

Lemma findAll_none h l :
  (forall e, In e l -> isItemLike h e = Ok false) ->
  fold_left
    (fun acc n =>
       res <- acc ;;
       keep <- isItemLike h n ;;
       if keep
       then Ok (res ++ [{| itemData := getListItemData (styleOf h n); element := n |}])%list
       else Ok res) l (Ok []) = Ok [].
Proof.
  induction l as [|x l IH]; intros H; [done|]. simpl.
  rewrite (H x) by (by left). simpl. apply IH. intros e He. apply H. by right.
Qed.

(** On the tree that attribute cleanup leaves, the search for list-item
    candidates finds none, so that the reconstruction of lists leaves that
    tree as it is. *)
Lemma cleaned_tree_has_no_candidates h doc h' :
  removeMSAttributes h doc = Ok h' ->
  findAllItemLikeElements h' doc = Ok [] /\
  forall css, transformListItemLikeLElementsIntoLists h' doc css = Ok h'.
Proof.
  intros H.
  assert (F : findAllItemLikeElements h' doc = Ok []).
  { unfold findAllItemLikeElements. apply findAll_none. intros e He.
    apply (removeMSAttributes_elements _ _ _ H) in He.
    unfold removeMSAttributes in H.
    destruct (fold_left cleanItem _ _) as [h1 u] eqn:E.
    apply unwrap_links_only in H.
    assert (St : styled h h1 ([] ++ querySelectorAll_any h doc)).
    { eapply cleanItems_styled; [|exact E]. intros n. split; [done|].
      rewrite decide_False; [done|]. intros [Hin _]. by apply elem_of_nil in Hin. }
    destruct (St e) as [Ke S].
    assert (Hhtml : isHTMLElement h' e = isHTMLElement h e).
    { unfold isHTMLElement. by rewrite (links_only_kindOf _ _ _ H), Ke. }
    unfold isItemLike. rewrite Hhtml.
    destruct (isHTMLElement h e) eqn:Eh; [|by rewrite orb_true_r].
    destruct (negb _ || negb true); [done|].
    assert (Hno : hasMsoList h' e = false).
    { unfold hasMsoList. apply bool_decide_eq_false. intros [v Hv].
      rewrite decide_True in S by (split; [by apply list_elem_of_In | done]).
      unfold styleOf in *. rewrite (links_only_getAttribute _ _ _ _ H) in Hv.
      rewrite S in Hv. by vm_compute in Hv. }
    by rewrite Hno. }
  split; [exact F|]. intros css. unfold transformListItemLikeLElementsIntoLists. by rewrite F.
Qed.

(** X3: a second pass restructures nothing.  On the tree left by a first
    pass that returned, the search for candidates finds none and the
    reconstruction of lists returns the tree as it is, whatever the style
    sheet. *)
Theorem second_pass_finds_no_candidates h doc css h' :
  normalizeDocument h doc css = Ok h' ->
  findAllItemLikeElements h' doc = Ok [] /\
  forall css', transformListItemLikeLElementsIntoLists h' doc css' = Ok h'.
Proof.
  unfold normalizeDocument. intros H. inv_bind H as h1 H1.
  by apply (cleaned_tree_has_no_candidates h1).
Qed.

Lemma length_append (a b : string) : String.length (a +:+ b) = (String.length a + String.length b)%nat.
Proof. induction a as [|c a IH]; [done|]. rewrite append_cons. simpl. by rewrite IH. Qed.

Lemma substring0_app (a b : string) :
  substring0 (String.length (a +:+ b) - String.length b) (a +:+ b) = a.
Proof.
  rewrite length_append. replace (String.length a + String.length b - String.length b)%nat
    with (String.length a) by lia.
  induction a as [|c a IH]; [by destruct b|]. rewrite append_cons. simpl. by rewrite IH.
Qed.

Section Greedy.
Context {R : Type} (icase : bool) (p : ascii -> bool) (k : @cont R).

Lemma rep_cls_greedy ws : forall fuel lo prev rest cs x,
    forall_string p ws = true -> stopsAt p rest ->
    (lo <= String.length ws)%nat -> (String.length ws < fuel)%nat ->
    k (lastOr prev ws) rest cs = Some x ->
    rep_loop (run icase (Cls p)) k fuel lo None prev (ws +:+ rest) cs = Some x.
  Proof.
    set (m := run icase (Cls p)).
    assert (Hm : forall prev d s cs (k' : @cont R),
               m prev (String d s) cs k' = if p d then k' (Some d) s cs else None) by done.
    assert (Hm0 : forall prev cs (k' : @cont R), m prev EmptyString cs k' = None) by done.
    clearbody m.
    induction ws as [|c ws IH]; intros fuel lo prev rest cs x Hws Hrest Hlo Hfuel Hk.
    - rewrite append_nil. destruct fuel as [|fuel]; [simpl in Hfuel; lia|].
      simpl in Hlo. assert (lo = 0)%nat as -> by lia. cbn [rep_loop].
      destruct rest as [|d rest]; [by rewrite Hm0|]. simpl in Hrest. by rewrite Hm, Hrest.
    - simpl in Hws. apply andb_true_iff in Hws as [Hc Hws].
      destruct fuel as [|fuel]; [simpl in Hfuel; lia|]. rewrite append_cons.
      cbn [rep_loop]. rewrite Hm, Hc.
      replace (Nat.eqb (String.length (ws +:+ rest)) (String.length (String c (ws +:+ rest))))
        with false by (symmetry; apply Nat.eqb_neq; simpl; lia).
      rewrite andb_false_r.
      change (Nat.pred <$> @None nat) with (@None nat).
      rewrite (IH fuel (Nat.pred lo) (Some c) rest cs x); try done; simpl in *; lia.
  Qed.
End Greedy.

Lemma lit_mismatch icase {R} c lits d s prev cs (k : @cont R) :
  chr_matches icase c d = false ->
  run icase (Seq (Chr c) lits) prev (String d s) cs k = None.
Proof. intros H. simpl. by rewrite H. Qed.

Lemma match_here_safari_prev p1 p2 s :
  match_here false safariSpanRegex p1 s = match_here false safariSpanRegex p2 s.
Proof.
  unfold match_here, safariSpanRegex. destruct s as [|c s]; [done|].
  simpl. by destruct (chr_matches false "<" c).
Qed.

Lemma replace_safari_prev p1 p2 s :
  replace_from false safariSpanRegex safariReplacement p1 s 0 =
  replace_from false safariSpanRegex safariReplacement p2 s 0.
Proof.
  destruct s as [|c s]; cbn [replace_from]; by rewrite (match_here_safari_prev p1 p2).
Qed.

Lemma match_here_safari_other prev c s :
  c <> "<"%char -> match_here false safariSpanRegex prev (String c s) = None.
Proof.
  intros Hc. unfold match_here, safariSpanRegex. simpl.
  replace (chr_matches false "<" c) with false; [done|].
  symmetry. unfold chr_matches. by apply bool_decide_eq_false_2.
Qed.

Lemma replace_safari_text a : forall prev rest,
  noChar "<" a = true ->
  replace_from false safariSpanRegex safariReplacement prev (a +:+ rest) 0 =
  a +:+ replace_from false safariSpanRegex safariReplacement None rest 0.
Proof.
  unfold noChar. induction a as [|c a IH]; intros prev rest Ha.
  - rewrite !append_nil. apply replace_safari_prev.
  - simpl in Ha. apply andb_true_iff in Ha as [Hc Ha].
    apply negb_true_iff, bool_decide_eq_false in Hc.
    rewrite !append_cons. cbn [replace_from].
    rewrite match_here_safari_other by done. f_equal. by apply IH.
Qed.

Lemma replace_skip icase r f m : forall prev rest,
  replace_from icase r f prev (m +:+ rest) (String.length m) =
  replace_from icase r f (lastOr prev m) rest 0.
Proof.
  induction m as [|c m IH]; intros prev rest; [done|].
  rewrite append_cons. cbn [String.length replace_from lastOr]. apply IH.
Qed.

Lemma chr_matches_refl c : chr_matches false c c = true.
Proof. unfold chr_matches. by apply bool_decide_eq_true_2. Qed.

Lemma first_some {A} (o alt : option A) x :
  o = Some x -> match o with Some y => Some y | None => alt end = Some x.
Proof. by intros ->. Qed.

Lemma lastOr_nonempty prev ws : ws <> EmptyString -> lastOr prev ws = lastOr None ws.
Proof. destruct ws; [done|]. done. Qed.

Lemma match_here_safari_span prev opening ws b :
  opening = spanOpen \/ opening = appleSpanOpen ->
  ws <> EmptyString -> forall_string isSpace ws = true ->
  match_here false safariSpanRegex prev (opening +:+ ws +:+ "</span>" +:+ b)
  = Some (b, [(1%nat, ws)]).
Proof.
  intros Hop Hne Hws. unfold match_here, safariSpanRegex.
  destruct Hop as [->| ->].
  - unfold spanOpen. rewrite !append_cons, append_nil.
    cbn [run seqs lit]. rewrite !chr_matches_refl.
    replace (chr_matches false " " ">") with false by reflexivity.
    apply (rep_cls_greedy _ _ _ ws);
      [exact Hws | reflexivity | destruct ws; [done|]; simpl; lia
      | rewrite length_append; lia |].
    cbn [run lit]. rewrite !chr_matches_refl, ?append_nil. by rewrite substring0_app.
  - unfold appleSpanOpen. rewrite !append_cons, !append_nil.
    cbn [run seqs lit]. rewrite !chr_matches_refl.
    apply first_some.
    apply (rep_cls_greedy _ _ _ ws);
      [exact Hws | reflexivity | destruct ws; [done|]; simpl; lia
      | rewrite length_append; lia |].
    cbn [run lit]. rewrite !chr_matches_refl, ?append_nil. by rewrite substring0_app.
Qed.

Lemma substring0_exact (m rest : string) : substring0 (String.length m) (m +:+ rest) = m.
Proof.
  induction m as [|c m IH]; [by destruct rest|]. rewrite append_cons. simpl. by rewrite IH.
Qed.

Lemma replace_at_match icase r f prev m rest cs :
  m <> EmptyString -> match_here icase r prev (m +:+ rest) = Some (rest, cs) ->
  replace_from icase r f prev (m +:+ rest) 0 =
  f m cs +:+ replace_from icase r f (lastOr prev m) rest 0.
Proof.
  intros Hm H. destruct m as [|c m]; [done|]. rewrite append_cons in *.
  cbn [replace_from]. rewrite H.
  replace (String.length (String c (m +:+ rest)) - String.length rest)%nat
    with (S (String.length m)) by (simpl; rewrite length_append; lia).
  rewrite replace_skip. cbn [substring0 lastOr]. by rewrite substring0_exact.
Qed.

Lemma safari_span_rewritten a opening ws b :
  noChar "<" a = true ->
  opening = spanOpen \/ opening = appleSpanOpen ->
  ws <> EmptyString -> forall_string isSpace ws = true ->
  normalizeSafariSpaceSpans (a +:+ opening +:+ ws +:+ "</span>" +:+ b)
  = a +:+ safariSpaces ws +:+ normalizeSafariSpaceSpans b.
Proof.
  intros Ha Hop Hne Hws. unfold normalizeSafariSpaceSpans, replaceAll.
  rewrite replace_safari_text by done. f_equal.
  replace (opening +:+ ws +:+ "</span>" +:+ b) with ((opening +:+ ws +:+ "</span>") +:+ b)
    by (by rewrite !append_assoc_s).
  rewrite (replace_at_match false safariSpanRegex safariReplacement None _ b [(1%nat, ws)]).
  - f_equal. apply replace_safari_prev.
  - destruct Hop as [->| ->]; done.
  - rewrite !append_assoc_s. by apply match_here_safari_span.
Qed.

Lemma substring0_prefix n : forall x y,
  (n <= String.length x)%nat -> substring0 n (x +:+ y) = substring0 n x.
Proof.
  induction n as [|n IH]; intros x y Hn; [done|].
  destruct x as [|c x]; [simpl in Hn; lia|]. rewrite append_cons. simpl.
  f_equal. apply IH. simpl in Hn. lia.
Qed.

Lemma repeat_string_snoc n p : repeat_string (S n) p = repeat_string n p +:+ p.
Proof.
  induction n as [|n IH]; [simpl; by rewrite append_nil, append_nil_r|].
  change (repeat_string (S (S n)) p) with (p +:+ repeat_string (S n) p).
  rewrite IH at 1. change (repeat_string (S n) p) with (p +:+ repeat_string n p).
  by rewrite append_assoc_s.
Qed.

Lemma length_repeat_pair n : String.length (repeat_string n (String nbsp " ")) = (2 * n)%nat.
Proof.
  induction n as [|n IH]; [done|].
  change (repeat_string (S n) (String nbsp " "))
    with (String nbsp (String " " (repeat_string n (String nbsp " ")))).
  simpl String.length. rewrite IH. lia.
Qed.

Lemma spaceRun_step n : spaceRun (S (S n)) = String nbsp (String " " (spaceRun n)).
Proof.
  unfold spaceRun.
  change (repeat_string (S (S n)) (String nbsp " "))
    with (String nbsp (String " " (repeat_string (S n) (String nbsp " ")))).
  cbn [substring0]. do 2 f_equal.
  rewrite repeat_string_snoc. apply substring0_prefix. rewrite length_repeat_pair. lia.
Qed.

(** The text of a space run: its length, and its characters. *)
Lemma spaceRun_spec n :
  String.length (spaceRun n) = n /\
  forall i, (i < n)%nat ->
    String.get i (spaceRun n) = Some (if Nat.even i then nbsp else " "%char).
Proof.
  assert (G : forall m, (String.length (spaceRun m) = m /\
                forall i, (i < m)%nat ->
                  String.get i (spaceRun m) = Some (if Nat.even i then nbsp else " "%char)) /\
              (String.length (spaceRun (S m)) = S m /\
                forall i, (i < S m)%nat ->
                  String.get i (spaceRun (S m)) = Some (if Nat.even i then nbsp else " "%char))).
  { induction m as [|m [IH1 IH2]].
    - split; [split; [done | intros; lia]|]. split; [done|].
      intros i Hi. assert (i = 0)%nat as -> by lia. done.
    - split; [exact IH2|]. rewrite spaceRun_step. destruct IH1 as [L G].
      split; [simpl; by rewrite L|].
      intros [|[|i]] Hi; [done | done |].
      simpl String.get. rewrite G by lia. done. }
  apply G.
Qed.
Lemma fold_detach_lookup cs : forall (h : list node) n,
  length (fold_left (fun h' c => update c (with_parent None) h') cs h) = length h /\
  (is_Some (h !! n) -> is_Some (fold_left (fun h' c => update c (with_parent None) h') cs h !! n)).
Proof.
  induction cs as [|c cs IH]; intros h n; simpl; [done|].
  destruct (IH (update c (with_parent None) h) n) as [L E]. rewrite L, update_length.
  split; [done|]. intros Hn. apply E. rewrite update_lookup.
  destruct (decide (n = c)) as [->|]; [|done]. destruct Hn as [x Hx]. rewrite Hx. simpl. eauto.
Qed.

Lemma kids_update_same (h : list node) n f :
  is_Some (h !! n) -> kids (update n (with_kids f) h) n = f (kids h n).
Proof.
  intros [nd Hn]. unfold kids. rewrite update_lookup, decide_True by done. by rewrite Hn.
Qed.

Lemma drop_children_spec (h : list node) n :
  is_Some (h !! n) ->
  length (drop_children h n) = length h /\ kids (drop_children h n) n = [] /\
  is_Some (drop_children h n !! n).
Proof.
  intros Hn. unfold drop_children.
  destruct (fold_detach_lookup (kids h n) h n) as [L E]. specialize (E Hn).
  split; [by rewrite update_length|]. split; [by rewrite kids_update_same|].
  rewrite update_lookup, decide_True by done. destruct E as [x ->]. simpl. eauto.
Qed.

Lemma descendants_no_kids h n : kids h n = [] -> descendants h n = [].
Proof.
  intros H. unfold descendants. destruct (length h); simpl; [done|]. by rewrite H.
Qed.

Lemma textContent_set_innerText (h : list node) n text :
  is_Some (h !! n) -> textContent (set_innerText h n text) n = text.
Proof.
  intros Hn. unfold set_innerText.
  destruct (drop_children_spec h n Hn) as (L1 & K1 & E1).
  set (h1 := drop_children h n) in *.
  destruct text as [|c text]; simpl is_empty; cbv iota.
  - unfold textContent. by rewrite descendants_no_kids.
  - set (txt := String c text). unfold createTextNode.
    set (h2 := (h1 ++ [Node (Text txt) [] None []])%list).
    set (t := length h1).
    assert (Hnt : n <> t).
    { unfold t. destruct E1 as [x Hx]. apply lookup_lt_Some in Hx. lia. }
    assert (E2n : is_Some (h2 !! n)).
    { unfold h2. destruct E1 as [x Hx]. rewrite lookup_app_l by (by eapply lookup_lt_Some). eauto. }
    set (h3 := update t (with_parent (Some n)) (update n (with_kids (fun _ => [t])) h2)).
    assert (Kn : kids h3 n = [t]).
    { unfold h3, kids. rewrite update_lookup, decide_False by done.
      rewrite update_lookup, decide_True by done. destruct E2n as [x ->]. done. }
    assert (Et : h3 !! t = Some (Node (Text txt) [] (Some n) [])).
    { unfold h3. rewrite update_lookup, decide_True by done.
      rewrite update_lookup, decide_False by done.
      unfold h2, t. by rewrite list_lookup_middle. }
    assert (L3 : length h3 = S (length h1)).
    { unfold h3. rewrite !update_length. unfold h2. rewrite length_app. simpl. lia. }
    unfold textContent, descendants. rewrite L3. cbn [descendants_fuel]. rewrite Kn.
    cbn [flat_map]. rewrite app_nil_r.
    assert (Dt : descendants_fuel (length h1) h3 t = []).
    { destruct (length h1); simpl; [done|]. unfold kids. by rewrite Et. }
    rewrite Dt. simpl. unfold ownText, kindOf. rewrite Et. simpl. apply append_nil_r.
Qed.

Lemma spacerun_span_text (h : list node) el :
  is_Some (h !! el) ->
  textContent (normalizeSpacerunSpan h el) el = spaceRun (String.length (textContent h el)).
Proof. intros H. unfold normalizeSpacerunSpan. by apply textContent_set_innerText. Qed.







(* ===================================================================== *)
(** ** The claims at sample documents, and the remaining claims           *)
(* ===================================================================== *)

(** A node that is not an element makes the continuation check throw. *)
Lemma isListContinuation_not_element h it prev :
  previousSibling h (element it) = Some prev -> isElement h prev = false ->
  isListContinuation h it
  = Throw (TypeError "Cannot read properties of undefined (reading 'toLowerCase')").
Proof.
  intros Hp He. unfold isListContinuation, isList. rewrite Hp.
  unfold tagName. unfold isElement in He. by destruct (kindOf h prev) as [[]|].
Qed.

(** C1 (the code falls short of the claim): a list paragraph whose previous
    sibling is a text node.  The continuation check hands the text node to
    [isList], which reads its [tagName]; that is [undefined] on a node that
    is not an element, the call of [toLowerCase] throws a [TypeError], and
    [normalize] throws with it instead of returning a string. *)
Theorem text_sibling_throws :
  kindOf docTextSibling 6 = Some (Text "x") /\
  previousSibling docTextSibling (element (item_at docTextSibling 0)) = Some 6%nat /\
  isListContinuation docTextSibling (item_at docTextSibling 0)
    = Throw (TypeError "Cannot read properties of undefined (reading 'toLowerCase')") /\
  normalizeDocument docTextSibling documentNode EmptyString
    = Throw (TypeError "Cannot read properties of undefined (reading 'toLowerCase')").
Proof. repeat split; vm_compute; reflexivity. Qed.

(** C4 (the code falls short of the claim): a list paragraph separated from
    the paragraph before it by a single space.  The first [normalize] throws
    on it, for the reason of C1, so that [normalize(normalize(x))] throws as
    well. *)
Theorem space_sibling_throws :
  items docSpaceSibling = [{| itemData := {| id := Some "0"; order := Some "1"; indent := Some 1 |};
                              element := 7 |}] /\
  normalizeDocument docSpaceSibling documentNode EmptyString
    = Throw (TypeError "Cannot read properties of undefined (reading 'toLowerCase')").
Proof. split; vm_compute; reflexivity. Qed.

(** C6 (the code falls short of the claim): a bullet item whose first child
    is bare text, followed by a span.  [findListMarkerNode] looks at
    [element.children], which holds elements only, so that its test for a
    leading text node never fires: the span is taken for the marker and the
    style [circle] is derived from it. *)
Theorem text_first_child_still_sniffed :
  kids docTextFirst 4 = [5%nat; 6%nat] /\
  kindOf docTextFirst 5 = Some (Text "text") /\
  children docTextFirst 4 = [6%nat] /\
  findListMarkerNode docTextFirst 4 = Some 6%nat /\
  findBulletedListStyle docTextFirst 4 = Ok (Some "circle") /\
  (ls <- detectListStyle docTextFirst (item_at docTextFirst 0) cssBullet ;; Ok (style ls))
    = Ok (Some "circle").
Proof. repeat split; vm_compute; reflexivity. Qed.

(** An item at level 0 has the normalized depth -1; the stack is then cut to
    the length -1, which is a [RangeError]. *)
Lemma level_zero_throws :
  indent (itemData (item_at docLevel0 0)) = Some 0 /\
  normalizeDocument docLevel0 documentNode EmptyString
    = Throw (RangeError "Invalid array length").
Proof. split; vm_compute; reflexivity. Qed.

(** The loop over the live class list skips the class that follows a removed
    one: of two vendor classes side by side the second stays. *)
Lemma second_vendor_class_skipped :
  classList docTwoClasses 4 = ["MsoNormal"; "MsoListParagraph"] /\
  test true msoRegex "MsoListParagraph" = true /\
  (h' <- normalizeDocument docTwoClasses documentNode EmptyString ;; Ok (classList h' 4))
    = Ok ["MsoListParagraph"].
Proof. repeat split; vm_compute; reflexivity. Qed.

(** C2, as stated, fails: the style sheet sets the start index 5 for the
    list, and the container reopened after the interruption starts at 7,
    the running counter. *)
Lemma explicit_start_overridden :
  let st2 := stateAfter cssStart5 2 docResume in
  let it := item_at docResume 2 in
  isListContinuation (heap st2) it = Ok false /\
  (ls <- detectListStyle (heap st2) it cssStart5 ;; Ok (type ls, startIndex ls))
    = Ok ("ol", Some 5) /\
  (st3 <- processItem cssStart5 st2 it ;;
   Ok (tagName (heap st3) 21, getAttribute (heap st3) 21 "start"))
    = Ok (Some "OL", Some "7").
Proof. repeat split; vm_compute; reflexivity. Qed.


(** C9, as stated, fails: a space-run span that holds one space ends up with
    one non-breaking space, not with a regular space. *)
Lemma single_space_run_becomes_nbsp :
  isSpacerunSpan docSpacerun 6 = true /\
  textContent docSpacerun 6 = " " /\
  textContent (normalizeSpacerunSpans docSpacerun documentNode) 6 = String nbsp EmptyString /\
  String nbsp EmptyString <> " ".
Proof. repeat split; try (vm_compute; reflexivity). done. Qed.

(** C10, as stated, fails: a paragraph of the input with the class
    [legal-list] is in the output with that class. *)
Lemma legal_list_class_passes_through :
  exists h', normalizeDocument docLegal documentNode EmptyString = Ok h' /\
             In "legal-list" (classList h' 4) /\ tagName h' 4 = Some "P".
Proof. eexists. split; [vm_compute; reflexivity|]. split; [vm_compute; auto | vm_compute; reflexivity]. Qed.

(** The theorem of C2 at a sample document. *)
Lemma reopened_list_takes_counter_witness :
  let st2 := stateAfter cssStart5 2 docResume in
  let st3 := stateAfter cssStart5 3 docResume in
  let it := item_at docResume 2 in
  isListContinuation (heap st2) it = Ok false /\
  detectListStyle (heap st2) it cssStart5 = Ok ls5 /\
  encounteredLists st2 !! originalListId it = Some (Num 7) /\
  opens st2 st3 it /\
  tagName (heap st3) (length (heap st2)) = Some "OL" /\
  getAttribute (heap st3) (length (heap st2)) "start" = Some "7".
Proof.
  intros st2 st3 it.
  assert (Hcont : isListContinuation (heap st2) it = Ok false) by (vm_compute; reflexivity).
  assert (Hls : detectListStyle (heap st2) it cssStart5 = Ok ls5) by (vm_compute; reflexivity).
  assert (Henc : encounteredLists st2 !! originalListId it = Some (Num 7))
    by (vm_compute; reflexivity).
  destruct (reopened_list_takes_counter cssStart5 st2 it st3 ls5 1) as (Ho & Ht & Hc & _).
  - vm_compute; reflexivity.
  - lia.
  - vm_compute. eauto.
  - exact Hcont.
  - exact Hls.
  - reflexivity.
  - vm_compute; reflexivity.
  - split; [exact Hcont|]. split; [exact Hls|]. split; [exact Henc|].
    split; [exact Ho|]. split; [exact Ht|]. exact (Hc 7 Henc ltac:(lia)).
Defined.


(** The theorem of C5 at a sample document. *)
Lemma stack_discipline_witness :
  let st := stateAfter EmptyString 2 docNested in
  let st' := stateAfter EmptyString 3 docNested in
  Arr.len (stack st) = 2 /\ Arr.len (stack st') = 1 /\
  Arr.dense (stack st) /\ Arr.dense (stack st') /\
  stack_step (item_at docNested 2) 1 (stack st) (stack st').
Proof.
  intros st st'. split; [reflexivity|]. split; [reflexivity|].
  apply (stack_discipline EmptyString docNested documentNode (items docNested)
           [item_at docNested 0; item_at docNested 1] (item_at docNested 2) []).
  - vm_compute; reflexivity.
  - vm_compute; reflexivity.
  - vm_compute; reflexivity.
  - vm_compute; reflexivity.
  - reflexivity.
Defined.

(** The theorem of C10 at a sample document. *)
Lemma legal_list_class_never_added_witness :
  let h' := heapOf (normalizeDocument docLegal documentNode EmptyString) in
  In "legal-list" (classList h' 4) /\
  (4 < length docLegal)%nat /\ In "legal-list" (classList docLegal 4).
Proof.
  intros h'.
  assert (Hin : In "legal-list" (classList h' 4)) by (vm_compute; auto).
  split; [exact Hin|].
  apply (legal_list_class_never_added docLegal documentNode EmptyString h').
  - vm_compute; reflexivity.
  - exact Hin.
Defined.

(* ===================================================================== *)
(** ** Further properties of the code                                     *)
(* ===================================================================== *)

(** *** The search for candidates *)

Lemma parentElement_tagName h n p :
  parentElement h n = Some p -> exists t, tagName h p = Some t.
Proof.
  unfold parentElement. destruct (parentNode h n) as [q|]; simpl; [|done].
  destruct (isElement h q) eqn:E; [|done]. intros [= <-].
  unfold isElement in E. unfold tagName.
  destruct (kindOf h q) as [[name [|]| | |]|]; try done; eauto.
Qed.

Lemma isItemLike_candidate h n : isItemLike h n = Ok (isCandidate h n).
Proof.
  unfold isItemLike, isCandidate.
  destruct (existsb _ itemTags); simpl; [|done].
  destruct (isHTMLElement h n); simpl; [|done].
  destruct (hasMsoList h n); simpl; [|done].
  destruct (parentElement h n) as [p|] eqn:E; [|done].
  apply parentElement_tagName in E as [t E]. unfold isList, tagNameOf. rewrite E. done.
Qed.

Lemma findAllItemLikeElements_filter h doc :
  exists items,
    findAllItemLikeElements h doc = Ok items /\
    List.map element items = List.filter (isCandidate h) (querySelectorAll_any h doc) /\
    Forall (fun it => itemData it = getListItemData (styleOf h (element it))) items.
Proof.
  unfold findAllItemLikeElements.
  assert (G : forall l acc,
    Forall (fun it => itemData it = getListItemData (styleOf h (element it))) acc ->
    exists items,
      fold_left (fun acc n =>
                   res <- acc ;; keep <- isItemLike h n ;;
                   if keep
                   then Ok (res ++ [{| itemData := getListItemData (styleOf h n); element := n |}])%list
                   else Ok res) l (Ok acc) = Ok items /\
      List.map element items = (List.map element acc ++ List.filter (isCandidate h) l)%list /\
      Forall (fun it => itemData it = getListItemData (styleOf h (element it))) items).
  { induction l as [|n l IH]; intros acc Hacc; simpl.
    - exists acc. by rewrite app_nil_r.
    - rewrite isItemLike_candidate. simpl. destruct (isCandidate h n).
      + destruct (IH (acc ++ [{| itemData := getListItemData (styleOf h n); element := n |}])%list)
          as (items & E & M & F).
        { apply Forall_app. split; [done|]. by constructor. }
        exists items. split; [done|]. split; [|done].
        rewrite M, map_app. simpl. by rewrite <- app_assoc.
      + by apply IH. }
  destruct (G (querySelectorAll_any h doc) []) as (items & E & M & F); [constructor|].
  exists items. done.
Qed.

(** X1: the search for list-item candidates never throws.  It returns, in
    document order, exactly the elements that pass [isCandidate], each with
    the list data read from its own style attribute. *)
Theorem candidates_found h doc :
  exists items,
    findAllItemLikeElements h doc = Ok items /\
    List.map element items = List.filter (isCandidate h) (querySelectorAll_any h doc) /\
    Forall (fun it => itemData it = getListItemData (styleOf h (element it))) items.
Proof. apply findAllItemLikeElements_filter. Qed.

(** *** An item at level 0 *)

Lemma processItem_level_zero css st it :
  wf_item it -> Arr.dense (stack st) -> indent (itemData it) = Some 0 ->
  exists e, processItem css st it = Throw e.
Proof.
  intros Hwf D E. destruct (processItem css st it) as [st'|e] eqn:H; [|eauto].
  exfalso. destruct (processItem_stack_step css st it st' 0 Hwf D E H)
    as (_ & s0 & d & _ & Hd & Hpos & _).
  unfold normalizedIndent in Hd. lia.
Qed.

(** X2: a candidate at level 0 makes the reconstruction throw.  Its
    normalized depth is -1, so that the stack is cut to the length -1, a
    [RangeError], unless the loop has thrown before; either way neither the
    reconstruction nor [normalize] returns. *)
Theorem level_zero_item_throws css h doc items it :
  findAllItemLikeElements h doc = Ok items ->
  In it items -> indent (itemData it) = Some 0 ->
  exists e, transformListItemLikeLElementsIntoLists h doc css = Throw e /\
            normalizeDocument h doc css = Throw e.
Proof.
  intros Hfind Hin E.
  assert (G : exists e, transformListItemLikeLElementsIntoLists h doc css = Throw e).
  { unfold transformListItemLikeLElementsIntoLists. rewrite Hfind. simpl.
    pose proof (findAllItemLikeElements_wf _ _ _ Hfind) as Hwf.
    apply in_split in Hin as (pre & post & ->).
    apply Forall_app in Hwf as [Wpre Wit]. inversion Wit as [|? ? Wi _]; subst.
    assert (T : exists e, processItems css (pre ++ it :: post) (initialState h) = Throw e).
    { rewrite processItems_app.
      destruct (processItems css pre (initialState h)) as [st|e] eqn:Hpre; simpl; [|eauto].
      rewrite processItems_cons.
      destruct (processItem_level_zero css st it Wi) as [e He]; [|done|].
      - eapply processItems_dense; [exact Wpre | | exact Hpre]. apply dense_empty.
      - rewrite He. simpl. eauto. }
    destruct T as [e T]. rewrite T. simpl. exists e. by destruct pre. }
  destruct G as [e G]. exists e. split; [done|]. unfold normalizeDocument. by rewrite G.
Qed.

(** The theorem of X2 at a sample document. *)
Lemma level_zero_item_throws_witness :
  exists e, transformListItemLikeLElementsIntoLists docLevel0 documentNode EmptyString = Throw e /\
            normalizeDocument docLevel0 documentNode EmptyString = Throw e.
Proof.
  apply (level_zero_item_throws EmptyString docLevel0 documentNode
           (items docLevel0) (item_at docLevel0 0)).
  - vm_compute; reflexivity.
  - vm_compute; auto.
  - vm_compute; reflexivity.
Defined.

(** The theorem of X3 at a sample document. *)
Lemma second_pass_finds_no_candidates_witness :
  let h' := heapOf (normalizeDocument docResume documentNode cssStart5) in
  length (items docResume) = 3%nat /\
  findAllItemLikeElements h' documentNode = Ok [] /\
  forall css', transformListItemLikeLElementsIntoLists h' documentNode css' = Ok h'.
Proof.
  intros h'. split; [vm_compute; reflexivity|].
  apply (second_pass_finds_no_candidates docResume documentNode cssStart5 h').
  vm_compute; reflexivity.
Defined.

(** *** The class loop, exactly *)

Lemma filter_out_at (l : list string) : forall i c,
  List.NoDup l -> l !! i = Some c ->
  List.filter (fun y => negb (str_eqb y c)) l = (take i l ++ drop (S i) l)%list.
Proof.
  induction l as [|x l IH]; intros i c Hnd Hi; [done|].
  inversion Hnd as [|? ? Hx Hl]; subst. destruct i as [|i]; simpl in *.
  - injection Hi as ->. unfold str_eqb at 1. rewrite bool_decide_eq_true_2 by done. simpl.
    rewrite drop_0. apply forallb_filter_id. apply forallb_forall. intros y Hy.
    apply negb_true_iff, bool_decide_eq_false. intros ->. done.
  - assert (x <> c).
    { intros ->. apply Hx. apply list_elem_of_In. by eapply list_elem_of_lookup_2. }
    unfold str_eqb at 1. rewrite bool_decide_eq_false_2 by done. simpl.
    f_equal. by apply IH.
Qed.

Lemma skipRemove_at (l : list string) i c :
  l !! i = Some c ->
  skipRemove (drop i l) =
  if test true msoRegex c
  then match drop (S i) l with
       | [] => []
       | d :: rest' => d :: skipRemove rest'
       end
  else c :: skipRemove (drop (S i) l).
Proof.
  intros Hi. rewrite (drop_S _ _ _ Hi). reflexivity.
Qed.

Lemma removeMsoClasses_from_exact item fuel : forall h i,
  (length (classList h item) <= i + fuel)%nat ->
  classList (removeMsoClasses_from fuel h item i) item
  = (take i (classList h item) ++ skipRemove (drop i (classList h item)))%list.
Proof.
  induction fuel as [|fuel IH]; intros h i Hlen; simpl.
  - rewrite drop_ge by lia. rewrite take_ge by lia. by rewrite app_nil_r.
  - destruct (classList h item !! i) as [cn|] eqn:E.
    + rewrite (skipRemove_at _ _ _ E).
      destruct (test true msoRegex cn) eqn:T.
      * destruct (classList_tokens h item) as [_ Hnd].
        assert (L1 : classList (classList_remove h item cn) item
                     = (take i (classList h item) ++ drop (S i) (classList h item))%list).
        { rewrite classList_remove_spec, decide_True by done. by apply filter_out_at. }
        assert (Hi : (i < length (classList h item))%nat) by (by eapply lookup_lt_Some).
        rewrite IH.
        2:{ rewrite L1, length_app, length_take, length_drop. lia. }
        rewrite L1. set (l := classList h item) in *.
        assert (Ht : length (take i l) = i) by (rewrite length_take; lia).
        rewrite take_app_ge by lia. rewrite drop_app_ge by lia. rewrite Ht.
        replace (S i - i)%nat with 1%nat by lia.
        rewrite <- app_assoc. f_equal.
        destruct (drop (S i) l) as [|d r]; [done|]. simpl. by rewrite ?take_0, ?drop_0.
      * rewrite IH by lia.
        rewrite (take_S_r _ _ _ E), <- app_assoc. done.
    + apply lookup_ge_None in E. rewrite drop_ge by lia. rewrite take_ge by lia.
      by rewrite app_nil_r.
Qed.

Lemma removeMsoClasses_exact h item :
  classList (removeMsoClasses h item) item = skipRemove (classList h item).
Proof.
  unfold removeMsoClasses. rewrite removeMsoClasses_from_exact by lia.
  by rewrite take_0, drop_0.
Qed.

Lemma cleanItem_classes_exact h u x h2 u2 :
  cleanItem (h, u) x = (h2, u2) ->
  forall e, classList h2 e = if decide (e = x) then skipRemove (classList h x) else classList h e.
Proof.
  unfold cleanItem. intros [= <- _] e.
  assert (G : classList (removeMsoClasses h x) e
              = if decide (e = x) then skipRemove (classList h x) else classList h e).
  { destruct (decide (e = x)) as [->|Hne]; [apply removeMsoClasses_exact|].
    unfold removeMsoClasses.
    destruct (removeMsoClasses_from_spec x (length (classList h x)) h 0) as (_ & O & _).
    by apply O. }
  destruct (isHTMLElement _ _); [|exact G].
  unfold removeMSOStyles. rewrite classList_setAttribute_other by done. exact G.
Qed.

Lemma cleanItems_classes_exact items : forall h u h2 u2,
  List.NoDup items ->
  fold_left cleanItem items (h, u) = (h2, u2) ->
  forall e, classList h2 e = if decide (e ∈ items) then skipRemove (classList h e)
                             else classList h e.
Proof.
  induction items as [|x items IH]; intros h u h2 u2 Hnd; cbn [fold_left].
  - intros [= <- _] e. rewrite decide_False; [done|]. apply not_elem_of_nil.
  - destruct (cleanItem (h, u) x) as [h1 u1] eqn:E. intros H e.
    inversion Hnd as [|? ? Hx Hl]; subst.
    rewrite (IH _ _ _ _ Hl H e). rewrite !(cleanItem_classes_exact _ _ _ _ _ E).
    destruct (decide (e = x)) as [->|Hne].
    + rewrite decide_False by (by rewrite list_elem_of_In).
      rewrite decide_True by (by left). done.
    + destruct (decide (e ∈ items)) as [Hi|Hi].
      * rewrite decide_True by (by right). done.
      * rewrite decide_False; [done|]. intros Hin. apply elem_of_cons in Hin as [?|?]; done.
Qed.

(** X4: what attribute cleanup does to the classes, exactly.  The class
    loop walks a live list, so that after each removal the class that
    follows is passed over: an element of the document ends up with
    [skipRemove] of its class list, and no other node changes its classes. *)
Theorem class_cleanup_exact h doc h' :
  List.NoDup (querySelectorAll_any h doc) ->
  removeMSAttributes h doc = Ok h' ->
  forall e, classList h' e =
            if decide (e ∈ querySelectorAll_any h doc) then skipRemove (classList h e)
            else classList h e.
Proof.
  intros Hnd. unfold removeMSAttributes.
  destruct (fold_left cleanItem _ _) as [h1 u] eqn:E. intros H e.
  apply unwrap_links_only in H. rewrite (links_only_classList _ _ _ H).
  by apply (cleanItems_classes_exact _ _ _ _ _ Hnd E).
Qed.

(** The theorem of X4 at a sample document. *)
Lemma class_cleanup_exact_witness :
  let h' := heapOf (removeMSAttributes docTwoClasses documentNode) in
  classList docTwoClasses 4 = ["MsoNormal"; "MsoListParagraph"] /\
  classList h' 4 = ["MsoListParagraph"].
Proof.
  intros h'. split; [vm_compute; reflexivity|].
  assert (Hnd : List.NoDup (querySelectorAll_any docTwoClasses documentNode)).
  { apply NoDup_ListNoDup. apply (bool_decide_unpack _). vm_compute. exact I. }
  assert (Hrun : removeMSAttributes docTwoClasses documentNode = Ok h')
    by (vm_compute; reflexivity).
  rewrite (class_cleanup_exact docTwoClasses documentNode h' Hnd Hrun 4%nat).
  vm_compute; reflexivity.
Defined.

(** *** The style attribute after the cleanup *)

Lemma filter_all {A} (p : A -> bool) (l : list A) : List.filter p (List.filter p l) = List.filter p l.
Proof.
  induction l as [|x l IH]; [done|]. simpl. destruct (p x) eqn:E; [|done].
  simpl. by rewrite E, IH.
Qed.

Lemma map_trim_kept (l : list string) :
  Forall (fun d => trim d = d) l -> List.map trim l = l.
Proof. induction 1 as [|d l Hd _ IH]; [done|]. simpl. by rewrite Hd, IH. Qed.

(** Filtering the vendor properties out of a style string a second time
    changes nothing. *)
Lemma filterMSOStyles_twice s :
  filterMSOStyles (filterMSOStyles s) = filterMSOStyles s.
Proof.
  unfold filterMSOStyles.
  set (F := List.filter keepsProperty (List.map trim (splitOn ";" s))).
  destruct (decide (F = [])) as [->|Hne]; [by vm_compute|].
  assert (HF : Forall (fun d => noChar ";" d = true /\ trim d = d) F).
  { unfold F. apply Forall_forall. intros d Hd.
    apply list_elem_of_In, filter_In in Hd as [Hd _].
    apply in_map_iff in Hd as (x & <- & Hx).
    split; [|apply trim_idem]. apply noChar_trim.
    pose proof (splitOn_noChar ";" s) as H. rewrite Forall_forall in H.
    by apply H, list_elem_of_In. }
  rewrite splitOn_join; [|done|by eapply Forall_impl; [exact HF|]; intros d [? _]].
  rewrite map_trim_kept by (by eapply Forall_impl; [exact HF|]; intros d [_ ?]).
  unfold F at 1. by rewrite filter_all.
Qed.

Lemma set_assoc_twice k v v' l : set_assoc k v (set_assoc k v' l) = set_assoc k v l.
Proof.
  induction l as [|[a b] l IH]; simpl; unfold str_eqb in *.
  - by rewrite bool_decide_eq_true_2.
  - case_bool_decide as E; simpl; unfold str_eqb.
    + by rewrite bool_decide_eq_true_2.
    + rewrite bool_decide_eq_false_2 by done. by rewrite IH.
Qed.

Lemma setAttribute_twice h n k v v' :
  setAttribute (setAttribute h n k v') n k v = setAttribute h n k v.
Proof.
  unfold setAttribute, update. destruct (h !! n) as [nd|] eqn:E; [|by rewrite E].
  rewrite list_lookup_insert_eq by (by eapply lookup_lt_Some).
  rewrite list_insert_insert_eq. f_equal.
  unfold with_attrs. simpl. by rewrite set_assoc_twice.
Qed.

(** X5: [removeMSOStyles] applied twice to an element is [removeMSOStyles]
    applied once: the style string it writes is a fixed point of its filter. *)
Theorem removeMSOStyles_idempotent h element :
  removeMSOStyles (removeMSOStyles h element) element = removeMSOStyles h element.
Proof.
  unfold removeMSOStyles.
  set (v1 := filterMSOStyles (default EmptyString (getAttribute h element "style"))).
  rewrite getAttribute_setAttribute.
  destruct (h !! element) as [nd|] eqn:E.
  - rewrite decide_True by (split_and!; eauto). simpl.
    unfold v1. rewrite filterMSOStyles_twice. apply setAttribute_twice.
  - rewrite decide_False by (intros (_ & _ & [? ?]); congruence).
    assert (Hid : setAttribute h element "style" v1 = h).
    { unfold setAttribute, update. by rewrite E. }
    rewrite Hid. fold v1. exact Hid.
Qed.

Lemma cleanItem_style_attr h u x h2 u2 :
  cleanItem (h, u) x = (h2, u2) ->
  forall e, kindOf h2 e = kindOf h e /\
    getAttribute h2 e "style" =
    if decide (e = x /\ isHTMLElement h x = true)
    then Some (filterMSOStyles (default EmptyString (getAttribute h x "style")))
    else getAttribute h e "style".
Proof.
  unfold cleanItem. intros [= <- _] e.
  set (h1 := removeMsoClasses h x).
  assert (C : class_only h h1).
  { unfold h1, removeMsoClasses.
    by destruct (removeMsoClasses_from_spec x (length (classList h x)) h 0) as (C & _). }
  assert (Hhtml : isHTMLElement h1 x = isHTMLElement h x).
  { unfold isHTMLElement. by rewrite (class_only_kindOf _ _ _ C). }
  rewrite Hhtml. destruct (isHTMLElement h x) eqn:Eh.
  - split.
    { unfold removeMSOStyles. by rewrite kindOf_setAttribute, (class_only_kindOf _ _ _ C). }
    unfold removeMSOStyles. rewrite getAttribute_setAttribute.
    rewrite !(class_only_style _ _ _ C).
    destruct (decide (e = x)) as [->|Hne].
    + rewrite !decide_True; [done | done |].
      split_and!; [done..|]. apply isHTMLElement_node. by rewrite Hhtml.
    + rewrite !decide_False; [done | by intros [? _] | by intros [? _]].
  - split; [by rewrite (class_only_kindOf _ _ _ C)|].
    rewrite (class_only_style _ _ _ C). rewrite decide_False; [done|]. by intros [_ ?].
Qed.

Lemma cleanItems_style_attr items : forall h u h2 u2,
  fold_left cleanItem items (h, u) = (h2, u2) ->
  forall e, kindOf h2 e = kindOf h e /\
    getAttribute h2 e "style" =
    if decide (e ∈ items /\ isHTMLElement h e = true)
    then Some (filterMSOStyles (default EmptyString (getAttribute h e "style")))
    else getAttribute h e "style".
Proof.
  induction items as [|x items IH]; intros h u h2 u2; cbn [fold_left].
  - intros [= <- _] e. split; [done|]. rewrite decide_False; [done|].
    intros [Hin _]. by apply elem_of_nil in Hin.
  - destruct (cleanItem (h, u) x) as [h1 u1] eqn:E. intros H e.
    destruct (IH _ _ _ _ H e) as [K S].
    destruct (cleanItem_style_attr _ _ _ _ _ E e) as [K1 S1].
    split; [congruence|]. rewrite S.
    assert (Hh : isHTMLElement h1 e = isHTMLElement h e).
    { unfold isHTMLElement. by rewrite K1. }
    rewrite Hh, S1.
    destruct (decide (e = x)) as [->|Hne].
    + destruct (isHTMLElement h x) eqn:Eh.
      * rewrite (decide_True (P := x = x /\ true = true)) by done.
        rewrite (decide_True (P := x ∈ x :: items /\ true = true)) by (split; [by left | done]).
        simpl. rewrite filterMSOStyles_twice. by destruct (decide (x ∈ items /\ true = true)).
      * rewrite !decide_False; [done | by intros [_ ?] | by intros [_ ?] | by intros [_ ?]].
    + rewrite (decide_False (P := e = x /\ _)) by (by intros [? _]).
      destruct (decide (e ∈ items /\ isHTMLElement h e = true)) as [[Hi Hh']|Hno].
      * rewrite decide_True; [done|]. split; [by right | done].
      * rewrite decide_False; [done|]. intros [Hin Hh']. apply Hno. split; [|done].
        apply elem_of_cons in Hin as [?|?]; done.
Qed.

(** X6: what attribute cleanup does to the style attributes, exactly.  Every
    HTML element of the document ends up with a style attribute, the
    filtered text of the one it had, or the empty string if it had none;
    the style attribute of no other node changes. *)
Theorem style_cleanup_exact h doc h' :
  removeMSAttributes h doc = Ok h' ->
  forall e, getAttribute h' e "style" =
    if decide (e ∈ querySelectorAll_any h doc /\ isHTMLElement h e = true)
    then Some (filterMSOStyles (default EmptyString (getAttribute h e "style")))
    else getAttribute h e "style".
Proof.
  unfold removeMSAttributes.
  destruct (fold_left cleanItem _ _) as [h1 u] eqn:E. intros H e.
  apply unwrap_links_only in H. rewrite (links_only_getAttribute _ _ _ _ H).
  by destruct (cleanItems_style_attr _ _ _ _ _ E e).
Qed.

(** The theorem of X6 at a sample document: the paragraph loses its vendor
    property, and the elements without a style attribute get an empty one. *)
Lemma style_cleanup_exact_witness :
  let h' := heapOf (removeMSAttributes docCrimson documentNode) in
  getAttribute h' 4 "style" = Some "crimson-x:1;color:red" /\
  getAttribute docCrimson body "style" = None /\
  getAttribute h' body "style" = Some EmptyString.
Proof.
  intros h'.
  assert (Hrun : removeMSAttributes docCrimson documentNode = Ok h')
    by (vm_compute; reflexivity).
  pose proof (style_cleanup_exact docCrimson documentNode h' Hrun) as G.
  split; [|split].
  - rewrite (G 4%nat). vm_compute; reflexivity.
  - vm_compute; reflexivity.
  - rewrite (G body). vm_compute; reflexivity.
Defined.

(** *** Style strings *)

Lemma trim_fixed x :
  trim x = x -> x <> EmptyString ->
  (exists c r, x = String c r /\ isSpace c = false) /\ trimEnd x = x.
Proof.
  unfold trim. intros H Hne.
  destruct (trimStart_head x) as [E|(c & r & E & Hc)].
  - rewrite E in H. simpl in H. congruence.
  - rewrite E in H. destruct (trimEnd_cons c r) as [(_ & Hc' & _)|E']; [congruence|].
    rewrite E' in H. split; [eauto|].
    rewrite <- H. destruct (trimEnd_cons c (trimEnd r)) as [(_ & Hc' & _)|E2]; [congruence|].
    by rewrite E2, trimEnd_idem.
Qed.

Lemma trimEnd_app a b :
  trimEnd b = b -> b <> EmptyString -> trimEnd (a +:+ b) = a +:+ b.
Proof.
  intros Hb Hne. induction a as [|c a IH]; [by rewrite append_nil|].
  rewrite append_cons. destruct (trimEnd_cons c (a +:+ b)) as [(_ & _ & T)|E].
  - rewrite IH in T. destruct a; rewrite ?append_nil, ?append_cons in T; done.
  - by rewrite E, IH.
Qed.

Lemma trim_app a b :
  trim a = a -> a <> EmptyString -> trimEnd b = b -> b <> EmptyString ->
  trim (a +:+ b) = a +:+ b.
Proof.
  intros Ha Hna Hb Hnb. destruct (trim_fixed a Ha Hna) as [(c & r & -> & Hc) _].
  unfold trim. rewrite append_cons, trimStart_nonspace by done.
  rewrite <- append_cons. by apply trimEnd_app.
Qed.

Lemma splitOn_snoc sep s d :
  noChar sep d = true ->
  splitOn sep (s +:+ String sep d) = (splitOn sep s ++ [d])%list.
Proof.
  intros Hd. induction s as [|c s IH].
  - rewrite append_nil. simpl. rewrite bool_decide_eq_true_2 by done.
    by rewrite splitOn_piece.
  - rewrite append_cons. simpl. rewrite IH. case_bool_decide; [done|].
    destruct (splitOn sep s) as [|p ps] eqn:E; [by destruct (splitOn_nonempty sep s)|done].
Qed.

Lemma convertStyleToObject_snoc s d :
  noChar ";" d = true ->
  convertStyleToObject (s +:+ String ";" d) = addDeclaration (convertStyleToObject s) (trim d).
Proof.
  intros Hd. rewrite !convertStyleToObject_fold, splitOn_snoc by done.
  by rewrite map_app, fold_left_app.
Qed.

Lemma noChar_app sep a b :
  noChar sep (a +:+ b) = noChar sep a && noChar sep b.
Proof.
  unfold noChar. induction a as [|c a IH]; [by rewrite append_nil|].
  rewrite append_cons. simpl. by rewrite IH, andb_assoc.
Qed.

Lemma noChar_cons sep c x :
  noChar sep (String c x) = negb (bool_decide (c = sep)) && noChar sep x.
Proof. reflexivity. Qed.

Lemma addDeclaration_pair m p v tail :
  trimmed p -> p <> "__proto__" -> trimmed v ->
  (tail = EmptyString \/ exists w, tail = String ":" w) ->
  addDeclaration m (p +:+ String ":" (v +:+ tail)) = <[p := v]> m.
Proof.
  intros (Hp & Tp & Cp & _) Hproto (Hv & Tv & Cv & _) Htail. unfold addDeclaration.
  rewrite splitOn_app by done.
  assert (S : exists rest, splitOn ":" (v +:+ tail) = v :: rest).
  { destruct Htail as [->|[w ->]].
    - rewrite append_nil_r. rewrite splitOn_piece by done. eauto.
    - rewrite splitOn_app by done. eauto. }
  destruct S as [rest ->]. simpl. rewrite Tp, Tv.
  unfold str_eqb. rewrite (bool_decide_eq_false_2 _ Hproto).
  destruct p; [done|]. destruct v; [done|]. done.
Qed.

(** X7: the style object of a style string with one more declaration.
    Appending [;p:v] to a style string enters [p] with the value [v] into
    the object of the string, replacing an earlier value of [p], for every
    property name [p] other than [__proto__]; the same holds when the
    declaration goes on with a second colon, what follows that colon being
    dropped from the value. *)
Theorem declaration_appended s p v w :
  trimmed p -> p <> "__proto__" -> trimmed v -> noChar ";" w = true -> trimEnd w = w ->
  convertStyleToObject (s +:+ ";" +:+ p +:+ ":" +:+ v)
    = <[p := v]> (convertStyleToObject s) /\
  convertStyleToObject (s +:+ ";" +:+ p +:+ ":" +:+ v +:+ ":" +:+ w)
    = <[p := v]> (convertStyleToObject s).
Proof.
  intros Hp Hproto Hv Hw Tw.
  pose proof Hp as (Np & Tp & Cp & Sp). pose proof Hv as (Nv & Tv & Cv & Sv).
  destruct (trim_fixed v Tv Nv) as [_ Ev].
  rewrite !append_cons, !append_nil.
  split.
  - rewrite convertStyleToObject_snoc.
    2:{ rewrite noChar_app, noChar_cons, Sp, Sv. reflexivity. }
    rewrite trim_app; [|done..| |done].
    2:{ change (String ":" v) with (String ":" EmptyString +:+ v) at 1.
        rewrite trimEnd_app by done. by rewrite append_cons, append_nil. }
    rewrite <- (append_nil_r v) at 1. apply addDeclaration_pair; auto.
  - rewrite convertStyleToObject_snoc.
    2:{ rewrite noChar_app, noChar_cons, noChar_app, noChar_cons, Sp, Sv, Hw. reflexivity. }
    rewrite trim_app; [|done..| |done].
    2:{ change (String ":" (v +:+ String ":" w))
          with (String ":" EmptyString +:+ (v +:+ String ":" w)).
        rewrite trimEnd_app; [by rewrite append_cons, append_nil| |].
        - destruct w as [|c w'].
          + change (String ":" EmptyString) with (String ":" EmptyString) .
            apply trimEnd_app; [reflexivity | done].
          + change (String ":" (String c w')) with (String ":" EmptyString +:+ String c w').
            rewrite <- append_assoc_s.
            by apply trimEnd_app.
        - destruct v; rewrite ?append_cons, ?append_nil; done. }
    apply addDeclaration_pair; eauto.
Qed.

(** The theorem of X7 at sample style strings. *)
Lemma declaration_appended_witness :
  convertStyleToObject "color:red;color:blue" !! "color" = Some "blue" /\
  convertStyleToObject "color:red;background:url(http://x)" !! "background" = Some "url(http".
Proof.
  assert (T : forall x, x <> EmptyString -> trim x = x -> noChar ":" x = true ->
                        noChar ";" x = true -> trimmed x) by (by intros x ? ? ? ?).
  destruct (declaration_appended "color:red" "color" "blue" EmptyString) as [H1 _].
  { apply T; [discriminate | reflexivity..]. }
  { discriminate. }
  { apply T; [discriminate | reflexivity..]. }
  { reflexivity. }
  { reflexivity. }
  destruct (declaration_appended "color:red" "background" "url(http" "//x)") as [_ H2].
  { apply T; [discriminate | reflexivity..]. }
  { discriminate. }
  { apply T; [discriminate | reflexivity..]. }
  { reflexivity. }
  { reflexivity. }
  split.
  - exact (eq_trans (f_equal (fun m => m !! "color") H1) eq_refl).
  - exact (eq_trans (f_equal (fun m => m !! "background") H2) eq_refl).
Defined.

(** *** The marker spans *)

Lemma parentNode_update_kids p f (h : list node) n :
  parentNode (update p (with_kids f) h) n = parentNode h n.
Proof.
  unfold parentNode. rewrite update_lookup.
  destruct (decide (n = p)) as [->|]; [|done]. by destruct (h !! p).
Qed.

Lemma parentNode_detach h c n :
  parentNode (detach h c) n = if decide (n = c) then None else parentNode h n.
Proof.
  unfold detach. destruct (parentNode h c) as [p|] eqn:E.
  - unfold parentNode at 1. rewrite update_lookup.
    destruct (decide (n = c)) as [->|Hne].
    + by destruct (update p _ h !! c).
    + fold (parentNode (update p (with_kids (remove_ref c)) h) n).
      apply parentNode_update_kids.
  - destruct (decide (n = c)) as [->|]; done.
Qed.

Lemma kids_detach_parent h c p :
  parentNode h c = Some p -> ~ In c (kids (detach h c) p).
Proof.
  intros E. unfold detach. rewrite E. rewrite kids_update_parent.
  unfold kids. rewrite update_lookup. destruct (decide (p = p)); [|done].
  destruct (h !! p) as [nd|]; simpl; [|by intros []].
  unfold remove_ref. intros Hin. apply filter_In in Hin as [_ Hin].
  by rewrite Nat.eqb_refl in Hin.
Qed.

Lemma ignoresMarker_links_only h h' s : links_only h h' -> ignoresMarker h' s = ignoresMarker h s.
Proof. intros L. unfold ignoresMarker. by rewrite (links_only_getAttribute _ _ _ _ L). Qed.

Lemma removeMsoListIgnoreSpans_loop h0 spans : forall h,
  links_only h0 h ->
  exists h',
    fold_left (fun acc span => h' <- acc ;; if ignoresMarker h' span then
         match parentNode h' span with Some p => removeChild h' p span | None => Ok h' end
       else Ok h') spans (Ok h) = Ok h' /\
    links_only h0 h' /\
    (forall n, incl (kids h' n) (kids h n)) /\
    (forall n, parentNode h' n =
               if decide (n ∈ spans /\ ignoresMarker h0 n = true) then None
               else parentNode h n) /\
    (forall s p, s ∈ spans -> ignoresMarker h0 s = true -> parentNode h s = Some p ->
                 ~ In s (kids h' p)).
Proof.
  induction spans as [|x spans IH]; intros h L; cbn [fold_left JS.bind].
  - exists h. split; [done|]. split; [done|]. split; [intros n; apply incl_refl|].
    split; [|by intros s p Hs; apply elem_of_nil in Hs].
    intros n. case_decide as Hd; [|done]. destruct Hd as [Hn _]. by apply elem_of_nil in Hn.
  - rewrite (ignoresMarker_links_only _ _ _ L).
    assert (Hother : forall (h1 : list node) n (o : option nat),
      (ignoresMarker h0 x = true -> n = x -> o = None) ->
      (if decide (n ∈ spans /\ ignoresMarker h0 n = true) then None else o)
      = if decide (n ∈ x :: spans /\ ignoresMarker h0 n = true) then None else o).
    { intros _ n o Hx.
      destruct (decide (n ∈ spans /\ ignoresMarker h0 n = true)) as [[? ?]|Hno].
      - rewrite decide_True; [done|]. split; [by right | done].
      - destruct (decide (n ∈ x :: spans /\ ignoresMarker h0 n = true)) as [[Hin Hm]|]; [|done].
        apply elem_of_cons in Hin as [->|Hin]; [by apply Hx | by destruct Hno]. }
    destruct (ignoresMarker h0 x) eqn:Ex.
    + destruct (parentNode h x) as [p|] eqn:Ep.
      * assert (R : removeChild h p x = Ok (detach h x)).
        { unfold removeChild, isChildOf. by rewrite Ep, Nat.eqb_refl. }
        rewrite R.
        destruct (IH (detach h x)) as (h' & F & L' & K & P & Q).
        { eapply links_only_trans; [exact L | apply detach_links_only]. }
        exists h'. split; [done|]. split; [done|].
        split; [intros n; eapply incl_tran; [apply K | apply kids_detach]|].
        split.
        { intros n. rewrite P, parentNode_detach.
          destruct (decide (n = x)) as [->|Hne].
          - rewrite (Hother h x None) by done.
            by destruct (decide (x ∈ x :: spans /\ ignoresMarker h0 x = true)) as [|[]];
              [|split; [left|]].
          - apply (Hother h). intros _ ?. done. }
        intros s q Hs Hm Hq.
        destruct (decide (s = x)) as [->|Hne].
        -- rewrite Ep in Hq. injection Hq as <-. intros Hin. apply K in Hin.
           by apply (kids_detach_parent h x p).
        -- apply elem_of_cons in Hs as [?|Hs]; [done|].
           apply Q; [done..|]. rewrite parentNode_detach. by rewrite decide_False.
      * destruct (IH h L) as (h' & F & L' & K & P & Q).
        exists h'. split; [done|]. split; [done|]. split; [done|].
        split.
        { intros n. rewrite P. apply (Hother h). by intros _ ->. }
        intros s q Hs Hm Hq. apply elem_of_cons in Hs as [->|Hs]; [congruence|]. by apply Q.
    + destruct (IH h L) as (h' & F & L' & K & P & Q).
      exists h'. split; [done|]. split; [done|]. split; [done|].
      split.
      { intros n. rewrite P. apply (Hother h). done. }
      intros s q Hs Hm Hq. apply elem_of_cons in Hs as [->|Hs]; [congruence|]. by apply Q.
Qed.

(** X8: [removeMsoListIgnoreSpans] never throws.  It returns a tree in
    which every span below the element whose style attribute contains
    [mso-list:Ignore] has no parent and is gone from the children of the
    parent it had; every other node keeps its parent, and no node changes
    its kind or its attributes. *)
Theorem marker_spans_removed h parentElement :
  exists h',
    removeMsoListIgnoreSpans h parentElement = Ok h' /\
    links_only h h' /\
    (forall n, parentNode h' n =
               if decide (n ∈ querySelectorAll_tag h "span" parentElement
                          /\ ignoresMarker h n = true)
               then None else parentNode h n) /\
    (forall s p, s ∈ querySelectorAll_tag h "span" parentElement ->
                 ignoresMarker h s = true -> parentNode h s = Some p ->
                 ~ In s (kids h' p)).
Proof.
  unfold removeMsoListIgnoreSpans.
  destruct (removeMsoListIgnoreSpans_loop h (querySelectorAll_tag h "span" parentElement) h)
    as (h' & F & L & _ & P & Q); [apply links_only_refl|].
  exists h'. done.
Qed.

(** *** The continuation check *)

Lemma candidate_of_item h doc items it :
  findAllItemLikeElements h doc = Ok items -> In it items ->
  isCandidate h (element it) = true /\
  itemData it = getListItemData (styleOf h (element it)).
Proof.
  intros Hfind Hin. destruct (findAllItemLikeElements_filter h doc) as (items' & E & M & F).
  rewrite Hfind in E. injection E as <-. split.
  - assert (Hm : In (element it) (List.map element items)) by (by apply in_map).
    rewrite M in Hm. by apply filter_In in Hm as [_ ?].
  - rewrite Forall_forall in F. by apply F, list_elem_of_In.
Qed.

Lemma isList_element h e :
  isElement h e = true -> exists b, isList h (Some e) = Ok b.
Proof.
  unfold isElement, isList, tagName. destruct (kindOf h e) as [[name [|]| | |]|]; try done; eauto.
Qed.

(** X9: when the continuation check throws.  For a candidate of the
    document, [isListContinuation] throws exactly when the candidate has a
    previous sibling that is not an element (a text node or a comment); in
    every other case it returns a boolean. *)
Theorem continuation_check_throws_iff h doc items it :
  findAllItemLikeElements h doc = Ok items -> In it items ->
  (is_ok (isListContinuation h it) = false <->
   exists prev, previousSibling h (element it) = Some prev /\ isElement h prev = false).
Proof.
  intros Hfind Hin. destruct (candidate_of_item _ _ _ _ Hfind Hin) as [Hc _].
  unfold isCandidate in Hc. apply andb_true_iff in Hc as [_ Hp].
  unfold isListContinuation.
  destruct (previousSibling h (element it)) as [prev|].
  - destruct (isElement h prev) eqn:E.
    + destruct (isList_element _ _ E) as [b ->]. simpl. split; [done|].
      intros (q & [= <-] & ?). congruence.
    + assert (T : tagName h prev = None).
      { unfold tagName. unfold isElement in E. by destruct (kindOf h prev) as [[]|]. }
      unfold isList. rewrite T. simpl. split; [eauto | done].
  - destruct (parentElement h (element it)) as [p|] eqn:Ep; [|done].
    apply parentElement_tagName in Ep as [t Et]. unfold isList. rewrite Et. simpl.
    split; [done|]. by intros (q & ? & _).
Qed.

(** The theorem of X9 at a sample document. *)
Lemma continuation_check_throws_iff_witness :
  is_ok (isListContinuation docTextSibling (item_at docTextSibling 0)) = false /\
  is_ok (isListContinuation docResume (item_at docResume 0)) = true.
Proof.
  assert (F1 : findAllItemLikeElements docTextSibling documentNode = Ok (items docTextSibling))
    by (vm_compute; reflexivity).
  assert (I1 : In (item_at docTextSibling 0) (items docTextSibling)) by (vm_compute; left; reflexivity).
  assert (F2 : findAllItemLikeElements docResume documentNode = Ok (items docResume))
    by (vm_compute; reflexivity).
  assert (I2 : In (item_at docResume 0) (items docResume)) by (vm_compute; left; reflexivity).
  pose proof (continuation_check_throws_iff _ _ _ _ F1 I1) as [_ T1].
  pose proof (continuation_check_throws_iff _ _ _ _ F2 I2) as [T2 _].
  split.
  - apply T1. exists 6%nat. split; vm_compute; reflexivity.
  - destruct (is_ok (isListContinuation docResume (item_at docResume 0))); [reflexivity|].
    destruct (T2 eq_refl) as (prev & Hp & _). vm_compute in Hp. discriminate Hp.
Defined.

(** *** Numbers as text *)

Lemma code_digit_char d : 0 <= d < 10 -> code (digit_char d) = 48 + d.
Proof.
  intros Hd. unfold code, digit_char, chr. rewrite nat_ascii_embedding by lia. lia.
Qed.

Lemma digit_roundtrip d : 0 <= d < 10 -> digit_value (digit_char d) = d.
Proof. intros Hd. unfold digit_value. rewrite code_digit_char by done. lia. Qed.

Lemma isDigit_digit_char d : 0 <= d < 10 -> isDigit (digit_char d) = true.
Proof.
  intros Hd. unfold isDigit. rewrite code_digit_char by done.
  apply andb_true_iff. split; lia.
Qed.

Lemma forall_string_app p a b :
  forall_string p (a +:+ b) = forall_string p a && forall_string p b.
Proof.
  induction a as [|c a IH]; [by rewrite append_nil|].
  rewrite append_cons. simpl. by rewrite IH, andb_assoc.
Qed.

Lemma parse_from_app a b : forall acc,
  parse_from acc (a +:+ b) = parse_from (parse_from acc a) b.
Proof.
  induction a as [|c a IH]; intros acc; [by rewrite append_nil|].
  rewrite append_cons. simpl. apply IH.
Qed.

Lemma pos_digits_parse fuel : forall z acc,
  0 <= z < 10 ^ Z.of_nat (S fuel) ->
  exists pre, pos_digits (S fuel) z acc = pre +:+ acc /\
              forall_string isDigit pre = true /\ parse_from 0 pre = z.
Proof.
  induction fuel as [|fuel IH]; intros z acc Hz.
  - exists (String (digit_char (z mod 10)) EmptyString).
    change (10 ^ Z.of_nat 1) with 10 in Hz.
    simpl pos_digits. destruct (Z.ltb_spec z 10) as [Hlt|Hge]; [|lia].
    rewrite Z.mod_small by lia. split; [done|].
    split; [simpl; by rewrite isDigit_digit_char by lia|].
    simpl; rewrite digit_roundtrip by lia; lia.
  - change (pos_digits (S (S fuel)) z acc)
      with (let acc' := String (digit_char (z mod 10)) acc in
            if z <? 10 then acc' else pos_digits (S fuel) (z / 10) acc').
    cbv zeta. destruct (Z.ltb_spec z 10) as [Hlt|Hge].
    + exists (String (digit_char (z mod 10)) EmptyString).
      rewrite Z.mod_small by lia. split; [done|].
      split; [simpl; by rewrite isDigit_digit_char by lia|].
      simpl; rewrite digit_roundtrip by lia; lia.
    + destruct (IH (z / 10) (String (digit_char (z mod 10)) acc)) as (pre & E & D & P).
      { split; [apply Z.div_pos; lia|]. apply Z.div_lt_upper_bound; [lia|].
        rewrite (Nat2Z.inj_succ (S fuel)), Z.pow_succ_r in Hz by lia. lia. }
      exists (pre +:+ String (digit_char (z mod 10)) EmptyString).
      rewrite E. split; [by rewrite append_assoc_s|].
      assert (Hm : 0 <= z mod 10 < 10) by (apply Z.mod_pos_bound; lia).
      split; [rewrite forall_string_app, D; simpl; by rewrite isDigit_digit_char|].
      rewrite parse_from_app, P. simpl. rewrite digit_roundtrip by done.
      pose proof (Z.div_mod z 10). lia.
Qed.

Lemma toString_parse n :
  0 <= n -> forall_string isDigit (toString n) = true /\ parseInt_digits (toString n) = n.
Proof.
  intros Hn. unfold toString. destruct (Z.ltb_spec n 0) as [|_]; [lia|].
  rewrite Nat.add_1_r.
  destruct (pos_digits_parse (Z.to_nat (Z.log2 n)) n EmptyString) as (pre & E & D & P).
  { split; [done|]. rewrite Nat2Z.inj_succ, Z2Nat.id by apply Z.log2_nonneg.
    rewrite <- Z.add_1_r.
    destruct (Z.eq_dec n 0) as [->|Hne]; [done|].
    assert (n < 2 ^ (Z.log2 n + 1)).
    { pose proof (Z.log2_spec n). rewrite <- Z.add_1_r in *. lia. }
    assert (2 ^ (Z.log2 n + 1) <= 10 ^ (Z.log2 n + 1)).
    { apply Z.pow_le_mono_l. lia. }
    lia. }
  rewrite E, append_nil_r. split; [done|]. exact P.
Qed.

(** *** The list container *)

Lemma update_attrs_links n f (h : list node) m :
  parentNode (update n (with_attrs f) h) m = parentNode h m /\
  kids (update n (with_attrs f) h) m = kids h m.
Proof.
  unfold parentNode, kids. rewrite update_lookup.
  destruct (decide (m = n)) as [->|]; [|done]. by destruct (h !! n).
Qed.

Lemma set_classList_links h n l m :
  parentNode (set_classList h n l) m = parentNode h m /\
  kids (set_classList h n l) m = kids h m /\
  kindOf (set_classList h n l) m = kindOf h m /\
  length (set_classList h n l) = length h /\
  forall k, k <> "class" -> getAttribute (set_classList h n l) m k = getAttribute h m k.
Proof.
  unfold set_classList.
  assert (G : forall v, parentNode (setAttribute h n "class" v) m = parentNode h m /\
    kids (setAttribute h n "class" v) m = kids h m /\
    kindOf (setAttribute h n "class" v) m = kindOf h m /\
    length (setAttribute h n "class" v) = length h /\
    forall k, k <> "class" -> getAttribute (setAttribute h n "class" v) m k = getAttribute h m k).
  { intros v. destruct (update_attrs_links n (set_assoc "class" v) h m) as [P K].
    split; [exact P|]. split; [exact K|]. split; [apply kindOf_setAttribute|].
    split; [apply length_setAttribute|]. intros k Hk. rewrite getAttribute_setAttribute.
    rewrite decide_False; [done|]. intros (_ & ? & _). done. }
  destruct (getAttribute h n "class"); [apply G|]. destruct l; [done | apply G].
Qed.

Lemma setAttribute_tree h n k v m :
  parentNode (setAttribute h n k v) m = parentNode h m /\
  kids (setAttribute h n k v) m = kids h m.
Proof. apply update_attrs_links. Qed.

Lemma style_setProperty_tree h n k v m :
  parentNode (style_setProperty h n k v) m = parentNode h m /\
  kids (style_setProperty h n k v) m = kids h m.
Proof.
  unfold style_setProperty.
  destruct (getAttribute h n "style") as [[|]|]; apply setAttribute_tree.
Qed.

Lemma createNewEmptyList_node h ls h1 l :
  createNewEmptyList h ls false = (h1, l) ->
  parentNode h1 l = None /\ kids h1 l = [].
Proof.
  unfold createNewEmptyList, createElement. rewrite andb_false_r.
  set (n0 := Node (Element (toLowerCase (type ls)) true) [] None []).
  set (h0 := (h ++ [n0])%list).
  assert (E0 : parentNode h0 (length h) = None /\ kids h0 (length h) = []).
  { unfold parentNode, kids, h0. by rewrite list_lookup_middle. }
  set (h2 := match style ls with
             | Some st => style_setProperty h0 (length h) "list-style-type" st
             | None => h0 end).
  assert (E2 : parentNode h2 (length h) = None /\ kids h2 (length h) = []).
  { unfold h2. destruct (style ls) as [st|]; [|done].
    by destruct (style_setProperty_tree h0 (length h) "list-style-type" st (length h))
      as [-> ->]. }
  destruct (startIndex ls) as [n|]; [|by intros [= <- <-]].
  destruct (negb (n =? 0) && (n >? 1)); [|by intros [= <- <-]].
  intros [= <- <-].
  by destruct (setAttribute_tree h2 (length h) "start" (toString n) (length h)) as [-> ->].
Qed.

Lemma createNewEmptyList_flag h ls flag :
  createNewEmptyList h ls flag =
  let '(h3, l) := createNewEmptyList h ls false in
  (if isLegalStyleList ls && flag then classList_add h3 l "legal-list" else h3, l).
Proof.
  unfold createNewEmptyList. destruct (createElement h (type ls)) as [h1 l].
  by rewrite andb_false_r.
Qed.

Lemma set_classList_other h n l m : m <> n -> set_classList h n l !! m = h !! m.
Proof.
  intros Hne. unfold set_classList.
  destruct (getAttribute h n "class"); [by apply setAttribute_links|].
  destruct l; [done | by apply setAttribute_links].
Qed.

(** X10: the list container that [createNewEmptyList] makes.  It is a new
    element, the nodes that were there being left as they are; its tag is
    the type of the resolved style, it has no parent and no children; it
    has a [start] attribute exactly when the start index is above 1, and
    the attribute is then a digit string that reads back as the start
    index; it carries the class [legal-list] exactly when the style is a
    legal-style list and the multi-level flag is set, and no class
    otherwise. *)
Theorem new_list_container h ls flag h1 l :
  createNewEmptyList h ls flag = (h1, l) ->
  l = length h /\ preserves h h1 /\
  tagName h1 l = Some (toUpperAscii (toLowerCase (type ls))) /\
  parentNode h1 l = None /\ kids h1 l = [] /\
  getAttribute h1 l "start" = startAttr ls /\
  (forall n, startIndex ls = Some n -> 1 < n ->
     exists t, getAttribute h1 l "start" = Some t /\
               forall_string isDigit t = true /\ parseInt_digits t = n) /\
  classList h1 l = if isLegalStyleList ls && flag then ["legal-list"] else [].
Proof.
  rewrite createNewEmptyList_flag.
  destruct (createNewEmptyList h ls false) as [h3 l3] eqn:E. intros [= <- <-].
  destruct (createNewEmptyList_spec _ _ _ _ E) as (-> & L3 & P3 & K3 & S3 & C3).
  destruct (createNewEmptyList_node _ _ _ _ E) as [Par Kid].
  assert (G : forall h4,
    (h4 = h3 \/ h4 = classList_add h3 (length h) "legal-list") ->
    preserves h h4 /\
    tagName h4 (length h) = Some (toUpperAscii (toLowerCase (type ls))) /\
    parentNode h4 (length h) = None /\ kids h4 (length h) = [] /\
    getAttribute h4 (length h) "start" = startAttr ls).
  { intros h4 [->| ->].
    - split; [done|]. unfold tagName. by rewrite K3.
    - unfold classList_add.
      set (cl := if existsb _ _ then _ else _).
      destruct (set_classList_links h3 (length h) cl (length h)) as (P & K & Kd & Ln & A).
      split.
      { destruct P3 as [Hl Hp]. split; [lia|]. intros n Hn.
        rewrite set_classList_other by lia. by apply Hp. }
      split; [unfold tagName; by rewrite Kd, K3|].
      split; [congruence|]. split; [congruence|]. by rewrite A. }
  assert (Hstart : forall h4, getAttribute h4 (length h) "start" = startAttr ls ->
    forall n, startIndex ls = Some n -> 1 < n ->
     exists t, getAttribute h4 (length h) "start" = Some t /\
               forall_string isDigit t = true /\ parseInt_digits t = n).
  { intros h4 Hs n Hn Hgt. exists (toString n). rewrite Hs. unfold startAttr. rewrite Hn.
    destruct (Z.ltb_spec 1 n); [|lia]. split; [done|]. apply toString_parse. lia. }
  split; [done|].
  destruct (isLegalStyleList ls && flag).
  - destruct (G (classList_add h3 (length h) "legal-list")) as (A & B & C & D & F); [by right|].
    split; [done|]. split; [done|]. split; [done|]. split; [done|]. split; [done|].
    split; [by apply Hstart|].
    assert (Hc : classList h3 (length h) = []) by (unfold classList; by rewrite C3).
    unfold classList_add. rewrite Hc. cbn [existsb app].
    rewrite classList_set.
    + by rewrite decide_True.
    + constructor; [|constructor]. split; [reflexivity | discriminate].
    + constructor; [|constructor]. by intros [].
    + intros Hn. exfalso. unfold kindOf in K3. by rewrite Hn in K3.
  - destruct (G h3) as (A & B & C & D & F); [by left|].
    split; [done|]. split; [done|]. split; [done|]. split; [done|]. split; [done|].
    split; [by apply Hstart|].
    unfold classList. by rewrite C3.
Qed.

(** The theorem of X10 at a sample style. *)
Lemma new_list_container_witness :
  let '(h1, l) := createNewEmptyList docResume ls5 false in
  tagName h1 l = Some "OL" /\ getAttribute h1 l "start" = Some "5" /\
  parseInt_digits "5" = 5 /\ classList h1 l = [].
Proof.
  destruct (createNewEmptyList docResume ls5 false) as [h1 l] eqn:E.
  destruct (new_list_container docResume ls5 false h1 l E)
    as (_ & _ & T & _ & _ & S & _ & C).
  split; [exact T|]. split; [exact S|]. split; [reflexivity | exact C].
Defined.

(** *** What a match has read *)

Section Sound.
Context {R : Type}.
Variable icase : bool.

Lemma rep_loop_calls_same (m : @matcher R) k :
  calls_same m ->
  forall fuel lo hi prev s cs (x : R),
    rep_loop m k fuel lo hi prev s cs = Some x -> exists p' s', k p' s' cs = Some x.
Proof.
  intros Hm. induction fuel as [|fuel IH]; intros lo hi prev s cs x; simpl; [done|].
  assert (G : match m prev s cs
                (fun p' s' cs' =>
                   if Nat.eqb lo 0 && Nat.eqb (String.length s') (String.length s)
                   then None
                   else rep_loop m k fuel (Nat.pred lo) (Nat.pred <$> hi) p' s' cs')
              with Some x => Some x
              | None => match lo with O => k prev s cs | S _ => None end
              end = Some x -> exists p' s', k p' s' cs = Some x).
  { destruct (m prev s cs _) as [y|] eqn:E.
    - intros [= ->]. apply Hm in E as (p' & s' & E).
      destruct (_ && _); [done|]. by eapply IH.
    - destruct lo; [eauto | done]. }
  destruct hi as [[|n]|]; [eauto | exact G | exact G].
Qed.

Lemma run_groupless r : groupless r = true -> calls_same (R := R) (run icase r).
Proof.
  induction r as [| c | p | r1 IH1 r2 IH2 | r1 IH1 r2 IH2 | lo hi r1 IH | i r1 IH | | ];
    intros G prev s cs k x; simpl in G.
  - simpl. eauto.
  - simpl. destruct s as [|d s']; [done|]. destruct (chr_matches _ _ _); [eauto | done].
  - simpl. destruct s as [|d s']; [done|]. destruct (p d); [eauto | done].
  - apply andb_true_iff in G as [G1 G2]. simpl. intros H.
    apply (IH1 G1) in H as (p' & s' & H). by apply (IH2 G2) in H.
  - apply andb_true_iff in G as [G1 G2]. simpl.
    destruct (run icase r1 prev s cs k) eqn:E.
    + intros [= ->]. by apply (IH1 G1) in E.
    + by apply IH2.
  - intros H. eapply rep_loop_calls_same; [exact (IH G) | exact H].
  - done.
  - simpl. destruct prev; [done | eauto].
  - simpl. destruct (xorb _ _); [eauto | done].
Qed.

(** A repeated character class reads a word of the class, of at least the
    least number of characters, and goes on behind it. *)
Lemma rep_cls_sound (p : ascii -> bool) (k : @cont R) :
  forall fuel lo hi prev s cs x,
    match hi with Some n => (lo <= n)%nat | None => True end ->
    rep_loop (run icase (Cls p)) k fuel lo hi prev s cs = Some x ->
    exists w rest, s = w +:+ rest /\ forall_string p w = true /\
                   (lo <= String.length w)%nat /\
                   match hi with Some n => (String.length w <= n)%nat | None => True end /\
                   k (lastOr prev w) rest cs = Some x.
Proof.
  set (m := run icase (Cls p)).
  assert (Hm : forall prev d s cs (k' : @cont R),
             m prev (String d s) cs k' = if p d then k' (Some d) s cs else None) by done.
  assert (Hm0 : forall prev cs (k' : @cont R), m prev EmptyString cs k' = None) by done.
  clearbody m.
  induction fuel as [|fuel IH]; intros lo hi prev s cs x Hhi; [done|].
  cbn [rep_loop].
  assert (Stop : lo = 0%nat -> k prev s cs = Some x ->
                 exists w rest, s = w +:+ rest /\ forall_string p w = true /\
                   (lo <= String.length w)%nat /\
                   match hi with Some n => (String.length w <= n)%nat | None => True end /\
                   k (lastOr prev w) rest cs = Some x).
  { intros -> Hk. exists EmptyString, s. rewrite append_nil. simpl.
    split_and!; [done | done | done | destruct hi; [simpl; lia | done] | done]. }
  assert (G : (hi <> Some 0%nat) ->
              match m prev s cs
                (fun p' s' cs' =>
                   if Nat.eqb lo 0 && Nat.eqb (String.length s') (String.length s)
                   then None
                   else rep_loop m k fuel (Nat.pred lo) (Nat.pred <$> hi) p' s' cs')
              with Some x => Some x
              | None => match lo with O => k prev s cs | S _ => None end
              end = Some x ->
              exists w rest, s = w +:+ rest /\ forall_string p w = true /\
                   (lo <= String.length w)%nat /\
                   match hi with Some n => (String.length w <= n)%nat | None => True end /\
                   k (lastOr prev w) rest cs = Some x).
  { intros Hnz. destruct s as [|d s'].
    - rewrite Hm0. destruct lo; [by apply Stop | done].
    - rewrite Hm. destruct (p d) eqn:Hd.
      + replace (Nat.eqb (String.length s') (String.length (String d s'))) with false
          by (symmetry; apply Nat.eqb_neq; simpl; lia).
        rewrite andb_false_r.
        destruct (rep_loop m k fuel (Nat.pred lo) (Nat.pred <$> hi) (Some d) s' cs)
          as [y|] eqn:E.
        * intros [= ->]. apply IH in E as (w & rest & -> & Hw & Hl & Hh & Hk).
          2:{ destruct hi as [n|]; simpl; [lia | done]. }
          exists (String d w), rest. rewrite append_cons. split; [done|].
          split; [simpl; by rewrite Hd|]. split; [simpl; lia|].
          split; [|done]. destruct hi as [[|n]|]; simpl in *; [done | lia | done].
        * destruct lo; [by apply Stop | done].
      + destruct lo; [by apply Stop | done]. }
  destruct hi as [[|n]|]; [|by apply G | by apply G].
  intros Hk. apply Stop; [lia | done].
Qed.

(** The same inside a capturing group: the group holds the word. *)
Lemma grp_cls_sound i (p : ascii -> bool) lo hi (k : @cont R) prev s cs x :
  match hi with Some n => (lo <= n)%nat | None => True end ->
  run icase (Grp i (Rep lo hi (Cls p))) prev s cs k = Some x ->
  exists w rest, s = w +:+ rest /\ forall_string p w = true /\
                 (lo <= String.length w)%nat /\
                 match hi with Some n => (String.length w <= n)%nat | None => True end /\
                 k (lastOr prev w) rest ((i, w) :: cs) = Some x.
Proof.
  intros Hhi H. cbn [run] in H.
  apply rep_cls_sound in H as (w & rest & -> & Hw & Hl & Hh & Hk); [|done].
  rewrite substring0_app in Hk. eauto 10.
Qed.

End Sound.

(** *** The list data of a style *)

Lemma digits_of_length w : forall_string isDigit w = true -> (1 <= String.length w)%nat -> digits w.
Proof. intros Hw Hl. split; [|done]. by destruct w; [simpl in Hl; lia|]. Qed.

Lemma parse_from_nonneg w : forall acc,
  forall_string isDigit w = true -> 0 <= acc -> 0 <= parse_from acc w.
Proof.
  induction w as [|c w IH]; intros acc Hw Hacc; [done|]. simpl in *.
  apply andb_true_iff in Hw as [Hc Hw]. apply IH; [done|].
  unfold isDigit in Hc. apply andb_true_iff in Hc as [Hc _]. unfold digit_value. lia.
Qed.

Lemma run_seq {R} icase a b prev s cs (k : @cont R) :
  run icase (Seq a b) prev s cs k
  = run icase a prev s cs (fun p' s' cs' => run icase b p' s' cs' k).
Proof. reflexivity. Qed.

Lemma digit_group_tail icase i prev s cs rest cs' :
  run icase (Grp i (plus digit)) prev s cs (fun _ s' cs => Some (s', cs)) = Some (rest, cs') ->
  exists w, cs' = (i, w) :: cs /\ digits w.
Proof.
  intros H.
  apply (grp_cls_sound icase i isDigit 1 None) in H as (w & r & -> & Hw & Hl & _ & H); [|done].
  injection H as _ <-. exists w. split; [done|]. by apply digits_of_length.
Qed.

Lemma orderRegex_captured s m cs :
  exec true orderRegex s = Some (m, cs) -> exists w, capture 1 cs = Some w /\ digits w.
Proof.
  intros H. apply exec_from_inv in H as (prev & s' & rest & H).
  unfold match_here, orderRegex in H. cbn [seqs] in H. rewrite run_seq in H.
  apply (run_groupless true (upto 0 100 space) eq_refl) in H as (p1 & s1 & H).
  rewrite run_seq in H.
  apply (run_groupless true (lit "lfo") eq_refl) in H as (p2 & s2 & H).
  apply digit_group_tail in H as (w & -> & Hw). by exists w.
Qed.

Lemma indentRegex_captured s m cs :
  exec true indentRegex s = Some (m, cs) -> exists w, capture 1 cs = Some w /\ digits w.
Proof.
  intros H. apply exec_from_inv in H as (prev & s' & rest & H).
  unfold match_here, indentRegex in H. cbn [seqs] in H. rewrite run_seq in H.
  apply (run_groupless true (upto 0 100 space) eq_refl) in H as (p1 & s1 & H).
  rewrite run_seq in H.
  apply (run_groupless true (lit "level") eq_refl) in H as (p2 & s2 & H).
  apply digit_group_tail in H as (w & -> & Hw). by exists w.
Qed.

Lemma idRegex_captured s m cs :
  exec true idRegex s = Some (m, cs) -> exists w, capture 2 cs = Some w /\ digits w.
Proof.
  intros H. apply exec_from_inv in H as (prev & s' & rest & H).
  unfold match_here, idRegex in H. cbn [seqs] in H. rewrite run_seq in H.
  apply run_calls in H as (p1 & s1 & cs1 & H). rewrite run_seq in H.
  apply run_calls in H as (p2 & s2 & cs2 & H).
  apply digit_group_tail in H as (w & -> & Hw). by exists w.
Qed.

(** X11: the three shapes of the list data.  Without an [mso-list] property
    there is no data at all; when the property lacks the list id, the level
    or the order, the data is the fallback with indent 1 and no id; else the
    id and the order are strings of decimal digits and the indent is the
    level read from digits, so that it is not negative. *)
Theorem list_item_data_shape styles :
  (styles !! "mso-list" = None /\
   getListItemData styles = {| id := None; order := None; indent := None |}) \/
  (is_Some (styles !! "mso-list") /\
   getListItemData styles = {| id := None; order := None; indent := Some 1 |}) \/
  (is_Some (styles !! "mso-list") /\
   exists i o n, getListItemData styles = {| id := Some i; order := Some o; indent := Some n |}
                 /\ digits i /\ digits o /\ 0 <= n).
Proof.
  unfold getListItemData. destruct (styles !! "mso-list") as [listStyle|]; [right | by left].
  destruct (exec true idRegex listStyle) as [[m1 c1]|] eqn:E1; [|left; eauto].
  destruct (exec true orderRegex listStyle) as [[m2 c2]|] eqn:E2; [|left; eauto].
  destruct (exec true indentRegex listStyle) as [[m3 c3]|] eqn:E3; [|left; eauto].
  right. split; [eauto|].
  apply idRegex_captured in E1 as (i & -> & Hi).
  apply orderRegex_captured in E2 as (o & -> & Ho).
  apply indentRegex_captured in E3 as (n & -> & Hn).
  exists i, o, (parseInt_digits n). split; [done|]. split; [done|]. split; [done|].
  destruct Hn as [_ Hn]. by apply (parse_from_nonneg n 0).
Qed.

(** *** Reading the list data that Word writes *)

Lemma exec_from_fail icase r prev c t :
  match_here icase r prev (String c t) = None ->
  exec_from icase r prev (String c t) = exec_from icase r (Some c) t.
Proof. intros H. simpl. by rewrite H. Qed.

Lemma exec_from_here icase r prev s rest cs :
  match_here icase r prev s = Some (rest, cs) ->
  exec_from icase r prev s = Some (substring0 (String.length s - String.length rest) s, cs).
Proof. intros H. destruct s; simpl; by rewrite H. Qed.

Section Spaces.
Context {R : Type} (icase : bool) (k : @cont R).

(** Optional white space in front of something that is not white space. *)
Lemma upto_space_none hi prev t cs :
  stopsAt isSpace t ->
  run icase (upto 0 hi space) prev t cs k = k prev t cs.
Proof.
  intros Ht. unfold upto, space. cbn [run rep_loop].
  destruct hi as [|hi]; [done|].
  destruct t as [|c t]; [by destruct (k prev EmptyString cs)|].
  simpl in Ht. cbn [run]. by rewrite Ht.
Qed.

(** One white-space character in front of something that is not: the
    expression first takes the character, then tries without it. *)
Lemma upto_space_one hi prev t cs :
  stopsAt isSpace t ->
  run icase (upto 0 (S (S hi)) space) prev (String " " t) cs k =
  match k (Some " "%char) t cs with
  | Some x => Some x
  | None => k prev (String " " t) cs
  end.
Proof.
  intros Ht. unfold upto, space. cbn [run rep_loop].
  change (isSpace " ") with true. cbn iota.
  replace (Nat.eqb (String.length t) (String.length (String " " t))) with false
    by (symmetry; apply Nat.eqb_neq; simpl; lia).
  cbn [andb Nat.eqb]. cbn [Nat.add String.length rep_loop Nat.pred fmap option_fmap option_map].
  destruct t as [|c t].
  - cbn [run]. by destruct (k (Some " "%char) EmptyString cs).
  - simpl in Ht. cbn [run]. rewrite Ht. by destruct (k (Some " "%char) (String c t) cs).
Qed.
End Spaces.

Lemma digit_not_space c : isDigit c = true -> isSpace c = false.
Proof. destruct c as [[] [] [] [] [] [] [] []]; vm_compute; congruence. Qed.

Lemma digit_not_letter c a :
  isDigit c = true -> isDigit a = false -> isLowerAscii a = true -> chr_matches true a c = false.
Proof.
  intros Hc Ha Hl. unfold chr_matches. apply bool_decide_eq_false. intros E.
  assert (Hu : isDigit (upper_ascii c) = true).
  { clear -Hc. destruct c as [[] [] [] [] [] [] [] []]; vm_compute in Hc |- *; congruence. }
  rewrite <- E in Hu.
  clear -Hu Hl. destruct a as [[] [] [] [] [] [] [] []]; vm_compute in Hu, Hl; congruence.
Qed.

Lemma grp_digits_greedy {R} icase i w rest prev cs (k : @cont R) x :
  digits w -> stopsAt isDigit rest ->
  k (lastOr prev w) rest ((i, w) :: cs) = Some x ->
  run icase (Grp i (plus digit)) prev (w +:+ rest) cs k = Some x.
Proof.
  intros [Hne Hw] Hrest Hk. unfold plus, digit. cbn [run].
  apply (rep_cls_greedy icase isDigit _ w); try done.
  - destruct w; [done | simpl; lia].
  - rewrite length_append. lia.
  - by rewrite substring0_app.
Qed.

Lemma exec_from_skip icase r w rest :
  (forall prev c t, isDigit c = true -> match_here icase r prev (String c t) = None) ->
  forall_string isDigit w = true ->
  forall prev, exec_from icase r prev (w +:+ rest) = exec_from icase r (lastOr prev w) rest.
Proof.
  intros Hfail. induction w as [|c w IH]; intros Hw prev; [by rewrite append_nil|].
  simpl in Hw. apply andb_true_iff in Hw as [Hc Hw].
  rewrite append_cons, exec_from_fail by (by apply Hfail). by apply IH.
Qed.

Section Keyword.
(** The expressions for the order and for the level: optional white space,
    a keyword, a group of digits. *)
Variable word : string.
Let r : regex := Seq (upto 0 100 space) (Seq (lit word) (Grp 1 (plus digit))).

Lemma keyword_here prev t :
  stopsAt isSpace t ->
  match_here true r prev t = run true (Seq (lit word) (Grp 1 (plus digit))) prev t []
                                 (fun _ s' cs => Some (s', cs)).
Proof.
  intros Ht. unfold match_here, r. rewrite run_seq. by rewrite upto_space_none.
Qed.

Lemma keyword_after_space prev t :
  stopsAt isSpace t ->
  match_here true r prev (String " " t) =
  match run true (Seq (lit word) (Grp 1 (plus digit))) (Some " "%char) t []
              (fun _ s' cs => Some (s', cs)) with
  | Some x => Some x
  | None => run true (Seq (lit word) (Grp 1 (plus digit))) prev (String " " t) []
                (fun _ s' cs => Some (s', cs))
  end.
Proof.
  intros Ht. unfold match_here, r. rewrite run_seq.
  by rewrite (upto_space_one true _ 98 prev t [] Ht).
Qed.
End Keyword.

Lemma lit_head_fail {R} icase a w (g : regex) prev c t cs (k : @cont R) :
  chr_matches icase a c = false ->
  run icase (Seq (lit (String a w)) g) prev (String c t) cs k = None.
Proof.
  intros H. rewrite run_seq. destruct w as [|b w]; cbn [lit run]; by rewrite H.
Qed.

Lemma lit_second_fail {R} icase a b w (g : regex) prev c d t cs (k : @cont R) :
  chr_matches icase b d = false ->
  run icase (Seq (lit (String a (String b w))) g) prev (String c (String d t)) cs k = None.
Proof.
  intros H. rewrite run_seq. cbn [lit run]. destruct (chr_matches icase a c); [|done].
  destruct w as [|e w]; cbn [lit run]; by rewrite H.
Qed.

Lemma digits_head w : digits w -> exists d w', w = String d w' /\ isDigit d = true /\ forall_string isDigit w' = true.
Proof.
  intros [Hne Hw]. destruct w as [|d w']; [done|]. simpl in Hw.
  apply andb_true_iff in Hw as [? ?]. eauto.
Qed.

Lemma keyword_fail_digit word0 a prev c t :
  isDigit a = false -> isLowerAscii a = true -> isDigit c = true ->
  match_here true (Seq (upto 0 100 space) (Seq (lit (String a word0)) (Grp 1 (plus digit))))
             prev (String c t) = None.
Proof.
  intros Ha Hl Hc. rewrite keyword_here by (simpl; by apply digit_not_space).
  apply lit_head_fail. by apply digit_not_letter.
Qed.

Lemma chr_matches_same icase c : chr_matches icase c c = true.
Proof. unfold chr_matches. destruct icase; by apply bool_decide_eq_true_2. Qed.

Lemma lit_matches {R} icase w : forall prev t cs (k : @cont R),
  run icase (lit w) prev (w +:+ t) cs k = k (lastOr prev w) t cs.
Proof.
  induction w as [|a w IH]; intros prev t cs k; [by rewrite append_nil|].
  rewrite append_cons. destruct w as [|b w].
  - rewrite append_nil. cbn [lit run]. by rewrite chr_matches_same.
  - change (lit (String a (String b w))) with (Seq (Chr a) (lit (String b w))).
    rewrite run_seq. cbn [run]. rewrite chr_matches_same. apply IH.
Qed.

Lemma order_of_word_value i n o :
  digits i -> digits n -> digits o ->
  exists m, exec true orderRegex (wordListValue i n o) = Some (m, [(1%nat, o)]).
Proof.
  intros Hi Hn Ho. unfold wordListValue, exec, orderRegex. cbn [seqs].
  destruct (digits_head i Hi) as (di & i' & -> & Hdi & Hi').
  destruct (digits_head n Hn) as (dn & n' & -> & Hdn & Hn').
  rewrite !append_cons, !append_nil.
  rewrite exec_from_fail.
  2:{ rewrite keyword_here by done. apply lit_second_fail. by apply digit_not_letter. }
  rewrite exec_from_fail by (by apply keyword_fail_digit).
  rewrite exec_from_skip; [|intros; by apply keyword_fail_digit|done].
  rewrite exec_from_fail.
  2:{ rewrite keyword_after_space by done. rewrite lit_second_fail by done.
      by apply lit_head_fail. }
  rewrite exec_from_fail.
  2:{ rewrite keyword_here by done. by apply lit_second_fail. }
  rewrite exec_from_fail.
  2:{ rewrite keyword_here by done. by apply lit_head_fail. }
  rewrite exec_from_fail.
  2:{ rewrite keyword_here by done. by apply lit_head_fail. }
  rewrite exec_from_fail.
  2:{ rewrite keyword_here by done. by apply lit_head_fail. }
  rewrite exec_from_fail.
  2:{ rewrite keyword_here by done. apply lit_second_fail. by apply digit_not_letter. }
  rewrite exec_from_fail by (by apply keyword_fail_digit).
  rewrite exec_from_skip; [|intros; by apply keyword_fail_digit|done].
  eexists. apply exec_from_here.
  rewrite keyword_after_space by done.
  set (k0 := fun (_ : option ascii) (s' : string) (cs : captures) => Some (s', cs)).
  assert (E : run true (Seq (lit "lfo") (Grp 1 (plus digit))) (Some " "%char)
                  (String "l" (String "f" (String "o" o))) [] k0 = Some (EmptyString, [(1%nat, o)])).
  { rewrite run_seq.
    change (String "l" (String "f" (String "o" o))) with ("lfo" +:+ o).
    rewrite lit_matches. rewrite <- (append_nil_r o) at 1. by apply grp_digits_greedy. }
  rewrite E. reflexivity.
Qed.

Lemma indent_of_word_value i n o :
  digits i -> digits n -> digits o ->
  exists m, exec true indentRegex (wordListValue i n o) = Some (m, [(1%nat, n)]).
Proof.
  intros Hi Hn Ho. unfold wordListValue, exec, indentRegex. cbn [seqs].
  destruct (digits_head i Hi) as (di & i' & -> & Hdi & Hi').
  rewrite !append_cons, !append_nil.
  rewrite exec_from_fail.
  2:{ rewrite keyword_here by done. apply lit_second_fail. by apply digit_not_letter. }
  rewrite exec_from_fail by (by apply keyword_fail_digit).
  rewrite exec_from_skip; [|intros; by apply keyword_fail_digit|done].
  eexists. apply exec_from_here.
  rewrite keyword_after_space by done.
  set (k0 := fun (_ : option ascii) (s' : string) (cs : captures) => Some (s', cs)).
  set (rest := String " " (String "l" (String "f" (String "o" o)))).
  assert (E : run true (Seq (lit "level") (Grp 1 (plus digit))) (Some " "%char)
                  (String "l" (String "e" (String "v" (String "e" (String "l" (n +:+ rest))))))
                  [] k0 = Some (rest, [(1%nat, n)])).
  { rewrite run_seq.
    change (String "l" (String "e" (String "v" (String "e" (String "l" (n +:+ rest))))))
      with ("level" +:+ (n +:+ rest)).
    rewrite lit_matches. by apply grp_digits_greedy. }
  rewrite E. reflexivity.
Qed.

Lemma run_chr {R} icase a prev c t cs (k : @cont R) :
  run icase (Chr a) prev (String c t) cs k = if chr_matches icase a c then k (Some c) t cs else None.
Proof. reflexivity. Qed.

Lemma run_grp_bol {R} icase i r2 s cs (k : @cont R) x :
  k None s ((i, EmptyString) :: cs) = Some x ->
  run icase (Grp i (Alt Bol r2)) None s cs k = Some x.
Proof.
  intros H. cbn [run]. rewrite Nat.sub_diag.
  replace (substring0 0 s) with EmptyString by (by destruct s). by rewrite H.
Qed.

Lemma id_of_word_value i n o :
  digits i -> digits n -> digits o ->
  exists m c1, exec true idRegex (wordListValue i n o) = Some (m, (2%nat, i) :: c1).
Proof.
  intros Hi Hn Ho. unfold wordListValue, exec, idRegex. cbn [seqs].
  rewrite !append_cons, !append_nil.
  eexists _, _. apply exec_from_here.
  unfold match_here. rewrite run_seq. apply run_grp_bol.
  rewrite run_seq, run_chr, chr_matches_same.
  by apply grp_digits_greedy.
Qed.

Lemma parse_from_bound w : forall acc,
  forall_string isDigit w = true -> 0 <= acc ->
  parse_from acc w < (acc + 1) * 10 ^ Z.of_nat (String.length w).
Proof.
  induction w as [|c w IH]; intros acc Hw Hacc; [simpl; lia|].
  simpl in Hw. apply andb_true_iff in Hw as [Hc Hw].
  unfold isDigit in Hc. apply andb_true_iff in Hc as [Hc1 Hc2].
  cbn [parse_from String.length]. rewrite Nat2Z.inj_succ, Z.pow_succ_r by lia.
  assert (Hd : 0 <= digit_value c <= 9) by (unfold digit_value; lia).
  specialize (IH (10 * acc + digit_value c) Hw ltac:(lia)).
  assert (0 < 10 ^ Z.of_nat (String.length w)) by (apply Z.pow_pos_nonneg; lia).
  nia.
Qed.

(** X12: the list data that Word writes is read back.  For an [mso-list]
    value of the form [l<i> level<n> lfo<o>], with [i], [n] and [o] strings
    of decimal digits and [n] of at most fifteen of them, the list id is
    [i], the order is [o] and the indent is the number that [n] denotes;
    that number is below 2^53, the range in which [parseInt] is exact. *)
Theorem word_list_value_read styles i n o :
  digits i -> digits n -> digits o -> (String.length n <= 15)%nat ->
  styles !! "mso-list" = Some (wordListValue i n o) ->
  getListItemData styles
  = {| id := Some i; order := Some o; indent := Some (parseInt_digits n) |} /\
  0 <= parseInt_digits n < 2 ^ 53.
Proof.
  intros Hi Hn Ho Hlen Hs. split.
  - unfold getListItemData. rewrite Hs.
    destruct (id_of_word_value i n o Hi Hn Ho) as (m1 & c1 & ->).
    destruct (order_of_word_value i n o Hi Hn Ho) as (m2 & ->).
    destruct (indent_of_word_value i n o Hi Hn Ho) as (m3 & ->).
    reflexivity.
  - destruct Hn as [_ Hd].
    pose proof (parse_from_nonneg n 0 Hd ltac:(lia)) as Hlo.
    pose proof (parse_from_bound n 0 Hd ltac:(lia)) as Hhi.
    change (parseInt_digits n) with (parse_from 0 n).
    assert (10 ^ Z.of_nat (String.length n) <= 10 ^ 15)
      by (apply Z.pow_le_mono_r; lia).
    split; [lia|]. eapply Z.lt_le_trans; [exact Hhi|].
    eapply Z.le_trans; [|by apply (Z.lt_le_incl (10 ^ 15) (2 ^ 53))]. lia.
Qed.

(** The theorem of X12 at a sample value. *)
Lemma word_list_value_read_witness :
  getListItemData {[ "mso-list" := "l12 level3 lfo45" ]}
  = {| id := Some "12"; order := Some "45"; indent := Some 3 |}.
Proof.
  refine (proj1 (word_list_value_read {[ "mso-list" := "l12 level3 lfo45" ]} "12" "3" "45"
                   _ _ _ _ _)).
  - split; [discriminate | reflexivity].
  - split; [discriminate | reflexivity].
  - split; [discriminate | reflexivity].
  - simpl; lia.
  - vm_compute; reflexivity.
Defined.

(** *** The resolved style *)

Lemma listStartIndexRegex_captured s m cs :
  exec true listStartIndexRegex s = Some (m, cs) ->
  exists w, cs = [(1%nat, w)] /\ forall_string isDigit w = true /\ (String.length w <= 10)%nat.
Proof.
  intros H. apply exec_from_inv in H as (prev & s' & rest & H).
  unfold match_here, listStartIndexRegex in H. cbn [seqs] in H. rewrite run_seq in H.
  apply (run_groupless true (lit "mso-level-start-at:") eq_refl) in H as (p1 & s1 & H).
  rewrite run_seq in H.
  apply (run_groupless true (upto 0 100 space) eq_refl) in H as (p2 & s2 & H).
  rewrite run_seq in H.
  apply (grp_cls_sound true 1 isDigit 0 (Some 10%nat)) in H as (w & r & -> & Hw & _ & Hl & H);
    [|lia].
  apply (run_groupless true (Seq (upto 0 100 space) (Chr ";")) eq_refl) in H as (p3 & s3 & H).
  injection H as _ <-. eauto.
Qed.

Lemma mapListStyleDefinition_range v s :
  mapListStyleDefinition v = Some s -> In s cssListStyles.
Proof.
  unfold mapListStyleDefinition, cssListStyles, str_eqb.
  repeat (case_bool_decide || destruct (startsWith _ _)); simpl; intros [= <-]; subst; auto 10.
Qed.

Lemma findBulletedListStyle_throws h e :
  is_ok (findBulletedListStyle h e) = false ->
  toLowerCase (tagNameOf h e) = "li" /\ parentElement h e = None.
Proof.
  unfold findBulletedListStyle, str_eqb. case_bool_decide as E; [|done].
  destruct (parentElement h e) as [p|]; [|done].
  by destruct (_ && _).
Qed.

(** X13: what [detectListStyle] can return, and when it throws.  A resolved
    style has the type [ol] or [ul], and [ol] for a legal-style list; its
    start index, if any, is read from at most ten digits, so that it lies
    between 0 and 10^10 - 1; its style, if any, is one of the eight values
    of [cssListStyles].  The function throws only for an [li] element
    without a parent element. *)
Theorem resolved_style_shape h it css :
  (forall ls, detectListStyle h it css = Ok ls ->
     (type ls = "ol" \/ type ls = "ul") /\
     (isLegalStyleList ls = true -> type ls = "ol") /\
     (forall n, startIndex ls = Some n -> 0 <= n < 10 ^ 10) /\
     (forall s, style ls = Some s -> In s cssListStyles)) /\
  (is_ok (detectListStyle h it css) = false ->
     toLowerCase (tagNameOf h (element it)) = "li" /\ parentElement h (element it) = None).
Proof.
  unfold detectListStyle.
  set (legal := test true (legalStyleListRegex it) css
                && negb (test true (multiLevelNumberFormatTypeRegex it) css)).
  destruct (nonEmptyCapture 1 (exec true (listStyleRegexp it) css)) as [block|].
  2:{ split; [|done]. intros ls [= <-]. simpl. split; [by left|]. split; [done|].
      split; [done|]. intros s Hs. by apply mapListStyleDefinition_range in Hs. }
  set (tt := match nonEmptyCapture 1 (exec true listStyleTypeRegex block) with
             | Some t => (trim t, if negb (str_eqb (trim t) "bullet") && negb (str_eqb (trim t) "image")
                                  then "ol" else "ul")
             | None => ("decimal", "ol") end).
  assert (Htt : snd tt = "ol" \/ snd tt = "ul").
  { unfold tt. destruct (nonEmptyCapture 1 (exec true listStyleTypeRegex block)); [|by left].
    simpl. destruct (negb _ && negb _); auto. }
  destruct tt as [listStyleType ty]. simpl in Htt.
  destruct (str_eqb listStyleType "bullet").
  - destruct (findBulletedListStyle h (element it)) as [b|e] eqn:Eb; simpl.
    + split; [|done]. intros ls [= <-]. simpl.
      split; [destruct legal; auto|]. split; [by intros ->|]. split; [done|].
      intros s Hs. by apply mapListStyleDefinition_range in Hs.
    + split; [done|]. intros _. apply findBulletedListStyle_throws. by rewrite Eb.
  - simpl. split; [|done]. intros ls [= <-]. simpl.
    split; [destruct legal; auto|]. split; [by intros ->|].
    split; [|intros s Hs; by apply mapListStyleDefinition_range in Hs].
    intros n Hn. unfold nonEmptyCapture in Hn.
    destruct (exec true listStartIndexRegex block) as [[m cs]|] eqn:E; [|done].
    apply listStartIndexRegex_captured in E as (w & -> & Hw & Hl).
    simpl in Hn. destruct (is_empty w); [done|]. injection Hn as <-.
    split; [by apply (parse_from_nonneg w 0)|].
    pose proof (parse_from_bound w 0 Hw ltac:(lia)) as B.
    assert (10 ^ Z.of_nat (String.length w) <= 10 ^ 10) by (apply Z.pow_le_mono_r; lia).
    change (parseInt_digits w) with (parse_from 0 w). lia.
Qed.

(** *** The content after the body *)

Lemma startsWith_app n x y :
  (String.length n <= String.length x)%nat -> startsWith n (x +:+ y) = startsWith n x.
Proof.
  revert x. induction n as [|a n IH]; intros x Hl; [done|].
  destruct x as [|b x]; [simpl in Hl; lia|]. rewrite append_cons. simpl.
  rewrite IH by (simpl in Hl; lia). done.
Qed.

Lemma startsWith_self n t : startsWith n (n +:+ t) = true.
Proof.
  induction n as [|a n IH]; [done|]. rewrite append_cons. simpl.
  by rewrite bool_decide_eq_true_2.
Qed.

Lemma str_drop_app a t : str_drop (String.length a) (a +:+ t) = t.
Proof. induction a as [|c a IH]; [by rewrite append_nil; destruct t|]. by rewrite append_cons. Qed.

Lemma substring0_length_app a t : substring0 (String.length a) (a +:+ t) = a.
Proof.
  induction a as [|c a IH]; [rewrite append_nil; by destruct t|].
  rewrite append_cons. simpl. by rewrite IH.
Qed.

Lemma str_drop_add i j s : str_drop (i + j) s = str_drop j (str_drop i s).
Proof.
  revert s. induction i as [|i IH]; intros s; [by destruct s, j|].
  destruct s as [|c s]; [by destruct j|]. simpl. apply IH.
Qed.

Lemma str_indexOf_here needle s : startsWith needle s = true -> str_indexOf needle s = Some O.
Proof. intros H. destruct s; simpl; by rewrite H. Qed.

Lemma str_indexOf_next needle c s :
  startsWith needle (String c s) = false ->
  str_indexOf needle (String c s) = S <$> str_indexOf needle s.
Proof. intros H. cbn [str_indexOf]. by rewrite H. Qed.

Lemma startsWith_split needle x : startsWith needle x = true -> exists t, x = needle +:+ t.
Proof.
  revert x. induction needle as [|a n IHn]; intros x E.
  - exists x. by rewrite append_nil.
  - destruct x as [|b x]; [done|]. simpl in E. apply andb_true_iff in E as [Eab E].
    apply bool_decide_eq_true in Eab as ->. destruct (IHn x E) as [t ->].
    exists t. by rewrite append_cons.
Qed.

(** The first occurrence, as a decomposition: what is in front of it and
    the needle itself decide where it is. *)
Lemma str_indexOf_Some needle s i :
  str_indexOf needle s = Some i ->
  exists a t, s = (a +:+ needle) +:+ t /\ String.length a = i /\
              forall t', str_indexOf needle ((a +:+ needle) +:+ t') = Some i.
Proof.
  revert i. induction s as [|c s IH]; intros i.
  - simpl. destruct (startsWith needle EmptyString) eqn:E; [|done]. intros [= <-].
    destruct needle; [|done]. exists EmptyString, EmptyString. split; [done|]. split; [done|].
    intros t'. rewrite !append_nil. by destruct t'.
  - destruct (startsWith needle (String c s)) eqn:E.
    + rewrite str_indexOf_here by done. intros [= <-]. exists EmptyString.
      apply startsWith_split in E as [t Ht].
      exists t. rewrite !append_nil. split; [done|]. split; [done|].
      intros t'. apply str_indexOf_here, startsWith_self.
    + rewrite str_indexOf_next by done.
      destruct (str_indexOf needle s) as [j|] eqn:Ej; [|done]. simpl. intros [= <-].
      destruct (IH j eq_refl) as (a & t & -> & Hl & Hfirst).
      exists (String c a), t. rewrite !append_cons. split; [done|]. split; [simpl; lia|].
      assert (Hs : forall u, startsWith needle (String c ((a +:+ needle) +:+ u))
                         = startsWith needle (String c (a +:+ needle))).
      { intros u. rewrite <- (append_cons c (a +:+ needle) u).
        apply startsWith_app. simpl. rewrite length_append. lia. }
      intros t'. rewrite !append_cons. rewrite str_indexOf_next; [by rewrite Hfirst|].
      rewrite Hs. rewrite <- (Hs t). exact E.
Qed.

Lemma str_indexOf_starts needle s k :
  str_indexOf needle s = Some k -> startsWith needle (str_drop k s) = true.
Proof.
  revert k. induction s as [|c s IH]; intros k.
  - simpl. destruct (startsWith needle EmptyString) eqn:E; [|done]. by intros [= <-].
  - destruct (startsWith needle (String c s)) eqn:E.
    + rewrite str_indexOf_here by done. by intros [= <-].
    + rewrite str_indexOf_next by done.
      destruct (str_indexOf needle s) as [j|] eqn:Ej; [|done]. simpl. intros [= <-].
      simpl. by apply IH.
Qed.

Lemma includes_cons needle c s :
  includes needle (String c s) = startsWith needle (String c s) || includes needle s.
Proof. reflexivity. Qed.

Lemma str_indexOf_none needle s : includes needle s = false -> str_indexOf needle s = None.
Proof.
  induction s as [|c s IH].
  - simpl. rewrite orb_false_r. by intros ->.
  - rewrite includes_cons. intros H. apply orb_false_iff in H as [H1 H2].
    rewrite str_indexOf_next by done. by rewrite IH.
Qed.

(** No occurrence begins in [a]: the first one is behind [a]. *)
Lemma str_indexOf_first init z a t :
  includes (init +:+ String z EmptyString) (a +:+ init) = false ->
  str_indexOf (init +:+ String z EmptyString) ((a +:+ (init +:+ String z EmptyString)) +:+ t)
  = Some (String.length a).
Proof.
  set (n := init +:+ String z EmptyString).
  assert (Hn : String.length n = S (String.length init)).
  { unfold n. rewrite length_append. simpl. lia. }
  induction a as [|c a IH]; intros H.
  - rewrite append_nil. apply str_indexOf_here, startsWith_self.
  - rewrite append_cons, includes_cons in H. apply orb_false_iff in H as [H1 H2].
    rewrite !append_cons. rewrite str_indexOf_next; [by rewrite IH|].
    rewrite <- H1.
    replace (String c ((a +:+ n) +:+ t))
      with (String c (a +:+ init) +:+ (String z EmptyString +:+ t)).
    2:{ rewrite append_cons. f_equal. unfold n. by rewrite !append_assoc_s. }
    apply startsWith_app. simpl. rewrite length_append. lia.
Qed.

Lemma cleanContentAfterBody_at a t :
  (forall t', str_indexOf "</body>" ((a +:+ "</body>") +:+ t') = Some (String.length a)) ->
  cleanContentAfterBody ((a +:+ "</body>") +:+ t) =
  (a +:+ "</body>") +:+ match str_indexOf "</html>" t with
                        | Some k => str_drop k t
                        | None => EmptyString
                        end.
Proof.
  intros Hfirst. unfold cleanContentAfterBody. rewrite Hfirst.
  assert (Hl : (String.length a + String.length "</body>")%nat = String.length (a +:+ "</body>"))
    by (by rewrite length_append).
  rewrite Hl, substring0_length_app. f_equal.
  unfold str_indexOf_from. rewrite str_drop_app.
  destruct (str_indexOf "</html>" t) as [k|]; [|done]. simpl.
  by rewrite str_drop_add, str_drop_app.
Qed.

(** X14: what [cleanContentAfterBody] cuts.  A text without [</body>] is
    returned as it is.  When the first [</body>] is followed by a first
    [</html>], what lies between the two is cut out and the rest stays;
    when no [</html>] follows, everything behind [</body>] is cut off. *)
Theorem content_after_body_cut a junk rest :
  (includes "</body>" a = false -> cleanContentAfterBody a = a) /\
  (includes "</body>" (a +:+ "</body") = false ->
   includes "</html>" (junk +:+ "</html") = false ->
   cleanContentAfterBody (a +:+ "</body>" +:+ junk +:+ "</html>" +:+ rest)
   = a +:+ "</body>" +:+ "</html>" +:+ rest) /\
  (includes "</body>" (a +:+ "</body") = false ->
   includes "</html>" junk = false ->
   cleanContentAfterBody (a +:+ "</body>" +:+ junk) = a +:+ "</body>").
Proof.
  split; [|split].
  - intros H. unfold cleanContentAfterBody. by rewrite str_indexOf_none.
  - intros Hb Hh. rewrite <- (append_assoc_s a "</body>").
    rewrite cleanContentAfterBody_at
      by (intros t'; apply (str_indexOf_first "</body" ">" a t' Hb)).
    rewrite append_assoc_s. do 2 f_equal.
    pose proof (str_indexOf_first "</html" ">" junk rest Hh) as E.
    change ("</html" +:+ ">") with "</html>" in E.
    rewrite append_assoc_s in E. rewrite E.
    by rewrite str_drop_app.
  - intros Hb Hh. rewrite <- (append_assoc_s a "</body>").
    rewrite cleanContentAfterBody_at
      by (intros t'; apply (str_indexOf_first "</body" ">" a t' Hb)).
    rewrite str_indexOf_none by done. by rewrite append_nil_r.
Qed.

(** X15: [cleanContentAfterBody] applied twice is [cleanContentAfterBody]
    applied once. *)
Theorem cleanContentAfterBody_idempotent s :
  cleanContentAfterBody (cleanContentAfterBody s) = cleanContentAfterBody s.
Proof.
  destruct (str_indexOf "</body>" s) as [i|] eqn:E.
  - apply str_indexOf_Some in E as (a & t & -> & <- & Hfirst).
    rewrite (cleanContentAfterBody_at a t Hfirst).
    rewrite (cleanContentAfterBody_at a _ Hfirst). f_equal.
    destruct (str_indexOf "</html>" t) as [k|] eqn:Ek; [|done].
    apply str_indexOf_starts in Ek. by rewrite (str_indexOf_here _ _ Ek).
  - unfold cleanContentAfterBody at 2. rewrite E. unfold cleanContentAfterBody. by rewrite E.
Qed.

(** The theorem of X14 at a sample text. *)
Lemma content_after_body_cut_witness :
  cleanContentAfterBody "<html><body>a</body><!--EndFragment--></html>x"
    = "<html><body>a</body></html>x" /\
  cleanContentAfterBody "<body>a</body>tail" = "<body>a</body>" /\
  cleanContentAfterBody "<p>a</p>" = "<p>a</p>".
Proof.
  split; [|split].
  - apply (content_after_body_cut "<html><body>a" "<!--EndFragment-->" "x"); reflexivity.
  - apply (content_after_body_cut "<body>a" "tail" EmptyString); reflexivity.
  - apply (content_after_body_cut "<p>a</p>" EmptyString EmptyString). reflexivity.
Defined.

(** *** The detector *)

Section Steps.
Context {R : Type} (icase : bool).

Lemma lit_matches_letters w : forall w' prev t cs (k : @cont R),
  sameLetters w w' ->
  run true (lit w) prev (w' +:+ t) cs k = k (lastOr prev w') t cs.
Proof.
  unfold sameLetters, toUpperAscii.
  induction w as [|a w IH]; intros w' prev t cs k H.
  - destruct w'; [by rewrite append_nil | done].
  - destruct w' as [|a' w']; [done|]. simpl in H. injection H as Ha Hw.
    rewrite append_cons. destruct w as [|b w].
    + destruct w'; [|done]. rewrite append_nil. cbn [lit run].
      unfold chr_matches. by rewrite bool_decide_eq_true_2.
    + change (lit (String a (String b w))) with (Seq (Chr a) (lit (String b w))).
      rewrite run_seq. cbn [run]. unfold chr_matches at 1.
      rewrite bool_decide_eq_true_2 by done. cbn [lastOr]. by apply IH.
Qed.

Lemma opt_chr_absent c prev d t cs (k : @cont R) :
  chr_matches icase c d = false ->
  run icase (opt (Chr c)) prev (String d t) cs k = k prev (String d t) cs.
Proof. intros H. unfold opt. cbn [run rep_loop]. by rewrite H. Qed.

Lemma opt_chr_present c prev t cs (k : @cont R) x :
  k (Some c) t cs = Some x ->
  run icase (opt (Chr c)) prev (String c t) cs k = Some x.
Proof.
  intros H. unfold opt. cbn [run rep_loop]. rewrite chr_matches_same.
  replace (Nat.eqb (String.length t) (String.length (String c t))) with false
    by (symmetry; apply Nat.eqb_neq; simpl; lia).
  cbn [andb Nat.eqb Nat.add String.length rep_loop Nat.pred fmap option_fmap option_map].
  by rewrite H.
Qed.

Lemma star_space_one prev t cs (k : @cont R) x :
  stopsAt isSpace t -> k (Some " "%char) t cs = Some x ->
  run icase (star space) prev (String " " t) cs k = Some x.
Proof.
  intros Ht H. unfold star, space. cbn [run].
  change (String " " t) with (" " +:+ t).
  apply (rep_cls_greedy icase isSpace k " "); try done; simpl; lia.
Qed.

Lemma plus_digit_greedy w rest prev cs (k : @cont R) x :
  digits w -> stopsAt isDigit rest -> k (lastOr prev w) rest cs = Some x ->
  run icase (plus digit) prev (w +:+ rest) cs k = Some x.
Proof.
  intros [Hne Hw] Hrest H. unfold plus, digit. cbn [run].
  apply (rep_cls_greedy icase isDigit k w); try done.
  - destruct w; [done | simpl; lia].
  - rewrite length_append. lia.
Qed.
End Steps.

Lemma exec_from_found icase r s2 :
  (forall prev, is_Some (match_here icase r prev s2)) ->
  forall a prev, is_Some (exec_from icase r prev (a +:+ s2)).
Proof.
  intros H. induction a as [|c a IH]; intros prev.
  - rewrite append_nil. destruct (H prev) as [[rest cs] E].
    rewrite (exec_from_here _ _ _ _ _ _ E). eauto.
  - rewrite append_cons. simpl.
    destruct (match_here icase r prev (String c (a +:+ s2))) as [[rest cs]|]; [eauto|].
    apply IH.
Qed.

Lemma test_found icase r a s2 :
  (forall prev, is_Some (match_here icase r prev s2)) -> test icase r (a +:+ s2) = true.
Proof.
  intros H. unfold test, exec.
  by destruct (exec_from_found icase r s2 H a None) as [y ->].
Qed.

Lemma generatorTag_parts v b :
  generatorTag v +:+ b =
  "<meta" +:+ String " " ("name=" +:+ ("Generator" +:+ String " " ("content=" +:+
    String quote ("Microsoft" +:+ String " " ("Word" +:+ String " " (v +:+
      String quote (String ">" b))))))).
Proof.
  unfold generatorTag. repeat (rewrite append_assoc_s || rewrite append_cons || rewrite append_nil).
  reflexivity.
Qed.

Lemma generator_matches prev v b :
  digits v -> is_Some (match_here true generatorRegex prev (generatorTag v +:+ b)).
Proof.
  intros Hv. rewrite generatorTag_parts.
  destruct (digits_head v Hv) as (d & v' & Ev & Hd & _).
  unfold match_here, generatorRegex. cbn [seqs]. eexists.
  rewrite run_seq, (lit_matches_letters "<meta" "<meta") by reflexivity.
  rewrite run_seq. apply star_space_one; [done|].
  rewrite run_seq, (lit_matches_letters "name=" "name=") by reflexivity.
  rewrite (append_cons "G"), run_seq, opt_chr_absent by reflexivity.
  rewrite <- (append_cons "G").
  rewrite run_seq, (lit_matches_letters "generator" "Generator") by reflexivity.
  rewrite run_seq, opt_chr_absent by reflexivity.
  rewrite run_seq. apply star_space_one; [done|].
  rewrite run_seq, (lit_matches_letters "content=" "content=") by reflexivity.
  rewrite run_seq. apply opt_chr_present.
  rewrite run_seq, (lit_matches_letters "microsoft" "Microsoft") by reflexivity.
  rewrite run_seq. apply star_space_one; [done|].
  rewrite run_seq, (lit_matches_letters "word" "Word") by reflexivity.
  rewrite run_seq. apply star_space_one; [rewrite Ev; simpl; by apply digit_not_space|].
  rewrite run_seq. apply plus_digit_greedy; [done | reflexivity |].
  rewrite run_seq. apply opt_chr_present.
  rewrite run_seq, opt_chr_absent by reflexivity.
  cbn [run]. rewrite chr_matches_same. reflexivity.
Qed.

(** X16: Word documents are detected.  [isActive] holds for every text that
    contains the declaration of the Office namespace, in any case of its
    letters, and for every text that contains the generator tag as Word
    writes it, whatever the version number. *)
Theorem word_html_detected a b :
  (forall ns, sameLetters officeNamespace ns -> isActive (a +:+ ns +:+ b) = true) /\
  (forall v, digits v -> isActive (a +:+ generatorTag v +:+ b) = true).
Proof.
  split.
  - intros ns Hns. unfold isActive, MS_WORD_MATCHES. cbn [existsb].
    assert (E : test true namespaceRegex (a +:+ ns +:+ b) = true).
    { apply test_found. intros prev. unfold match_here, namespaceRegex.
      rewrite lit_matches_letters by done. eauto. }
    rewrite E. by rewrite orb_true_r.
  - intros v Hv. unfold isActive, MS_WORD_MATCHES. cbn [existsb].
    rewrite test_found; [done|]. intros prev. by apply generator_matches.
Qed.

(** The theorem of X16 at sample texts. *)
Lemma word_html_detected_witness :
  isActive ("<html " +:+ "XMLNS:O=" +:+ String quote "URN:schemas-microsoft-com:office:office"
            +:+ String quote ">") = true /\
  isActive ("<head>" +:+ generatorTag "15" +:+ "</head>") = true.
Proof.
  destruct (word_html_detected "<html " (":office:office" +:+ String quote ">")) as [Hns _].
  destruct (word_html_detected "<head>" "</head>") as [_ Hgen].
  split.
  - apply (Hns ("XMLNS:O=" +:+ String quote "URN:schemas-microsoft-com")). reflexivity.
  - apply (Hgen "15"). split; [discriminate | reflexivity].
Defined.

(** *** Word elements *)

Lemma parentNode_setAttribute h n k v m :
  parentNode (setAttribute h n k v) m = parentNode h m.
Proof. apply setAttribute_tree. Qed.

Lemma parentNode_set_classList h n l m :
  parentNode (set_classList h n l) m = parentNode h m.
Proof. apply set_classList_links. Qed.

Lemma removeMsoClasses_from_parent item fuel : forall h i m,
  parentNode (removeMsoClasses_from fuel h item i) m = parentNode h m.
Proof.
  induction fuel as [|fuel IH]; intros h i m; simpl; [done|].
  destruct (classList h item !! i) as [cn|]; [|done].
  destruct (test true msoRegex cn); [|apply IH].
  rewrite IH. unfold classList_remove. apply parentNode_set_classList.
Qed.

Lemma cleanItem_tree h u x h2 u2 :
  cleanItem (h, u) x = (h2, u2) ->
  (forall m, parentNode h2 m = parentNode h m /\ kindOf h2 m = kindOf h m) /\
  (forall e, In e u2 <-> In e u \/ e = x /\ isWordElement h2 x = true).
Proof.
  unfold cleanItem. intros [= <- <-].
  set (h1 := removeMsoClasses h x).
  assert (C : class_only h h1).
  { unfold h1, removeMsoClasses.
    by destruct (removeMsoClasses_from_spec x (length (classList h x)) h 0) as (C & _). }
  split.
  - intros m. split.
    + destruct (isHTMLElement h1 x); [unfold removeMSOStyles; rewrite parentNode_setAttribute|];
        apply removeMsoClasses_from_parent.
    + destruct (isHTMLElement h1 x);
        [unfold removeMSOStyles; rewrite kindOf_setAttribute|]; by apply class_only_kindOf.
  - intros e. destruct (isWordElement _ x).
    + rewrite in_app_iff. simpl. split; [intros [?|[<-|[]]]; auto | intros [?|[-> _]]; auto].
    + split; [auto | intros [?|[_ ?]]; done].
Qed.

Lemma cleanItems_tree items : forall h u h2 u2,
  fold_left cleanItem items (h, u) = (h2, u2) ->
  (forall m, parentNode h2 m = parentNode h m /\ kindOf h2 m = kindOf h m) /\
  (forall e, In e u2 -> In e u \/ In e items) /\
  (forall e, In e items -> tagNameOf h e = "W:SDT" -> In e u2) /\
  (forall e, In e u -> In e u2) /\
  (List.NoDup items -> List.NoDup u -> (forall e, In e u -> ~ In e items) -> List.NoDup u2).
Proof.
  induction items as [|x items IH]; intros h u h2 u2; cbn [fold_left].
  - intros [= <- <-]. split; [done|]. split; [auto|]. split; [by intros e []|]. split; done.
  - destruct (cleanItem (h, u) x) as [h1 u1] eqn:E. intros H.
    destruct (cleanItem_tree _ _ _ _ _ E) as [T U].
    destruct (IH _ _ _ _ H) as (T' & Sub & W & Mono & Nd).
    split; [intros m; destruct (T m), (T' m); split; congruence|].
    split.
    { intros e He. apply Sub in He as [He|He]; [|right; by right].
      apply U in He as [He|[-> _]]; [by left | right; by left]. }
    split.
    { intros e [<-|He] Ht.
      - apply Mono, U. right. split; [done|]. unfold isWordElement.
        assert (tagNameOf h1 x = "W:SDT") as ->.
        { unfold tagNameOf, tagName in *. destruct (T x) as [_ ->]. exact Ht. }
        reflexivity.
      - apply W; [done|]. unfold tagNameOf, tagName in *. destruct (T e) as [_ ->]. exact Ht. }
    split; [intros e He; apply Mono, U; by left|].
    intros Hnd Hu Hdis. inversion Hnd as [|? ? Hx Hi]; subst. apply Nd; [done| |].
    + destruct (isWordElement h1 x) eqn:Ew.
      * assert (u1 = (u ++ [x])%list) as ->.
        { unfold cleanItem in E. injection E as E1 E2. rewrite <- E2.
          by rewrite E1, Ew. }
        apply NoDup_ListNoDup, NoDup_app. split; [by apply NoDup_ListNoDup|].
        split; [|apply NoDup_singleton].
        intros e He Hex. apply list_elem_of_singleton in Hex as ->.
        apply (Hdis x); [by apply list_elem_of_In | by left].
      * assert (u1 = u) as ->; [|done].
        unfold cleanItem in E. injection E as E1 E2. rewrite <- E2. by rewrite E1, Ew.
    + intros e He Hin. apply U in He as [He|[-> _]]; [|done].
      apply (Hdis e He). by right.
Qed.

Lemma unwrap_step h x p :
  parentNode h x = Some p -> removeChild h p x = Ok (detach h x).
Proof. intros E. unfold removeChild, isChildOf. by rewrite E, Nat.eqb_refl. Qed.

Lemma unwrap_detached items : forall h h',
  fold_left (fun acc item => h' <- acc ;;
               match parentNode h' item with
               | Some itemParent => removeChild h' itemParent item
               | None => Throw (TypeError "Cannot read properties of null (reading 'removeChild')")
               end) items (Ok h) = Ok h' ->
  forall x, (In x items \/ parentNode h x = None) -> parentNode h' x = None.
Proof.
  induction items as [|y items IH]; intros h h'; simpl.
  - intros [= <-] x [[]|Hx]. done.
  - destruct (parentNode h y) as [p|] eqn:Ep; simpl.
    + rewrite (unwrap_step _ _ _ Ep). intros H x Hx. apply (IH _ _ H).
      rewrite parentNode_detach. destruct (decide (x = y)) as [->|Hne]; [by right|].
      destruct Hx as [[?|?]|?]; [congruence | by left | by right].
    + intros H. exfalso. clear -H. induction items; simpl in *; [done | auto].
Qed.

Lemma unwrap_returns items : forall h,
  List.NoDup items -> (forall x, In x items -> is_Some (parentNode h x)) ->
  exists h',
    fold_left (fun acc item => h' <- acc ;;
               match parentNode h' item with
               | Some itemParent => removeChild h' itemParent item
               | None => Throw (TypeError "Cannot read properties of null (reading 'removeChild')")
               end) items (Ok h) = Ok h'.
Proof.
  induction items as [|y items IH]; intros h Hnd Hp; simpl; [eauto|].
  inversion Hnd as [|? ? Hy Hi]; subst.
  destruct (Hp y (or_introl eq_refl)) as [p Ep]. rewrite Ep. simpl.
  rewrite (unwrap_step _ _ _ Ep). apply IH; [done|].
  intros x Hx. rewrite parentNode_detach. rewrite decide_False by (by intros ->).
  apply Hp. by right.
Qed.

(** X18: attribute cleanup returns on a tree.  When no element occurs twice
    among the elements of the document and each of them has a parent, as in
    every tree, [removeMSAttributes] does not throw. *)
Theorem cleanup_returns h doc :
  List.NoDup (querySelectorAll_any h doc) ->
  Forall (fun e => is_Some (parentNode h e)) (querySelectorAll_any h doc) ->
  exists h', removeMSAttributes h doc = Ok h'.
Proof.
  intros Hnd Hp. unfold removeMSAttributes.
  destruct (fold_left cleanItem _ _) as [h1 u] eqn:E.
  destruct (cleanItems_tree _ _ _ _ _ E) as (T & Sub & _ & _ & Nd).
  apply unwrap_returns.
  - apply Nd; [done | constructor | by intros e []].
  - intros x Hx. destruct (T x) as [-> _]. rewrite Forall_forall in Hp.
    apply Hp, list_elem_of_In. by destruct (Sub x Hx) as [[]|?].
Qed.

(** The theorem of X18 at a sample document. *)
Lemma cleanup_returns_witness :
  exists h', removeMSAttributes docSdt documentNode = Ok h'.
Proof.
  apply cleanup_returns.
  - apply NoDup_ListNoDup. apply (bool_decide_unpack _). vm_compute. exact I.
  - apply (bool_decide_unpack _). vm_compute. exact I.
Defined.

(** *** Where the loop puts a candidate *)

Lemma parentNode_update_parent c q (h : list node) n :
  parentNode (update c (with_parent q) h) n =
  if decide (n = c /\ is_Some (h !! c)) then q else parentNode h n.
Proof.
  unfold parentNode. rewrite update_lookup.
  destruct (decide (n = c)) as [->|Hne].
  - destruct (h !! c) as [nd|] eqn:E; simpl.
    + rewrite decide_True; [done | eauto].
    + rewrite decide_False; [done|]. intros [_ [? ?]]. done.
  - rewrite decide_False; [done|]. by intros [? _].
Qed.

Lemma lookup_update_kids p f (h : list node) c :
  is_Some (update p (with_kids f) h !! c) <-> is_Some (h !! c).
Proof.
  rewrite update_lookup. destruct (decide (c = p)) as [->|]; [|done].
  destruct (h !! p); simpl; split; intros [? ?]; eauto; done.
Qed.

Lemma lookup_detach h c n : is_Some (detach h c !! n) <-> is_Some (h !! n).
Proof.
  unfold detach. destruct (parentNode h c) as [p|]; [|done].
  rewrite update_lookup. destruct (decide (n = c)) as [->|].
  - rewrite <- (lookup_update_kids p (remove_ref c) h c).
    destruct (update p _ h !! c); simpl; split; intros [? ?]; eauto; done.
  - apply lookup_update_kids.
Qed.

Lemma canInsert_node h p c : canInsert h p c = true -> is_Some (h !! c).
Proof.
  unfold canInsert, kindOf. destruct (h !! p) as [[[]]|]; simpl; try done;
    destruct (h !! c); simpl; try done; eauto.
Qed.

Lemma appendChild_parent h p c h' :
  appendChild h p c = Ok h' ->
  forall n, parentNode h' n = if decide (n = c) then Some p else parentNode h n.
Proof.
  unfold appendChild. destruct (canInsert h p c) eqn:E; [|done]. intros [= <-] n.
  apply canInsert_node in E.
  rewrite parentNode_update_parent, parentNode_update_kids, parentNode_detach.
  destruct (decide (n = c)) as [->|Hne].
  - rewrite decide_True; [done|]. split; [done|].
    by apply lookup_update_kids, lookup_detach.
  - rewrite decide_False; [done|]. by intros [? _].
Qed.

Lemma insertBefore_parent h p c r h' :
  insertBefore h p c r = Ok h' ->
  forall n, parentNode h' n = if decide (n = c) then Some p else parentNode h n.
Proof.
  unfold insertBefore. destruct (canInsert h p c) eqn:E; [|done].
  destruct (isChildOf h r p); [|done]. intros [= <-] n.
  apply canInsert_node in E.
  rewrite parentNode_update_parent, parentNode_update_kids, parentNode_detach.
  destruct (decide (n = c)) as [->|Hne].
  - rewrite decide_True; [done|]. split; [done|].
    by apply lookup_update_kids, lookup_detach.
  - rewrite decide_False; [done|]. by intros [? _].
Qed.

Lemma insertList_parent h stack d it l h2 :
  insertList h stack d it l = Ok h2 ->
  forall n, n <> l -> parentNode h2 n = parentNode h n.
Proof.
  unfold insertList. intros H n Hn.
  destruct (Arr.len stack =? 0).
  - destruct (parentNode h (element it)) as [p|]; [|done].
    destruct (_ =? _).
    + rewrite (appendChild_parent _ _ _ _ H). by rewrite decide_False.
    + rewrite (insertBefore_parent _ _ _ _ _ H). by rewrite decide_False.
  - destruct (Arr.get (d - 1) stack) as [fr|]; [|by injection H as <-].
    destruct (last (listItemElements fr)) as [li|]; [|by injection H as <-].
    rewrite (appendChild_parent _ _ _ _ H). by rewrite decide_False.
Qed.

Lemma style_setProperty_other h n k v m : m <> n -> style_setProperty h n k v !! m = h !! m.
Proof.
  intros Hne. unfold style_setProperty.
  destruct (getAttribute h n "style") as [[|]|]; by apply setAttribute_links.
Qed.

Lemma createNewEmptyList_old h ls h1 l :
  createNewEmptyList h ls false = (h1, l) ->
  forall n, (n < length h)%nat -> h1 !! n = h !! n.
Proof.
  unfold createNewEmptyList, createElement. rewrite andb_false_r. intros H n Hn.
  assert (Hne : n <> length h) by lia.
  set (h0 := (h ++ [Node (Element (toLowerCase (type ls)) true) [] None []])%list) in *.
  assert (E0 : h0 !! n = h !! n) by (unfold h0; by rewrite lookup_app_l).
  set (h2 := match style ls with
             | Some st => style_setProperty h0 (length h) "list-style-type" st
             | None => h0 end) in *.
  assert (E2 : h2 !! n = h !! n).
  { unfold h2. destruct (style ls); [by rewrite style_setProperty_other|done]. }
  destruct (startIndex ls) as [z|]; [|by injection H as <- _].
  destruct (negb (z =? 0) && (z >? 1)); [|by injection H as <- _].
  injection H as <- _.
  destruct (setAttribute_links h2 (length h) "start" (toString z)) as [_ G].
  destruct (G n) as [_ ->]; done.
Qed.

Lemma detectListStyle_type h it css ls :
  detectListStyle h it css = Ok ls -> type ls = "ol" \/ type ls = "ul".
Proof.
  unfold detectListStyle.
  destruct (nonEmptyCapture 1 (exec true (listStyleRegexp it) css)) as [block|];
    [|intros [= <-]; by left].
  set (tt := match nonEmptyCapture 1 (exec true listStyleTypeRegex block) with
             | Some t => (trim t, if negb (str_eqb (trim t) "bullet") && negb (str_eqb (trim t) "image")
                                  then "ol" else "ul")
             | None => ("decimal", "ol") end).
  assert (Htt : snd tt = "ol" \/ snd tt = "ul").
  { unfold tt. destruct (nonEmptyCapture 1 (exec true listStyleTypeRegex block)); [|by left].
    simpl. destruct (negb _ && negb _); auto. }
  destruct tt as [listStyleType ty]. simpl in Htt.
  intros H. inv_bind H as resolved Hr. injection H as <-. simpl.
  destruct (_ && negb _); auto.
Qed.

Lemma openList_tree css d it st st' :
  openList css d it st = Ok st' ->
  (forall n, (n < length (heap st))%nat ->
     parentNode (heap st') n = parentNode (heap st) n) /\
  ((st' = st /\ is_Some (Arr.get d (stack st))) \/
   (stack st' = Arr.set d (newFrame it (length (heap st))) (stack st) /\
    (tagName (heap st') (length (heap st)) = Some "OL" \/
     tagName (heap st') (length (heap st)) = Some "UL"))).
Proof.
  unfold openList. intros H. inv_bind H as ls Hls.
  destruct (_ || _) eqn:C.
  - destruct (createNewEmptyList _ _ _) as [h1 l] eqn:E.
    inv_bind H as h2 Hh2. injection H as <-. cbn [heap stack].
    pose proof (createNewEmptyList_spec _ _ _ _ E) as (-> & L1 & _ & K1 & _).
    split.
    + intros n Hn. rewrite (insertList_parent _ _ _ _ _ _ Hh2) by lia.
      unfold parentNode. by rewrite (createNewEmptyList_old _ _ _ _ E).
    + right. split; [done|].
      apply insertList_links_only in Hh2.
      unfold tagName. rewrite (links_only_kindOf _ _ _ Hh2), K1.
      rewrite resume_type. destruct (detectListStyle_type _ _ _ _ Hls) as [-> | ->]; auto.
  - injection H as <-. split; [done|]. left. split; [done|].
    apply orb_false_elim in C as [_ C]. apply negb_false_iff, bool_decide_eq_true in C.
    destruct (Arr.get d (stack st)); [eauto | done].
Qed.

Lemma removeMsoListIgnoreSpans_parent h e h' :
  removeMsoListIgnoreSpans h e = Ok h' ->
  forall n, hasLocalName h "span" n = false -> parentNode h' n = parentNode h n.
Proof.
  unfold removeMsoListIgnoreSpans. intros H n Hn.
  destruct (removeMsoListIgnoreSpans_loop h (querySelectorAll_tag h "span" e) h)
    as (h2 & F & _ & _ & P & _); [apply links_only_refl|].
  rewrite F in H. injection H as <-. rewrite P.
  rewrite decide_False; [done|]. intros [Hin _].
  apply list_elem_of_In, filter_In in Hin as [_ Hin]. congruence.
Qed.

Lemma upper_is_L c : lower (upper_ascii c) = "l"%char -> upper_ascii c = "L"%char.
Proof. destruct c as [[] [] [] [] [] [] [] []]; vm_compute; congruence. Qed.

Lemma upper_is_I c : lower (upper_ascii c) = "i"%char -> upper_ascii c = "I"%char.
Proof. destruct c as [[] [] [] [] [] [] [] []]; vm_compute; congruence. Qed.

Lemma li_tagName h e :
  isHTMLElement h e = true -> toLowerCase (tagNameOf h e) = "li" -> tagName h e = Some "LI".
Proof.
  unfold isHTMLElement, tagNameOf, tagName.
  destruct (kindOf h e) as [[name [|]| | |]|]; try done. intros _.
  cbn [default]. unfold toLowerCase, toUpperAscii.
  destruct name as [|a [|b [|c name]]]; try done. cbn [map_string].
  intros [= Ha Hb]. by rewrite (upper_is_L _ Ha), (upper_is_I _ Hb).
Qed.

Lemma hasLocalName_kindOf h h' n name :
  kindOf h' n = kindOf h n -> hasLocalName h' name n = hasLocalName h name n.
Proof. unfold hasLocalName. by intros ->. Qed.

Lemma appendItem_house d it st st' fr :
  appendItem d it st = Ok st' -> Arr.get d (stack st) = Some fr ->
  isHTMLElement (heap st) (element it) = true ->
  hasLocalName (heap st) "span" (element it) = false ->
  exists li,
    (li = element it \/
     (li = length (heap st) /\ parentNode (heap st') (element it) = Some li)) /\
    tagName (heap st') li = Some "LI" /\
    parentNode (heap st') li = Some (listElement fr) /\
    (forall n, (n < length (heap st))%nat -> n <> element it ->
       hasLocalName (heap st) "span" n = false ->
       parentNode (heap st') n = parentNode (heap st) n).
Proof.
  unfold appendItem. intros H Hfr Hhtml Hspan. rewrite Hfr in H.
  set (e := element it) in *.
  assert (He : (e < length (heap st))%nat).
  { apply lookup_lt_is_Some. by apply isHTMLElement_node. }
  destruct (str_eqb (toLowerCase (tagNameOf (heap st) e)) "li") eqn:Eli.
  - (* the element is a list item already *)
    inv_bind H as ap Hap. inv_bind Hap as h2 Hh2. injection Hap as <-. cbn [fst snd] in H.
    rewrite Nat.eqb_refl in H. cbn [negb JS.bind] in H.
    inv_bind H as h4 Hh4. injection H as <-. cbn [heap].
    pose proof (appendChild_links_only _ _ _ _ Hh2) as L2.
    pose proof (removeMsoListIgnoreSpans_links_only _ _ _ Hh4) as L4.
    assert (K : forall n, kindOf h4 n = kindOf (heap st) n).
    { intros n. by rewrite (links_only_kindOf _ _ _ L4), (links_only_kindOf _ _ _ L2). }
    assert (P : forall n, hasLocalName (heap st) "span" n = false ->
                parentNode h4 n = if decide (n = e) then Some (listElement fr)
                                  else parentNode (heap st) n).
    { intros n Hn. rewrite (removeMsoListIgnoreSpans_parent _ _ _ Hh4).
      - apply (appendChild_parent _ _ _ _ Hh2).
      - erewrite hasLocalName_kindOf; [exact Hn|]. by apply links_only_kindOf. }
    exists e. split; [by left|]. split.
    { unfold tagName. rewrite K. apply li_tagName; [done|].
      unfold str_eqb in Eli. by apply bool_decide_eq_true in Eli. }
    split; [rewrite P by done; by rewrite decide_True|].
    intros n Hn Hne Hs. rewrite P by done. by rewrite decide_False.
  - (* a new list item *)
    unfold createElement in H. cbn [toLowerCase map_string] in H.
    set (h1 := (heap st ++ [Node (Element (map_string lower "li") true) [] None []])%list) in *.
    set (li := length (heap st)) in *.
    inv_bind H as ap Hap. inv_bind Hap as h2 Hh2. injection Hap as <-. cbn [fst snd] in H.
    assert (Hne : Nat.eqb e li = false) by (apply Nat.eqb_neq; lia).
    rewrite Hne in H. cbn [negb] in H.
    inv_bind H as h3 Hh3. inv_bind H as h4 Hh4. injection H as <-. cbn [heap].
    pose proof (appendChild_links_only _ _ _ _ Hh2) as L2.
    pose proof (appendChild_links_only _ _ _ _ Hh3) as L3.
    pose proof (removeMsoListIgnoreSpans_links_only _ _ _ Hh4) as L4.
    assert (K : forall n, kindOf h4 n = kindOf h1 n).
    { intros n. by rewrite (links_only_kindOf _ _ _ L4), (links_only_kindOf _ _ _ L3),
        (links_only_kindOf _ _ _ L2). }
    assert (K1 : forall n, (n < li)%nat -> kindOf h1 n = kindOf (heap st) n).
    { intros n Hn. unfold kindOf, h1. by rewrite lookup_app_l. }
    assert (Kli : kindOf h1 li = Some (Element "li" true)).
    { unfold kindOf, h1, li. by rewrite list_lookup_middle. }
    assert (P1 : forall n, (n < li)%nat -> parentNode h1 n = parentNode (heap st) n).
    { intros n Hn. unfold parentNode, h1. by rewrite lookup_app_l. }
    assert (P : forall n, hasLocalName h1 "span" n = false ->
                parentNode h4 n = if decide (n = e) then Some li
                                  else if decide (n = li) then Some (listElement fr)
                                  else parentNode h1 n).
    { intros n Hn. rewrite (removeMsoListIgnoreSpans_parent _ _ _ Hh4).
      - rewrite (appendChild_parent _ _ _ _ Hh3). destruct (decide (n = e)); [done|].
        apply (appendChild_parent _ _ _ _ Hh2).
      - erewrite hasLocalName_kindOf; [exact Hn|]. by rewrite (links_only_kindOf _ _ _ L3), (links_only_kindOf _ _ _ L2). }
    assert (Se : hasLocalName h1 "span" e = false).
    { erewrite hasLocalName_kindOf; [exact Hspan|]. by apply K1. }
    assert (Sli : hasLocalName h1 "span" li = false).
    { unfold hasLocalName. by rewrite Kli. }
    exists li. split.
    { right. split; [done|]. rewrite P by done. by rewrite decide_True. }
    split; [unfold tagName; by rewrite K, Kli|].
    split.
    { rewrite P by done. rewrite decide_False by lia. by rewrite decide_True. }
    intros n Hn Hn' Hs. rewrite P.
    + rewrite !decide_False by lia. by apply P1.
    + erewrite hasLocalName_kindOf; [exact Hs|]. by apply K1.
Qed.

Lemma tagName_node h n t : tagName h n = Some t -> (n < length h)%nat.
Proof.
  unfold tagName, kindOf. intros H. apply lookup_lt_is_Some.
  destruct (h !! n); [eauto | done].
Qed.

Lemma isListTag_preserved h h' l :
  preserves h h' -> (l < length h)%nat -> isListTag h l -> isListTag h' l.
Proof. intros P Hl. unfold isListTag. by rewrite (preserves_tagName _ _ _ P Hl). Qed.

(** One iteration, as a step to the state [st3] that [appendItem] gets. *)
Lemma processItem_split css st it st' level :
  indent (itemData it) = Some level ->
  processItem css st it = Ok st' ->
  exists s1 s2 st3,
    let d := normalizedIndent level s1 in
    (s1 = stack st \/ s1 = Arr.truncate 0 (stack st)) /\
    (s2 = s1 \/ s2 = Arr.truncate d s1 /\ 0 <= d) /\
    ((d < Arr.len s2 - 1 /\ st3 = withStack st (Arr.truncate (d + 1) s2)) \/
     openList css d it (withStack st s2) = Ok st3) /\
    appendItem d it st3 = Ok st'.
Proof.
  intros Hlevel H. unfold processItem in H. rewrite Hlevel in H.
  inv_bind H as continues Hcont. inv_bind H as s1 Hs1.
  inv_bind H as s2 Hs2. inv_bind H as st3 Hst3.
  exists s1, s2, st3. cbv zeta. split.
  { unfold resetStack in Hs1. destruct continues; simpl in Hs1; [left; congruence|].
    right. by apply set_length_Ok in Hs1 as [_ ->]. }
  split.
  { destruct (_ && _) in Hs2; [|injection Hs2 as <-; by left].
    apply set_length_Ok in Hs2 as [? ->]. by right. }
  split; [|done].
  destruct (Z.ltb_spec (normalizedIndent level s1) (Arr.len s2 - 1)) as [Hlt|Hge].
  - inv_bind Hst3 as s3 Hs3. injection Hst3 as <-.
    apply set_length_Ok in Hs3 as [? ->]. by left.
  - by right.
Qed.

Lemma grows_kindOf h h' n : grows h h' -> (n < length h)%nat -> kindOf h' n = kindOf h n.
Proof.
  intros [[_ P] _] Hn. destruct (P n Hn) as [K _]. unfold kindOf. exact K.
Qed.

Lemma processItem_house css n0 st it st' level :
  wf_item it -> Arr.dense (stack st) -> stack_of_lists st ->
  (n0 <= length (heap st))%nat ->
  indent (itemData it) = Some level -> processItem css st it = Ok st' ->
  isHTMLElement (heap st) (element it) = true ->
  hasLocalName (heap st) "span" (element it) = false ->
  (element it < n0)%nat ->
  Arr.dense (stack st') /\ stack_of_lists st' /\
  (exists li l,
     (li = element it \/ ((n0 <= li)%nat /\ parentNode (heap st') (element it) = Some li)) /\
     tagName (heap st') li = Some "LI" /\ parentNode (heap st') li = Some l /\
     isListTag (heap st') l) /\
  (forall n, (n < length (heap st))%nat -> n <> element it ->
     hasLocalName (heap st) "span" n = false ->
     parentNode (heap st') n = parentNode (heap st) n).
Proof.
  intros Hwf D SL Hn0 Hlevel H Hhtml Hspan He.
  destruct (processItem_stack_step css st it st' level Hwf D Hlevel H)
    as (D' & s0' & d' & _ & Hd' & Hpos' & _).
  pose proof (processItem_grows _ _ _ _ H) as G.
  destruct (processItem_split _ _ _ _ _ Hlevel H) as (s1 & s2 & st3 & Hs1 & Hs2 & Hst3 & Happ).
  cbv zeta in *. set (d := normalizedIndent level s1) in *.
  pose proof (appendItem_spec _ _ _ _ Happ) as [G3 _].
  destruct D as [Dlen Dget].
  assert (L1 : 0 <= Arr.len s1) by (destruct Hs1 as [->| ->]; [done | simpl; lia]).
  assert (Hd : 0 <= d <= Arr.len s1).
  { unfold d, normalizedIndent in *. lia. }
  assert (F1 : forall j fr, Arr.get j s1 = Some fr -> Arr.get j (stack st) = Some fr).
  { intros j fr. destruct Hs1 as [->| ->]; [done|]. rewrite get_truncate.
    by destruct (decide (j < 0)). }
  assert (D1 : forall j, is_Some (Arr.get j s1) <-> 0 <= j < Arr.len s1).
  { destruct Hs1 as [->| ->]; [done|]. intros j. rewrite get_truncate. simpl.
    destruct (decide (j < 0)); split; try lia; intros [? ?]; try done.
    exfalso. assert (is_Some (Arr.get j (stack st))) as I by eauto. apply Dget in I. lia. }
  assert (F2 : forall j fr, Arr.get j s2 = Some fr -> Arr.get j (stack st) = Some fr).
  { intros j fr. destruct Hs2 as [->| [-> _]]; [apply F1|]. rewrite get_truncate.
    destruct (decide (j < d)); [apply F1 | done]. }
  assert (D2 : forall j, 0 <= j < Arr.len s2 -> is_Some (Arr.get j s2)).
  { destruct Hs2 as [->| [-> _]]; [intros j; apply D1|]. intros j. rewrite get_truncate. simpl.
    intros Hj. rewrite decide_True by lia. apply D1. lia. }
  (* the state handed to [appendItem] *)
  assert (C : exists fr,
    Arr.get d (stack st3) = Some fr /\
    (listElement fr < length (heap st3))%nat /\ isListTag (heap st3) (listElement fr) /\
    (forall j fr', j <> d -> Arr.get j (stack st3) = Some fr' ->
                   Arr.get j (stack st) = Some fr') /\
    (length (heap st) <= length (heap st3))%nat /\
    (forall n, (n < length (heap st))%nat ->
       parentNode (heap st3) n = parentNode (heap st) n)).
  { assert (Kept : forall s3, (forall j fr, Arr.get j s3 = Some fr -> Arr.get j s2 = Some fr) ->
              is_Some (Arr.get d s3) -> st3 = withStack st s3 ->
              exists fr, Arr.get d (stack st3) = Some fr /\
                (listElement fr < length (heap st3))%nat /\
                isListTag (heap st3) (listElement fr) /\
                (forall j fr', j <> d -> Arr.get j (stack st3) = Some fr' ->
                   Arr.get j (stack st) = Some fr') /\
                (length (heap st) <= length (heap st3))%nat /\
                (forall n, (n < length (heap st))%nat ->
                   parentNode (heap st3) n = parentNode (heap st) n)).
    { intros s3 Sub [fr Hfr] ->. exists fr. cbn [withStack heap stack].
      destruct (SL d fr (F2 _ _ (Sub _ _ Hfr))) as [? ?].
      split; [done|]. split; [done|]. split; [done|].
      split; [intros j fr' _ Hj; by apply F2, Sub|]. done. }
    destruct Hst3 as [[Hlt ->]|Hopen].
    - apply (Kept (Arr.truncate (d + 1) s2)); [| |done].
      + intros j fr. rewrite get_truncate. by destruct (decide (j < d + 1)).
      + rewrite get_truncate, decide_True by lia. apply D2. lia.
    - destruct (openList_tree _ _ _ _ _ Hopen) as [P3 [[-> Hsome]|[Hstack Htag]]].
      + by apply (Kept s2).
      + cbn [withStack heap stack] in *.
        exists (newFrame it (length (heap st))). rewrite Hstack, get_set.
        rewrite decide_True by done. cbn [newFrame listElement].
        assert (Hl : (length (heap st) < length (heap st3))%nat).
        { destruct Htag as [T|T]; by apply tagName_node in T. }
        split; [done|]. split; [done|]. split; [done|].
        split; [|split; [lia | done]].
        intros j fr' Hj. rewrite get_set, decide_False by done. apply F2. }
  destruct C as (fr & Hfr & Hl & Htag & Hothers & Hlen3 & P3).
  assert (K3 : forall n, (n < length (heap st))%nat -> kindOf (heap st3) n = kindOf (heap st) n).
  { intros n Hn. rewrite <- (grows_kindOf _ _ n G3) by lia. by apply grows_kindOf. }
  assert (He0 : (element it < length (heap st))%nat) by lia.
  destruct (appendItem_house d it st3 st' fr Happ Hfr) as (li & Hli & Tli & Pli & Frame).
  { unfold isHTMLElement. rewrite K3 by done. exact Hhtml. }
  { erewrite hasLocalName_kindOf; [exact Hspan|]. by apply K3. }
  split; [done|]. split.
  { (* the frames *)
    intros j fr' Hj.
    pose proof (appendItem_stack _ _ _ _ Happ) as Hst. rewrite Hfr in Hst.
    destruct Hst as [li' Hst]. rewrite Hst, get_set in Hj.
    assert (Old : forall fr0, Arr.get j (stack st) = Some fr0 ->
              (listElement fr0 < length (heap st'))%nat /\ isListTag (heap st') (listElement fr0)).
    { intros fr0 H0. destruct (SL _ _ H0) as [? ?]. pose proof (grows_length _ _ G).
      split; [lia|]. eapply isListTag_preserved; [apply G | done | done]. }
    destruct (decide (j = d)) as [->|Hne].
    - injection Hj as <-. cbn [pushListItem listElement].
      pose proof (grows_length _ _ G3). split; [lia|].
      eapply isListTag_preserved; [apply G3 | done | done].
    - by apply Old, Hothers. }
  split.
  { exists li, (listElement fr). split.
    - destruct Hli as [->|[-> Hp]]; [by left|]. right. split; [lia | done].
    - split; [done|]. split; [done|].
      eapply isListTag_preserved; [apply G3 | done | done]. }
  intros n Hn Hne Hs. rewrite Frame; [by apply P3 | lia | done |].
  erewrite hasLocalName_kindOf; [exact Hs|]. by apply K3.
Qed.

Lemma LI_not_span h li : tagName h li = Some "LI" -> hasLocalName h "span" li = false.
Proof.
  unfold tagName, hasLocalName. destruct (kindOf h li) as [[name [|]| | |]|]; try done.
  intros [= E]. unfold str_eqb. apply bool_decide_eq_false. intros ->. done.
Qed.

Lemma housedFrom_step n0 st st' e x :
  grows (heap st) (heap st') ->
  (forall n, (n < length (heap st))%nat -> n <> x ->
     hasLocalName (heap st) "span" n = false ->
     parentNode (heap st') n = parentNode (heap st) n) ->
  (x < n0)%nat -> (e < length (heap st))%nat -> e <> x ->
  hasLocalName (heap st) "span" e = false ->
  housedFrom n0 (heap st) e -> housedFrom n0 (heap st') e.
Proof.
  intros G Frame Hx He Hne Hs (li & l & Hli & Tli & Pli & Tl).
  pose proof (tagName_node _ _ _ Tli) as Lli.
  assert (Ll : (l < length (heap st))%nat) by (destruct Tl as [T|T]; by apply tagName_node in T).
  assert (Nli : li <> x) by (destruct Hli as [->|[? _]]; [done | lia]).
  exists li, l. pose proof G as [P _]. split.
  - destruct Hli as [->|[? Hp]]; [by left|]. right. split; [done|].
    by rewrite Frame.
  - split; [by rewrite (preserves_tagName _ _ _ P Lli)|].
    split; [rewrite Frame; [done..|by apply LI_not_span]|].
    by eapply isListTag_preserved.
Qed.

Lemma processItems_house css n0 h0 items : forall st st',
  Forall wf_item items ->
  List.NoDup (List.map element items) ->
  Forall (fun it => isHTMLElement h0 (element it) = true /\
                    hasLocalName h0 "span" (element it) = false /\
                    (element it < n0)%nat /\ is_Some (indent (itemData it))) items ->
  Arr.dense (stack st) -> stack_of_lists st -> (n0 <= length (heap st))%nat ->
  (forall n, (n < n0)%nat -> kindOf (heap st) n = kindOf h0 n) ->
  processItems css items st = Ok st' ->
  forall e, (In e (List.map element items) \/
             ((e < n0)%nat /\ hasLocalName h0 "span" e = false /\
              housedFrom n0 (heap st) e)) ->
            housedFrom n0 (heap st') e.
Proof.
  induction items as [|it items IH]; intros st st' Hwf Hnd Hc D SL Hn0 K0 H e He.
  - injection H as <-. by destruct He as [[]|(_ & _ & ?)].
  - rewrite processItems_cons in H. inv_bind H as st1 H1.
    inversion Hwf as [|? ? Wit Wrest]; subst.
    inversion Hc as [|? ? (Chtml & Cspan & Clt & [level Hlevel]) Crest]; subst.
    simpl in Hnd. inversion Hnd as [|? ? Hnotin Hnd']; subst.
    pose proof (processItem_grows _ _ _ _ H1) as G.
    destruct (processItem_house css n0 st it st1 level Wit D SL Hn0 Hlevel H1)
      as (D1 & SL1 & Hhoused & Frame); [| |done|].
    { unfold isHTMLElement. by rewrite K0. }
    { erewrite hasLocalName_kindOf; [exact Cspan|]. by apply K0. }
    assert (K1 : forall n, (n < n0)%nat -> kindOf (heap st1) n = kindOf h0 n).
    { intros n Hn. rewrite (grows_kindOf _ _ n G) by lia. by apply K0. }
    pose proof (grows_length _ _ G) as Hlen.
    apply (IH st1 st'); try done; [lia|].
    destruct He as [[<-|Hin]|(Hlt & Hs & Hh)].
    + right. split; [done|]. split; [done|]. exact Hhoused.
    + by left.
    + destruct (decide (e = element it)) as [->|Hne].
      * right. split; [done|]. split; [done|]. exact Hhoused.
      * right. split; [done|]. split; [done|].
        apply (housedFrom_step n0 st st1 e (element it)); try done; [lia|].
        erewrite hasLocalName_kindOf; [exact Hs|]. by apply K0.
Qed.

Lemma candidate_not_span h e : isCandidate h e = true -> hasLocalName h "span" e = false.
Proof.
  unfold isCandidate, hasLocalName, tagNameOf, tagName. intros H.
  destruct (kindOf h e) as [[name [|]| | |]|]; try done.
  unfold str_eqb at 1. apply bool_decide_eq_false. intros ->.
  by vm_compute in H.
Qed.

Lemma getListItemData_indent styles :
  is_Some (styles !! "mso-list") -> is_Some (indent (getListItemData styles)).
Proof.
  intros [v Hv]. unfold getListItemData. rewrite Hv.
  destruct (exec true idRegex v) as [[? ?]|]; [|by eexists].
  destruct (exec true orderRegex v) as [[? ?]|]; [|by eexists].
  destruct (exec true indentRegex v) as [[? ?]|]; by eexists.
Qed.

(** X19: where the reconstruction puts the candidates.  Once the
    reconstruction of lists has returned, every candidate of the document
    is a list item, or the child of a list item made for it, and that list
    item is the child of an [ol] or [ul] element. *)
Theorem candidates_housed css h doc items h' :
  List.NoDup (querySelectorAll_any h doc) ->
  findAllItemLikeElements h doc = Ok items ->
  transformListItemLikeLElementsIntoLists h doc css = Ok h' ->
  forall it, In it items -> housed h' (element it).
Proof.
  intros Hnd Hfind Hrun it Hin.
  unfold transformListItemLikeLElementsIntoLists in Hrun. rewrite Hfind in Hrun.
  cbn [JS.bind] in Hrun.
  assert (exists st', processItems css items (initialState h) = Ok st' /\ h' = heap st')
    as (st' & Hloop & ->).
  { destruct items as [|it0 items]; [done|]. inv_bind Hrun as st' Hst'.
    injection Hrun as <-. eauto. }
  clear Hrun.
  destruct (findAllItemLikeElements_filter h doc) as (items' & E & M & _).
  rewrite Hfind in E. injection E as <-.
  assert (F : Forall (fun it => isHTMLElement h (element it) = true /\
                    hasLocalName h "span" (element it) = false /\
                    (element it < length h)%nat /\ is_Some (indent (itemData it))) items).
  { apply Forall_forall. intros x Hx. apply list_elem_of_In in Hx.
    destruct (candidate_of_item _ _ _ _ Hfind Hx) as [Hc Hd].
    pose proof (candidate_not_span _ _ Hc) as Hs.
    unfold isCandidate in Hc. apply andb_true_iff in Hc as [Hc _].
    apply andb_true_iff in Hc as [Hc Hm]. apply andb_true_iff in Hc as [_ Hh].
    split; [done|]. split; [done|].
    split; [apply lookup_lt_is_Some; by apply isHTMLElement_node|].
    rewrite Hd. apply getListItemData_indent.
    unfold hasMsoList in Hm. by apply bool_decide_eq_true in Hm. }
  assert (W : Forall wf_item items) by (by eapply findAllItemLikeElements_wf).
  assert (N : List.NoDup (List.map element items)).
  { rewrite M. by apply List.NoDup_filter. }
  assert (SL : stack_of_lists (initialState h)).
  { intros j fr Hj. unfold initialState, Arr.get, Arr.empty in Hj. simpl in Hj.
    by rewrite lookup_empty in Hj. }
  destruct (processItems_house css (length h) h items (initialState h) st' W N F
              dense_empty SL (le_n _) (fun n _ => eq_refl) Hloop (element it))
    as (li & l & Hli & Tli & Pli & Tl).
  { left. by apply in_map. }
  exists li, l. split; [|done]. destruct Hli as [->|[_ ?]]; auto.
Qed.

(** The theorem of X19 at a sample document: the third paragraph is the
    child of the list item 22 of the list 21. *)
Lemma candidates_housed_witness :
  let h' := heapOf (transformListItemLikeLElementsIntoLists docResume documentNode cssStart5) in
  element (item_at docResume 2) = 14%nat /\
  parentNode h' 14 = Some 22%nat /\ tagName h' 22 = Some "LI" /\
  parentNode h' 22 = Some 21%nat /\ tagName h' 21 = Some "OL" /\
  housed h' 14.
Proof.
  intros h'. split; [reflexivity|]. do 4 (split; [vm_compute; reflexivity|]).
  apply (candidates_housed cssStart5 docResume documentNode (items docResume) h'
           ltac:(apply NoDup_ListNoDup; apply (bool_decide_unpack _); vm_compute; exact I)
           ltac:(vm_compute; reflexivity) ltac:(vm_compute; reflexivity)
           (item_at docResume 2)).
  vm_compute; auto.
Defined.

(** *** What the reconstruction adds *)

Lemma openList_new css d it st st' :
  openList css d it st = Ok st' ->
  forall n, (length (heap st) <= n < length (heap st'))%nat -> isListTag (heap st') n.
Proof.
  intros H n Hn. pose proof (openList_tree _ _ _ _ _ H) as [_ [[-> _]|[_ Htag]]]; [lia|].
  assert (n = length (heap st)) as ->; [|exact Htag].
  unfold openList in H. inv_bind H as ls Hls.
  destruct (_ || _); [|injection H as <-; lia].
  destruct (createNewEmptyList _ _ _) as [h1 l] eqn:E.
  inv_bind H as h2 Hh2. injection H as <-. cbn [heap] in *.
  pose proof (createNewEmptyList_spec _ _ _ _ E) as (_ & L1 & _).
  apply insertList_links_only, links_only_length in Hh2. cbn [withStack heap] in *. lia.
Qed.

Lemma appendItem_new d it st st' :
  appendItem d it st = Ok st' ->
  forall n, (length (heap st) <= n < length (heap st'))%nat ->
            tagName (heap st') n = Some "LI".
Proof.
  unfold appendItem. intros H n Hn.
  destruct (str_eqb (toLowerCase (tagNameOf (heap st) (element it))) "li").
  - exfalso. inv_bind H as ap Hap. inv_bind H as h3 Hh3. inv_bind H as h4 Hh4.
    injection H as <-. cbn [heap] in Hn.
    assert (L2 : length ap.1 = length (heap st)).
    { destruct (Arr.get d (stack st)) as [fr|]; [|by injection Hap as <-].
      inv_bind Hap as h2 Hh2. injection Hap as <-. simpl.
      by apply appendChild_links_only, links_only_length in Hh2. }
    assert (L3 : length h3 = length ap.1).
    { destruct (negb _); [|by injection Hh3 as <-].
      by apply appendChild_links_only, links_only_length in Hh3. }
    apply removeMsoListIgnoreSpans_links_only, links_only_length in Hh4. lia.
  - unfold createElement in H. cbn [toLowerCase map_string] in H.
    set (h1 := (heap st ++ [Node (Element (map_string lower "li") true) [] None []])%list) in *.
    inv_bind H as ap Hap. inv_bind H as h3 Hh3. inv_bind H as h4 Hh4.
    injection H as <-. cbn [heap] in *.
    assert (L2 : links_only h1 ap.1).
    { destruct (Arr.get d (stack st)) as [fr|]; [|injection Hap as <-; apply links_only_refl].
      inv_bind Hap as h2 Hh2. injection Hap as <-. simpl.
      by apply appendChild_links_only in Hh2. }
    assert (L3 : links_only ap.1 h3).
    { destruct (negb _); [|injection Hh3 as <-; apply links_only_refl].
      by apply appendChild_links_only in Hh3. }
    apply removeMsoListIgnoreSpans_links_only in Hh4.
    assert (L : links_only h1 h4) by (eapply links_only_trans; [|exact Hh4]; by eapply links_only_trans).
    assert (n = length (heap st)) as ->.
    { apply links_only_length in L. unfold h1 in L. rewrite length_app in L. simpl in L. lia. }
    unfold tagName. rewrite (links_only_kindOf _ _ _ L). unfold kindOf, h1.
    by rewrite list_lookup_middle.
Qed.

Lemma processItem_new css st it st' :
  processItem css st it = Ok st' ->
  forall n, (length (heap st) <= n < length (heap st'))%nat ->
            isListTag (heap st') n \/ tagName (heap st') n = Some "LI".
Proof.
  intros H n Hn. destruct (indent (itemData it)) as [level|] eqn:E.
  2:{ unfold processItem in H. rewrite E in H. injection H as <-. lia. }
  destruct (processItem_split _ _ _ _ _ E H) as (s1 & s2 & st3 & _ & _ & Hst3 & Happ).
  pose proof (appendItem_spec _ _ _ _ Happ) as [G3 _].
  destruct (decide (n < length (heap st3))%nat) as [Hlt|Hge].
  - left. destruct Hst3 as [[_ ->]|Hopen]; [cbn [withStack heap] in Hlt; lia|].
    eapply isListTag_preserved; [apply G3 | done|].
    apply (openList_new _ _ _ _ _ Hopen). cbn [withStack heap]. lia.
  - right. apply (appendItem_new _ _ _ _ Happ). lia.
Qed.

Lemma processItems_new css items : forall st st',
  processItems css items st = Ok st' ->
  forall n, (length (heap st) <= n < length (heap st'))%nat ->
            isListTag (heap st') n \/ tagName (heap st') n = Some "LI".
Proof.
  induction items as [|it items IH]; intros st st' H n Hn.
  - injection H as <-. lia.
  - rewrite processItems_cons in H. inv_bind H as st1 H1.
    destruct (decide (n < length (heap st1))%nat) as [Hlt|Hge].
    + pose proof (processItems_grows _ _ _ _ H) as [P _].
      destruct (processItem_new _ _ _ _ H1 n ltac:(lia)) as [T|T].
      * left. by eapply isListTag_preserved.
      * right. by rewrite (preserves_tagName _ _ _ P Hlt).
    + apply (IH _ _ H). lia.
Qed.

(** X20: the reconstruction only rearranges and adds list elements.  Every
    node of the parsed document is still there with its kind and its
    attributes, so that no text and no attribute changes, and every node
    that the reconstruction adds is an [ol], [ul] or [li] element without a
    class attribute. *)
Theorem reconstruction_adds_lists_only h doc css h' :
  transformListItemLikeLElementsIntoLists h doc css = Ok h' ->
  preserves h h' /\
  forall n, (length h <= n < length h')%nat ->
    (isListTag h' n \/ tagName h' n = Some "LI") /\ getAttribute h' n "class" = None.
Proof.
  intros H. pose proof (transform_grows _ _ _ _ H) as [P C]. split; [done|].
  intros n Hn. split; [|apply C; lia].
  unfold transformListItemLikeLElementsIntoLists in H. inv_bind H as items Hitems.
  destruct items as [|it items]; [injection H as <-; lia|].
  inv_bind H as st Hst. injection H as <-.
  by apply (processItems_new _ _ _ _ Hst).
Qed.

(** The theorem of X20 at a sample document. *)
Lemma reconstruction_adds_lists_only_witness :
  let h' := heapOf (transformListItemLikeLElementsIntoLists docResume documentNode cssStart5) in
  length docResume = 18%nat /\ length h' = 23%nat /\
  tagName h' 18 = Some "OL" /\ tagName h' 21 = Some "OL" /\
  Forall (fun n => isListTag h' n \/ tagName h' n = Some "LI") [18; 19; 20; 21; 22]%nat.
Proof.
  intros h'. split; [reflexivity|]. split; [vm_compute; reflexivity|].
  do 2 (split; [vm_compute; reflexivity|]).
  destruct (reconstruction_adds_lists_only docResume documentNode cssStart5 h') as [_ N].
  { vm_compute; reflexivity. }
  assert (L : length h' = 23%nat) by (vm_compute; reflexivity).
  assert (L0 : length docResume = 18%nat) by reflexivity.
  repeat (apply Forall_cons_2; [apply N; rewrite L0, L; lia|]). apply Forall_nil_2.
Defined.

Lemma isElementEmpty_no_kids h e : kids h e = [] -> isElementEmpty h e = true.
Proof.
  intros H. unfold isElementEmpty, textContent, innerHTML.
  by rewrite (descendants_no_kids _ _ H), H.
Qed.

Lemma isWordElement_tag h e : isWordElement h e = true -> isWordTag (tagNameOf h e).
Proof.
  unfold isWordElement, isWordTag, str_eqb. intros H.
  apply orb_true_iff in H as [H|H]; [apply orb_true_iff in H as [H|H]|].
  - apply bool_decide_eq_true in H. auto.
  - apply andb_true_iff in H as [H _]. apply bool_decide_eq_true in H. auto.
  - apply andb_true_iff in H as [H _]. apply bool_decide_eq_true in H. auto.
Qed.

Lemma isWordElement_empty h e :
  isWordTag (tagNameOf h e) -> kids h e = [] -> isWordElement h e = true.
Proof.
  intros T K. unfold isWordElement. rewrite (isElementEmpty_no_kids _ _ K).
  unfold str_eqb. destruct T as [->|[->| ->]]; reflexivity.
Qed.

Lemma cleanItems_collected items : forall h u h2 u2,
  fold_left cleanItem items (h, u) = (h2, u2) ->
  (forall e, In e u2 -> In e u \/ isWordTag (tagNameOf h e)) /\
  (forall e, In e items -> isWordTag (tagNameOf h e) -> kids h e = [] -> In e u2).
Proof.
  induction items as [|x items IH]; intros h u h2 u2; cbn [fold_left].
  - intros [= <- <-]. split; [auto | by intros e []].
  - destruct (cleanItem (h, u) x) as [h1 u1] eqn:E. intros H.
    destruct (cleanItem_tree _ _ _ _ _ E) as [T U].
    destruct (cleanItems_tree _ _ _ _ _ H) as (_ & _ & _ & Mono & _).
    destruct (IH _ _ _ _ H) as [Col Emp].
    assert (Tag : forall e, tagNameOf h1 e = tagNameOf h e).
    { intros e. unfold tagNameOf, tagName. by destruct (T e) as [_ ->]. }
    assert (K1 : forall e, kids h1 e = kids h e).
    { intros e. assert (F : fold_left cleanItem [x] (h, u) = (h1, u1)) by (cbn [fold_left]; exact E).
      by destruct (cleanItems_shape _ _ _ _ _ F) as [_ ->]. }
    split.
    + intros e He. apply Col in He as [He|He]; [|right; by rewrite <- Tag].
      apply U in He as [He|[-> Hw]]; [by left|]. right.
      rewrite <- Tag. by apply isWordElement_tag.
    + intros e [<-|He] Ht Hk.
      * apply Mono, U. right. split; [done|].
        apply isWordElement_empty; [by rewrite Tag | by rewrite K1].
      * apply Emp; [done | by rewrite Tag | by rewrite K1].
Qed.

Lemma unwrap_parent_other items : forall h h',
  fold_left (fun acc item => h' <- acc ;;
               match parentNode h' item with
               | Some itemParent => removeChild h' itemParent item
               | None => Throw (TypeError "Cannot read properties of null (reading 'removeChild')")
               end) items (Ok h) = Ok h' ->
  forall x, ~ In x items -> parentNode h' x = parentNode h x.
Proof.
  induction items as [|y items IH]; intros h h'; simpl.
  - by intros [= <-].
  - destruct (parentNode h y) as [p|] eqn:Ep; simpl.
    + rewrite (unwrap_step _ _ _ Ep). intros H x Hx.
      rewrite (IH _ _ H) by tauto. rewrite parentNode_detach.
      rewrite decide_False; [done|]. intros ->. tauto.
    + intros H. exfalso. clear -H. induction items; simpl in *; [done | auto].
Qed.

(** X17: which elements attribute cleanup takes out of the tree.  Once the
    cleanup has returned, an element of the document with the tag name
    [W:SDT] has no parent, and neither has one with the tag name [W:SDTPR]
    or [O:P] that has no children: they are removed, a content control
    together with what it contains.  A node with another tag name keeps
    its parent. *)
Theorem word_elements_removed h doc h' e :
  removeMSAttributes h doc = Ok h' ->
  (In e (querySelectorAll_any h doc) ->
   tagNameOf h e = "W:SDT" \/ (isWordTag (tagNameOf h e) /\ kids h e = []) ->
   parentNode h' e = None) /\
  (~ isWordTag (tagNameOf h e) -> parentNode h' e = parentNode h e).
Proof.
  unfold removeMSAttributes.
  destruct (fold_left cleanItem _ _) as [h1 u] eqn:E. intros H.
  destruct (cleanItems_tree _ _ _ _ _ E) as (T & _ & W & _).
  destruct (cleanItems_collected _ _ _ _ _ E) as [Col Emp].
  split.
  - intros He Ht. apply (unwrap_detached _ _ _ H). left.
    destruct Ht as [Ht|[Ht Hk]]; [by apply W | by apply Emp].
  - intros Ht. rewrite (unwrap_parent_other _ _ _ H); [by destruct (T e)|].
    intros Hin. by destruct (Col e Hin) as [[]|?].
Qed.

(** The theorem of X17 at a sample document: the empty Office paragraph 6
    and the content control 10 go, the Office paragraph 8 with its text
    stays, as do the paragraphs. *)
Lemma word_elements_removed_witness :
  let h' := heapOf (removeMSAttributes docOfficeP documentNode) in
  List.map (tagNameOf docOfficeP) [6; 8; 10]%nat = ["O:P"; "O:P"; "W:SDT"] /\
  parentNode h' 6 = None /\ parentNode h' 10 = None /\
  parentNode h' 8 = Some 7%nat /\ parentNode h' 4 = Some body.
Proof.
  intros h'. split; [reflexivity|].
  assert (Hrun : removeMSAttributes docOfficeP documentNode = Ok h') by (vm_compute; reflexivity).
  split; [|split].
  - apply (word_elements_removed docOfficeP documentNode h' 6 Hrun); [vm_compute; tauto|].
    right. split; [right; right; reflexivity | reflexivity].
  - apply (word_elements_removed docOfficeP documentNode h' 10 Hrun); [vm_compute; tauto|].
    left. reflexivity.
  - split; [vm_compute; reflexivity|].
    destruct (word_elements_removed docOfficeP documentNode h' 4 Hrun) as [_ K].
    rewrite K; [reflexivity|]. intros [T|[T|T]]; vm_compute in T; discriminate.
Defined.

(* ===================================================================== *)
(** ** Cleanup, markers and white space in full                           *)
(* ===================================================================== *)

(** *** The classes that the cleanup removes *)





(** *** The node that carries the marker *)






(** *** Safari spans anywhere in the text *)

Lemma chr_matches_eq a c : chr_matches false a c = true -> a = c.
Proof. unfold chr_matches. apply bool_decide_eq_true_1. Qed.

(** A literal that matches has read itself. *)
Lemma lit_sound {R} w : forall prev s cs (k : @cont R) x,
  w <> EmptyString ->
  run false (lit w) prev s cs k = Some x ->
  exists t, s = w +:+ t /\ k (lastOr prev w) t cs = Some x.
Proof.
  induction w as [|a w IH]; intros prev s cs k x Hw H; [done|].
  destruct w as [|b w].
  - cbn [lit run] in H. destruct s as [|c s]; [done|].
    destruct (chr_matches false a c) eqn:E; [|done]. apply chr_matches_eq in E as <-.
    exists s. by rewrite append_cons, append_nil.
  - change (lit (String a (String b w))) with (Seq (Chr a) (lit (String b w))) in H.
    rewrite run_seq in H. destruct s as [|c s]; [done|]. rewrite run_chr in H.
    destruct (chr_matches false a c) eqn:E; [|done]. apply chr_matches_eq in E as <-.
    apply IH in H as (t & -> & Hk); [|done]. exists t. by rewrite append_cons.
Qed.

Lemma alt_sound {R} icase a b prev s cs (k : @cont R) x :
  run icase (Alt a b) prev s cs k = Some x ->
  run icase a prev s cs k = Some x \/ run icase b prev s cs k = Some x.
Proof. cbn [run]. destruct (run icase a prev s cs k); [by left | by right]. Qed.

Lemma space_no_lt ws : forall_string isSpace ws = true -> noChar "<" ws = true.
Proof.
  unfold noChar. induction ws as [|c ws IH]; [done|]. simpl. intros H.
  apply andb_true_iff in H as [Hc Hws]. rewrite (IH Hws), andb_true_r.
  apply negb_true_iff, bool_decide_eq_false_2. by intros ->.
Qed.

(** A match of the pattern is a Safari span: one of the two opening tags,
    white space, and the closing tag. *)
Lemma match_here_safari_sound prev s rest cs :
  match_here false safariSpanRegex prev s = Some (rest, cs) ->
  exists opening ws,
    (opening = spanOpen \/ opening = appleSpanOpen) /\
    ws <> EmptyString /\ forall_string isSpace ws = true /\
    s = opening +:+ ws +:+ "</span>" +:+ rest /\ cs = [(1%nat, ws)].
Proof.
  unfold match_here, safariSpanRegex. cbn [seqs]. rewrite run_seq. intros H.
  apply lit_sound in H as (t1 & -> & H); [|done]. rewrite run_seq in H.
  assert (Tail : forall p t,
             run false (Seq (Chr ">") (Seq (Grp 1 (plus space)) (lit "</span>"))) p t []
                 (fun _ s' cs' => Some (s', cs')) = Some (rest, cs) ->
             exists ws, ws <> EmptyString /\ forall_string isSpace ws = true /\
                        t = ">" +:+ ws +:+ "</span>" +:+ rest /\ cs = [(1%nat, ws)]).
  { intros p t Ht. rewrite run_seq in Ht. destruct t as [|c t]; [done|].
    rewrite run_chr in Ht. destruct (chr_matches false ">" c) eqn:E; [|done].
    apply chr_matches_eq in E as <-. rewrite run_seq in Ht.
    apply grp_cls_sound in Ht as (ws & r & -> & Hws & Hl & _ & Hk); [|done].
    apply lit_sound in Hk as (t2 & -> & Hk); [|done]. injection Hk as <- <-.
    exists ws. split; [by destruct ws; [simpl in Hl; lia|]|]. split; [done|].
    split; [|done]. by rewrite !append_cons, !append_nil. }
  apply alt_sound in H as [H|H].
  - rewrite run_seq in H. apply lit_sound in H as (t2 & -> & H); [|done].
    rewrite run_seq in H. destruct t2 as [|c t2]; [done|]. rewrite run_chr in H.
    destruct (chr_matches false quote c) eqn:E; [|done]. apply chr_matches_eq in E as <-.
    rewrite run_seq in H. apply lit_sound in H as (t3 & -> & H); [|done].
    destruct t3 as [|c t3]; [done|]. rewrite run_chr in H.
    destruct (chr_matches false quote c) eqn:E; [|done]. apply chr_matches_eq in E as <-.
    apply Tail in H as (ws & Hne & Hws & -> & ->).
    exists appleSpanOpen, ws. split; [by right|]. split; [done|]. split; [done|].
    split; [|done]. unfold appleSpanOpen. by rewrite !append_cons, !append_nil.
  - change (run false Eps (lastOr prev "<span") t1 []
              (fun p' s' cs' =>
                 run false (Seq (Chr ">") (Seq (Grp 1 (plus space)) (lit "</span>")))
                     p' s' cs' (fun _ s'' cs'' => Some (s'', cs''))) = Some (rest, cs))
      with (run false (Seq (Chr ">") (Seq (Grp 1 (plus space)) (lit "</span>")))
                (lastOr prev "<span") t1 [] (fun _ s'' cs'' => Some (s'', cs''))
            = Some (rest, cs)) in H.
    apply Tail in H as (ws & Hne & Hws & -> & ->).
    exists spanOpen, ws. split; [by left|]. split; [done|]. split; [done|].
    split; [|done]. unfold spanOpen. by rewrite !append_cons, !append_nil.
Qed.

(** Splitting at the first [<]. *)
Lemma split_at_lt u : forall a y v,
  noChar "<" u = true ->
  a +:+ String "<" y = u +:+ String "<" v ->
  (a = u /\ y = v) \/ (exists a2, a = u +:+ String "<" a2 /\ a2 +:+ String "<" y = v).
Proof.
  unfold noChar. induction u as [|d u IH]; intros a y v Hu H.
  - rewrite append_nil in *. destruct a as [|c a].
    + rewrite append_nil in H. injection H as ->. by left.
    + rewrite append_cons in H. injection H as -> H. right. exists a. by rewrite append_nil.
  - simpl in Hu. apply andb_true_iff in Hu as [Hd Hu].
    apply negb_true_iff, bool_decide_eq_false in Hd.
    rewrite append_cons in H. destruct a as [|c a].
    + rewrite append_nil in H. injection H as <- _. done.
    + rewrite append_cons in H. injection H as -> H.
      destruct (IH _ _ _ Hu H) as [[-> ->]|(a2 & -> & <-)]; [by left|].
      right. exists a2. by rewrite append_cons.
Qed.

Lemma prefix_before_lt w : forall a z rest,
  noChar "<" w = true ->
  a +:+ String "<" z = w +:+ rest ->
  exists rest0, a = w +:+ rest0 /\ rest = rest0 +:+ String "<" z.
Proof.
  unfold noChar. induction w as [|d w IH]; intros a z rest Hw H.
  - rewrite append_nil in *. exists a. by rewrite append_nil.
  - simpl in Hw. apply andb_true_iff in Hw as [Hd Hw].
    apply negb_true_iff, bool_decide_eq_false in Hd.
    rewrite append_cons in H. destruct a as [|c a].
    + rewrite append_nil in H. injection H as <- _. done.
    + rewrite append_cons in H. injection H as -> H.
      destruct (IH _ _ _ Hw H) as (rest0 & -> & ->). exists rest0. by rewrite append_cons.
Qed.

(** A match that begins inside [a] ends inside [a], when [a] is followed
    by an opening tag. *)
Lemma safari_match_inside a y opening ws rest :
  a <> EmptyString ->
  opening = spanOpen \/ opening = appleSpanOpen ->
  forall_string isSpace ws = true ->
  a +:+ String "<" (String "s" y) = opening +:+ ws +:+ "</span>" +:+ rest ->
  exists rest0, a = opening +:+ ws +:+ "</span>" +:+ rest0 /\
                rest = rest0 +:+ String "<" (String "s" y).
Proof.
  intros Ha Hop Hws H. destruct a as [|c a]; [done|]. clear Ha.
  assert (Hop' : exists o1, opening = String "<" o1 /\ noChar "<" o1 = true).
  { destruct Hop as [->| ->]; eexists; split; reflexivity. }
  destruct Hop' as (o1 & -> & Ho1).
  rewrite !append_cons in H. injection H as -> H.
  change ("</span>" +:+ rest) with (String "<" ("/span>" +:+ rest)) in *.
  rewrite <- append_assoc_s in H.
  apply split_at_lt in H as [[_ Hy]|(a2 & -> & H)].
  - discriminate Hy.
  - destruct (prefix_before_lt "/span>" a2 (String "s" y) rest eq_refl H) as (rest0 & -> & ->).
    exists rest0. split; [|done].
    rewrite !append_cons. f_equal. by rewrite append_assoc_s.
  - rewrite noChar_app, Ho1. by apply space_no_lt.
Qed.

Lemma match_here_safari_empty prev : match_here false safariSpanRegex prev EmptyString = None.
Proof. reflexivity. Qed.

(** The matches inside [a] are found whatever follows [a], and no match
    reaches from [a] into a span that follows it. *)
Lemma match_here_safari_local prev a y :
  a <> EmptyString ->
  match_here false safariSpanRegex prev (a +:+ String "<" (String "s" y))
  = (fun m => (fst m +:+ String "<" (String "s" y), snd m))
      <$> match_here false safariSpanRegex prev a.
Proof.
  intros Ha.
  destruct (match_here false safariSpanRegex prev a) as [[rest0 cs]|] eqn:E; simpl.
  - apply match_here_safari_sound in E as (op & ws & Hop & Hne & Hws & -> & ->).
    rewrite !append_assoc_s. by apply match_here_safari_span.
  - destruct (match_here false safariSpanRegex prev (a +:+ String "<" (String "s" y)))
      as [[rest cs]|] eqn:E2; [|done].
    apply match_here_safari_sound in E2 as (op & ws & Hop & Hne & Hws & H & ->).
    destruct (safari_match_inside a y op ws rest Ha Hop Hws H) as (rest0 & -> & _).
    rewrite (match_here_safari_span prev op ws rest0 Hop Hne Hws) in E. done.
Qed.

Lemma replace_safari_nil prev :
  replace_from false safariSpanRegex safariReplacement prev EmptyString 0 = EmptyString.
Proof. reflexivity. Qed.

Lemma replace_safari_span prev opening ws b :
  opening = spanOpen \/ opening = appleSpanOpen ->
  ws <> EmptyString -> forall_string isSpace ws = true ->
  replace_from false safariSpanRegex safariReplacement prev
               (opening +:+ ws +:+ "</span>" +:+ b) 0
  = safariSpaces ws +:+ replace_from false safariSpanRegex safariReplacement None b 0.
Proof.
  intros Hop Hne Hws.
  replace (opening +:+ ws +:+ "</span>" +:+ b) with ((opening +:+ ws +:+ "</span>") +:+ b)
    by (by rewrite !append_assoc_s).
  rewrite (replace_at_match false safariSpanRegex safariReplacement prev _ b [(1%nat, ws)]).
  - f_equal. apply replace_safari_prev.
  - destruct Hop as [->| ->]; done.
  - rewrite !append_assoc_s. by apply match_here_safari_span.
Qed.

(** The rewriting of a text with a Safari span in it: the text in front of
    the span and the text behind it are rewritten on their own. *)
Lemma replace_safari_split n : forall a prev opening ws b,
  (String.length a <= n)%nat ->
  opening = spanOpen \/ opening = appleSpanOpen ->
  ws <> EmptyString -> forall_string isSpace ws = true ->
  replace_from false safariSpanRegex safariReplacement prev
               (a +:+ opening +:+ ws +:+ "</span>" +:+ b) 0
  = replace_from false safariSpanRegex safariReplacement prev a 0
    +:+ safariSpaces ws
    +:+ replace_from false safariSpanRegex safariReplacement None b 0.
Proof.
  induction n as [|n IH]; intros a prev opening ws b Hlen Hop Hne Hws.
  - destruct a; [|simpl in Hlen; lia]. rewrite append_nil, replace_safari_nil, append_nil.
    by apply replace_safari_span.
  - destruct a as [|c a].
    { rewrite append_nil, replace_safari_nil, append_nil. by apply replace_safari_span. }
    assert (Hy : exists y, opening +:+ ws +:+ "</span>" +:+ b = String "<" (String "s" y)).
    { destruct Hop as [->| ->]; eexists; unfold spanOpen, appleSpanOpen;
        rewrite !append_cons; reflexivity. }
    destruct Hy as [y Hy].
    pose proof (match_here_safari_local prev (String c a) y ltac:(done)) as Hloc.
    rewrite <- Hy in Hloc.
    destruct (match_here false safariSpanRegex prev (String c a)) as [[rest0 cs]|] eqn:E.
    + pose proof E as E'.
      apply match_here_safari_sound in E' as (op & w & Hop' & Hne' & Hws' & Ea & ->).
      rewrite Ea. rewrite !append_assoc_s.
      rewrite !(replace_safari_span prev op w) by done.
      rewrite IH; [by rewrite !append_assoc_s | | done..].
      apply (f_equal String.length) in Ea. rewrite !length_append in Ea.
      assert (0 < String.length op)%nat by (destruct Hop' as [->| ->]; simpl; lia).
      simpl in Hlen, Ea. lia.
    + simpl in Hloc. rewrite (append_cons c a) in Hloc |- *.
      cbn [replace_from]. rewrite Hloc, E.
      etransitivity; [|symmetry; apply append_cons].
      f_equal. apply IH; [simpl in Hlen; lia | done..].
Qed.

Lemma safari_spans_everywhere a opening ws b :
  opening = spanOpen \/ opening = appleSpanOpen ->
  ws <> EmptyString -> forall_string isSpace ws = true ->
  normalizeSafariSpaceSpans (a +:+ opening +:+ ws +:+ "</span>" +:+ b)
  = normalizeSafariSpaceSpans a +:+ safariSpaces ws +:+ normalizeSafariSpaceSpans b.
Proof.
  intros. unfold normalizeSafariSpaceSpans, replaceAll.
  by apply (replace_safari_split (String.length a) a).
Qed.

(** A text without the beginning of a span tag is left as it is. *)
Lemma safari_text_untouched s :
  includes "<span" s = false -> normalizeSafariSpaceSpans s = s.
Proof.
  unfold normalizeSafariSpaceSpans, replaceAll. generalize (@None ascii).
  induction s as [|c s IH]; intros prev H; [done|].
  cbn [includes] in H. apply orb_false_elim in H as [Hs Hi].
  cbn [replace_from].
  destruct (match_here false safariSpanRegex prev (String c s)) as [[rest cs]|] eqn:E.
  - apply match_here_safari_sound in E as (op & ws & Hop & _ & _ & Ea & _).
    rewrite Ea in Hs. destruct Hop as [->| ->]; discriminate Hs.
  - f_equal. by apply IH.
Qed.

(** *** Space-run spans, all of them *)

Lemma kindOf_update n f (h : list node) m :
  (forall nd, nkind (f nd) = nkind nd) -> kindOf (update n f h) m = kindOf h m.
Proof.
  intros Hf. unfold kindOf. rewrite update_lookup.
  destruct (decide (m = n)) as [->|]; [|done].
  destruct (h !! n) as [nd|]; simpl; [by rewrite Hf | done].
Qed.

Lemma kids_update_other n f (h : list node) m :
  m <> n -> kids (update n f h) m = kids h m.
Proof. intros Hne. unfold kids. by rewrite update_lookup, decide_False. Qed.

Lemma fold_detach_same cs : forall (h : list node) n,
  kids (fold_left (fun h' c => update c (with_parent None) h') cs h) n = kids h n /\
  kindOf (fold_left (fun h' c => update c (with_parent None) h') cs h) n = kindOf h n.
Proof.
  induction cs as [|c cs IH]; intros h n; simpl; [done|].
  destruct (IH (update c (with_parent None) h) n) as [-> ->].
  by rewrite kids_update_parent, kindOf_update.
Qed.

Lemma kids_app_old (h : list node) nd n : (n < length h)%nat -> kids (h ++ [nd]) n = kids h n.
Proof. intros Hn. unfold kids. by rewrite lookup_app_l. Qed.

Lemma kindOf_app_old (h : list node) nd n :
  (n < length h)%nat -> kindOf (h ++ [nd]) n = kindOf h n.
Proof. intros Hn. unfold kindOf. by rewrite lookup_app_l. Qed.

(** What [set_innerText] leaves as it is, and what it makes of the node. *)
Lemma set_innerText_frame (h : list node) x text :
  is_Some (h !! x) ->
  (forall n, (n < length h)%nat -> kindOf (set_innerText h x text) n = kindOf h n) /\
  (forall n, (n < length h)%nat -> n <> x -> kids (set_innerText h x text) n = kids h n) /\
  holdsText (set_innerText h x text) x.
Proof.
  intros Hx. unfold set_innerText.
  destruct (drop_children_spec h x Hx) as (L1 & K1 & E1).
  assert (Kd : forall n, kindOf (drop_children h x) n = kindOf h n).
  { intros n. unfold drop_children. rewrite kindOf_update by done.
    by destruct (fold_detach_same (kids h x) h n). }
  assert (Ko : forall n, n <> x -> kids (drop_children h x) n = kids h n).
  { intros n Hn. unfold drop_children. rewrite kids_update_other by done.
    by destruct (fold_detach_same (kids h x) h n). }
  set (h1 := drop_children h x) in *.
  destruct text as [|c text]; simpl is_empty; cbv iota.
  - split; [intros; apply Kd|]. split; [intros; by apply Ko|].
    unfold holdsText. rewrite K1. constructor.
  - set (txt := String c text). unfold createTextNode.
    set (nd := Node (Text txt) [] None []).
    set (t := length h1).
    assert (Hxt : x <> t).
    { unfold t. destruct E1 as [y Hy]. apply lookup_lt_Some in Hy. lia. }
    assert (Et : (h1 ++ [nd])%list !! t = Some nd) by (unfold t; by rewrite list_lookup_middle).
    split; [|split].
    + intros n Hn. rewrite !kindOf_update by done. rewrite kindOf_app_old by lia. apply Kd.
    + intros n Hn Hne. rewrite kids_update_parent, kids_update_other by done.
      rewrite kids_app_old by lia. by apply Ko.
    + unfold holdsText. rewrite kids_update_parent.
      rewrite kids_update_same by (rewrite lookup_app_l; [done | by apply lookup_lt_is_Some]).
      constructor; [|constructor]. split.
      * exists txt. rewrite !kindOf_update by done. unfold kindOf. by rewrite Et.
      * rewrite kids_update_parent, kids_update_other by done. unfold kids. by rewrite Et.
Qed.

Lemma descendants_text h s : holdsText h s -> descendants h s = kids h s.
Proof.
  intros H. unfold descendants. destruct (length h) as [|f] eqn:L.
  - apply length_zero_iff_nil in L. subst h. done.
  - cbn [descendants_fuel]. unfold holdsText in H.
    induction H as [|c l [_ Hc] _ IH]; [done|]. cbn [flat_map].
    rewrite IH. replace (descendants_fuel f h c) with (@nil nat); [done|].
    destruct f; simpl; [done | by rewrite Hc].
Qed.

Lemma textContent_text h s :
  holdsText h s ->
  textContent h s = fold_right (fun c acc => ownText h c +:+ acc) EmptyString (kids h s).
Proof. intros H. unfold textContent. by rewrite descendants_text. Qed.

Lemma isTextLeaf_node h c : isTextLeaf h c -> (c < length h)%nat.
Proof.
  intros [[d Hd] _]. unfold kindOf in Hd. destruct (h !! c) eqn:E; [|done].
  by eapply lookup_lt_Some.
Qed.

Lemma isElement_node h s : isElement h s = true -> is_Some (h !! s).
Proof. unfold isElement, kindOf. destruct (h !! s); [eauto | done]. Qed.

(** The span that is rewritten gets the space run of the length of its
    text, and an element with text content other than that span keeps its
    text. *)
Lemma normalizeSpacerunSpan_self h x :
  isElement h x = true ->
  isElement (normalizeSpacerunSpan h x) x = true /\
  holdsText (normalizeSpacerunSpan h x) x /\
  textContent (normalizeSpacerunSpan h x) x = spaceRun (String.length (textContent h x)).
Proof.
  intros Hx. pose proof (isElement_node _ _ Hx) as Hn.
  destruct (set_innerText_frame h x (spaceRun (String.length (textContent h x))) Hn)
    as (K & _ & T).
  split; [|split; [exact T | by apply spacerun_span_text]].
  unfold isElement, normalizeSpacerunSpan in *. rewrite K; [done|].
  by apply lookup_lt_is_Some.
Qed.

Lemma normalizeSpacerunSpan_other h x s :
  isElement h x = true -> isElement h s = true -> holdsText h s -> s <> x ->
  isElement (normalizeSpacerunSpan h x) s = true /\
  holdsText (normalizeSpacerunSpan h x) s /\
  textContent (normalizeSpacerunSpan h x) s = textContent h s.
Proof.
  intros Hx Hs Ht Hne. pose proof (isElement_node _ _ Hx) as Hn.
  destruct (set_innerText_frame h x (spaceRun (String.length (textContent h x))) Hn)
    as (K & O & _).
  fold (normalizeSpacerunSpan h x) in K, O. set (h1 := normalizeSpacerunSpan h x) in *.
  assert (Hsn : (s < length h)%nat) by (by apply lookup_lt_is_Some, isElement_node).
  assert (Ks : kids h1 s = kids h s) by (by apply O).
  assert (Leaf : forall c, isTextLeaf h c -> isTextLeaf h1 c /\ ownText h1 c = ownText h c).
  { intros c Hc. pose proof (isTextLeaf_node _ _ Hc) as Hcn.
    destruct Hc as [[d Hd] Hk].
    assert (c <> x).
    { intros ->. unfold isElement in Hx. by rewrite Hd in Hx. }
    split; [split|].
    - exists d. by rewrite K.
    - by rewrite O.
    - unfold ownText. by rewrite K. }
  assert (Ht1 : holdsText h1 s).
  { unfold holdsText in *. rewrite Ks. eapply Forall_impl; [exact Ht|].
    intros c Hc. by apply Leaf. }
  split; [unfold isElement; by rewrite K|]. split; [exact Ht1|].
  rewrite !textContent_text by done. rewrite Ks.
  assert (G : forall l, Forall (isTextLeaf h) l ->
            fold_right (fun c acc => ownText h1 c +:+ acc) EmptyString l
            = fold_right (fun c acc => ownText h c +:+ acc) EmptyString l).
  { induction 1 as [|c l Hc _ IH]; [done|]. simpl.
    destruct (Leaf c Hc) as [_ ->]. by rewrite IH. }
  by apply G.
Qed.

Lemma spaceRun_settled n : spaceRun (String.length (spaceRun n)) = spaceRun n.
Proof. by destruct (spaceRun_spec n) as [-> _]. Qed.

Lemma isSpacerunSpan_element h s : isSpacerunSpan h s = true -> isElement h s = true.
Proof.
  unfold isSpacerunSpan, hasLocalName, isElement. intros H.
  apply andb_true_iff in H as [H _]. by destruct (kindOf h s) as [[]|].
Qed.

(** *** Space-run spans with any content *)

Lemma fold_text_app h l : forall b,
  fold_right (fun c acc => ownText h c +:+ acc) b l
  = fold_right (fun c acc => ownText h c +:+ acc) EmptyString l +:+ b.
Proof.
  induction l as [|c l IH]; intros b; simpl; [by rewrite append_nil|].
  by rewrite IH, append_assoc_s.
Qed.

Lemma textAt_S f h n :
  textAt (S f) h n
  = fold_right (fun c acc => ownText h c +:+ textAt f h c +:+ acc) EmptyString (kids h n).
Proof.
  unfold textAt. cbn [descendants_fuel].
  induction (kids h n) as [|c l IH]; [done|].
  cbn [flat_map fold_right]. rewrite <- IH. rewrite <- app_comm_cons. cbn [fold_right].
  f_equal. rewrite fold_right_app. apply fold_text_app.
Qed.

Lemma textAt_no_kids f h n : kids h n = [] -> textAt f h n = EmptyString.
Proof. intros K. destruct f; [done|]. by rewrite textAt_S, K. Qed.

Section Ranked.
Variables (h : list node) (rank : nat -> nat).
Hypothesis wf : forall p c, In c (kids h p) -> (c < length h)%nat /\ (rank c < rank p < length h)%nat.

(** Fuel above the rank of a node is as good as any. *)
Lemma textAt_fuel : forall f g n,
  (rank n < f)%nat -> (rank n < g)%nat -> textAt f h n = textAt g h n.
Proof.
  induction f as [|f IH]; intros g n Hf Hg; [lia|]. destruct g as [|g]; [lia|].
  rewrite !textAt_S.
  assert (G : forall l, (forall c, In c l -> In c (kids h n)) ->
            fold_right (fun c acc => ownText h c +:+ textAt f h c +:+ acc) EmptyString l
            = fold_right (fun c acc => ownText h c +:+ textAt g h c +:+ acc) EmptyString l).
  { induction l as [|c l IHl]; intros Hl; [done|]. cbn [fold_right].
    destruct (wf n c (Hl c (or_introl eq_refl))) as [_ Hr].
    rewrite (IH g c) by lia. rewrite IHl; [done|]. intros d Hd. apply Hl. by right. }
  by apply G.
Qed.

Lemma textAt_textContent f n : (rank n < f)%nat -> textAt f h n = textContent h n.
Proof.
  intros Hf. change (textContent h n) with (textAt (length h) h n).
  destruct (kids h n) as [|c l] eqn:K; [by rewrite !textAt_no_kids|].
  apply textAt_fuel; [done|].
  destruct (wf n c) as [_ ?]; [rewrite K; by left | lia].
Qed.

Lemma holdsText_textAt (h1 : list node) x f :
  holdsText h1 x -> textAt (S f) h1 x = textContent h1 x.
Proof.
  intros H. rewrite textContent_text by done. rewrite textAt_S.
  unfold holdsText in H. induction H as [|c l [_ Hc] _ IH]; [done|].
  cbn [fold_right]. by rewrite IH, (textAt_no_kids f h1 c Hc), append_nil.
Qed.

(** Giving a node a text of the length of its text leaves the length of
    every text as it is. *)
Lemma set_innerText_length x text :
  is_Some (h !! x) -> String.length text = String.length (textContent h x) ->
  forall f n, (rank n < f)%nat -> (n < length h)%nat ->
    String.length (textAt f (set_innerText h x text) n) = String.length (textAt f h n).
Proof.
  intros Hx Hlen.
  destruct (set_innerText_frame h x text Hx) as (K & O & T).
  set (h1 := set_innerText h x text) in *.
  induction f as [|f IH]; intros n Hf Hn; [lia|].
  destruct (decide (n = x)) as [->|Hne].
  - rewrite (holdsText_textAt h1 x f T). unfold h1.
    rewrite textContent_set_innerText by done. by rewrite textAt_textContent.
  - rewrite !textAt_S. rewrite O by done.
    assert (G : forall l, (forall c, In c l -> In c (kids h n)) ->
              String.length
                (fold_right (fun c acc => ownText h1 c +:+ textAt f h1 c +:+ acc) EmptyString l)
              = String.length
                (fold_right (fun c acc => ownText h c +:+ textAt f h c +:+ acc) EmptyString l)).
    { induction l as [|c l IHl]; intros Hl; [done|]. cbn [fold_right].
      destruct (wf n c (Hl c (or_introl eq_refl))) as [Hc Hr].
      rewrite !length_append. rewrite IHl by (intros d Hd; apply Hl; by right).
      rewrite (IH c) by lia. unfold ownText. by rewrite K. }
    by apply G.
Qed.

End Ranked.

Lemma set_innerText_shape (h : list node) x text :
  is_Some (h !! x) ->
  length (set_innerText h x text) = (if is_empty text then length h else S (length h)) /\
  kids (set_innerText h x text) x = (if is_empty text then [] else [length h]).
Proof.
  intros Hx. unfold set_innerText.
  destruct (drop_children_spec h x Hx) as (L1 & K1 & E1).
  destruct text as [|c text]; simpl is_empty; cbv iota; [done|].
  unfold createTextNode. rewrite !update_length, length_app, L1. split; [simpl; lia|].
  rewrite kids_update_parent. rewrite kids_update_same; [done|].
  rewrite lookup_app_l; [done | by apply lookup_lt_is_Some].
Qed.

Lemma kids_outside (h : list node) n : (length h <= n)%nat -> kids h n = [].
Proof. intros H. unfold kids. by rewrite lookup_ge_None_2. Qed.

Lemma textContent_no_kids h n : kids h n = [] -> textContent h n = EmptyString.
Proof. intros K. unfold textContent. by rewrite descendants_no_kids. Qed.

Lemma spaceRun_empty n : spaceRun n = EmptyString -> n = 0%nat.
Proof. intros H. destruct (spaceRun_spec n) as [L _]. rewrite H in L. done. Qed.

(** The heap still holds trees once a span is rewritten. *)
Lemma normalizeSpacerunSpan_tree h x :
  treeLike h -> isElement h x = true -> treeLike (normalizeSpacerunSpan h x).
Proof.
  intros [rank wf] Ex. pose proof (isElement_node _ _ Ex) as Hx.
  unfold normalizeSpacerunSpan.
  set (text := spaceRun (String.length (textContent h x))).
  destruct (set_innerText_frame h x text Hx) as (_ & O & T).
  destruct (set_innerText_shape h x text Hx) as [L Kx].
  set (h1 := set_innerText h x text) in *.
  assert (Hxn : (x < length h)%nat) by (by apply lookup_lt_is_Some).
  exists (fun n => if decide (n = length h) then 0%nat else rank n).
  intros p c Hc.
  assert (Old : forall q d, In d (kids h q) ->
            (d < length h1)%nat /\
            ((if decide (d = length h) then 0 else rank d)
             < (if decide (q = length h) then 0 else rank q) < length h1)%nat).
  { intros q d Hd. destruct (wf q d Hd) as [Hdn Hr].
    assert (Hq : (q < length h)%nat).
    { destruct (decide (q < length h)%nat) as [|Hge]; [done|].
      rewrite kids_outside in Hd by lia. done. }
    rewrite !decide_False by lia. destruct (is_empty text); lia. }
  destruct (decide (p = x)) as [->|Hne].
  - rewrite Kx in Hc. destruct (is_empty text) eqn:Et; [done|].
    destruct Hc as [<-|[]]. rewrite decide_True by done. rewrite decide_False by lia.
    assert (Hk : kids h x <> []).
    { intros K0. assert (E0 : text = EmptyString)
        by (unfold text; by rewrite (textContent_no_kids _ _ K0)).
      by rewrite E0 in Et. }
    destruct (kids h x) as [|d l] eqn:K; [done|].
    destruct (wf x d) as [_ Hr]; [rewrite K; by left|]. lia.
  - destruct (decide (p < length h)%nat) as [Hp|Hp].
    + rewrite O in Hc by done. by apply Old.
    + exfalso. destruct (decide (p = length h)) as [->|Hne2].
      * destruct (is_empty text) eqn:Et.
        -- rewrite kids_outside in Hc by lia. done.
        -- unfold holdsText in T. rewrite Kx in T. inversion T as [|? ? [_ Ht] _]; subst.
           rewrite Ht in Hc. done.
      * rewrite kids_outside in Hc; [done|]. destruct (is_empty text); lia.
Qed.

Lemma normalizeSpacerunSpan_lengths h x n :
  treeLike h -> isElement h x = true -> (n < length h)%nat ->
  String.length (textContent (normalizeSpacerunSpan h x) n) = String.length (textContent h n).
Proof.
  intros [rank wf] Ex Hn. pose proof (isElement_node _ _ Ex) as Hx.
  destruct (decide (n = x)) as [->|Hne].
  { rewrite spacerun_span_text by done.
    by destruct (spaceRun_spec (String.length (textContent h x))) as [-> _]. }
  unfold normalizeSpacerunSpan.
  set (text := spaceRun (String.length (textContent h x))).
  destruct (set_innerText_frame h x text Hx) as (_ & O & _).
  destruct (set_innerText_shape h x text Hx) as [L _].
  destruct (kids h n) as [|c l] eqn:K.
  { rewrite !textContent_no_kids; [done | done | by rewrite O]. }
  assert (Hr : (rank n < length h)%nat).
  { destruct (wf n c) as [_ ?]; [rewrite K; by left | lia]. }
  set (h1 := set_innerText h x text) in *.
  change (textContent h1 n) with (textAt (length h1) h1 n).
  assert (Hr1 : (rank n < length h1)%nat) by (rewrite L; destruct (is_empty text); lia).
  unfold h1 at 2.
  rewrite (set_innerText_length h rank wf x text Hx); [| |done|done].
  - by rewrite (textAt_textContent h rank wf).
  - unfold text. by destruct (spaceRun_spec (String.length (textContent h x))) as [-> _].
Qed.

Lemma normalizeSpacerunSpan_kind h x n :
  isElement h x = true -> (n < length h)%nat ->
  kindOf (normalizeSpacerunSpan h x) n = kindOf h n.
Proof.
  intros Ex Hn. pose proof (isElement_node _ _ Ex) as Hx. unfold normalizeSpacerunSpan.
  destruct (set_innerText_frame h x (spaceRun (String.length (textContent h x))) Hx)
    as (K & _). by apply K.
Qed.

(** The loop over the spans: each span of the list ends with the space run
    of the length of its text, whatever its place in the list and whatever
    is inside it. *)
Lemma normalizeSpacerunSpans_any l : forall h,
  treeLike h -> (forall x, In x l -> isElement h x = true) ->
  forall s,
    In s l \/ (isElement h s = true /\ holdsText h s /\
               textContent h s = spaceRun (String.length (textContent h s))) ->
    textContent (fold_left normalizeSpacerunSpan l h) s
    = spaceRun (String.length (textContent h s)).
Proof.
  induction l as [|x l IH]; intros h Wf Hl s Hs; cbn [fold_left].
  - by destruct Hs as [[]|(_ & _ & ?)].
  - assert (Ex : isElement h x = true) by (apply Hl; by left).
    destruct (normalizeSpacerunSpan_self h x Ex) as (Ex1 & Tx1 & Xx1).
    pose proof (normalizeSpacerunSpan_tree h x Wf Ex) as Wf1.
    set (h1 := normalizeSpacerunSpan h x) in *.
    assert (Hl1 : forall y, In y l -> isElement h1 y = true).
    { intros y Hy. pose proof (Hl y (or_intror Hy)) as Ey.
      unfold isElement, h1. rewrite normalizeSpacerunSpan_kind; [done | done |].
      by apply lookup_lt_is_Some, isElement_node. }
    destruct (decide (s = x)) as [->|Hne].
    + rewrite (IH h1 Wf1 Hl1 x).
      * by rewrite Xx1, spaceRun_settled.
      * right. split; [done|]. split; [done|]. by rewrite Xx1, spaceRun_settled.
    + destruct Hs as [[->|Hin]|(Es & Ts & Ss)]; [done| |].
      * rewrite (IH h1 Wf1 Hl1 s) by (by left). f_equal.
        apply normalizeSpacerunSpan_lengths; [done | done |].
        by apply lookup_lt_is_Some, isElement_node, Hl; right.
      * destruct (normalizeSpacerunSpan_other h x s Ex Es Ts Hne) as (Es1 & Ts1 & Same).
        fold h1 in Es1, Ts1, Same.
        rewrite (IH h1 Wf1 Hl1 s); [by rewrite Same|].
        right. split; [done|]. split; [done|]. by rewrite Same.
Qed.

Lemma spacerun_spans_rewritten h doc el :
  treeLike h -> In el (descendants h doc) -> isSpacerunSpan h el = true ->
  textContent (normalizeSpacerunSpans h doc) el
  = spaceRun (String.length (textContent h el)).
Proof.
  intros Wf Hin Hsp. unfold normalizeSpacerunSpans.
  apply normalizeSpacerunSpans_any; [done | |].
  - intros x Hx. apply filter_In in Hx as [_ Hx]. by apply isSpacerunSpan_element.
  - left. apply filter_In. by split.
Qed.

(** C9, as amended.  The text-level rewrite replaces every span (bare, or
    of class Apple-converted-space) that holds white space only by
    [safariSpaces] of it, wherever the span is: the text in front of the
    span and the text behind it are rewritten on their own, and a text
    without the beginning of a span tag is left as it is.  [safariSpaces]
    is one regular space for a single white-space character, and the space
    run of length N for N other than 1.  In a heap that holds trees, the
    tree-level rewrite gives every space-run span of the document the space
    run of the length of its text, for every length, a single character
    included, whatever is inside the span.  A space run of length N has N
    characters, a non-breaking space at the even positions and a regular
    space at the odd ones. *)
Theorem space_spans_rewritten :
  (forall a opening ws b,
     opening = spanOpen \/ opening = appleSpanOpen ->
     ws <> EmptyString -> forall_string isSpace ws = true ->
     normalizeSafariSpaceSpans (a +:+ opening +:+ ws +:+ "</span>" +:+ b)
     = normalizeSafariSpaceSpans a +:+ safariSpaces ws +:+ normalizeSafariSpaceSpans b) /\
  (forall s, includes "<span" s = false -> normalizeSafariSpaceSpans s = s) /\
  (forall ws, String.length ws = 1%nat -> safariSpaces ws = " ") /\
  (forall ws, String.length ws <> 1%nat -> safariSpaces ws = spaceRun (String.length ws)) /\
  (forall (h : list node) doc el,
     treeLike h -> In el (descendants h doc) -> isSpacerunSpan h el = true ->
     textContent (normalizeSpacerunSpans h doc) el
     = spaceRun (String.length (textContent h el))) /\
  (forall n, String.length (spaceRun n) = n /\
             forall i, (i < n)%nat ->
               String.get i (spaceRun n) = Some (if Nat.even i then nbsp else " "%char)).
Proof.
  split; [exact safari_spans_everywhere|].
  split; [exact safari_text_untouched|].
  split; [intros ws H; unfold safariSpaces; by rewrite H|].
  split.
  { intros ws H. unfold safariSpaces. by apply Nat.eqb_neq in H as ->. }
  split; [exact spacerun_spans_rewritten | exact spaceRun_spec].
Qed.

(** The theorem of C9 at sample texts, with tags in front of the spans, and
    at a sample document. *)
Lemma space_spans_rewritten_witness :
  normalizeSafariSpaceSpans ("<p>a" +:+ spanOpen +:+ " " +:+ "</span>" +:+ "b</p>")
    = "<p>a b</p>" /\
  normalizeSafariSpaceSpans ("<b>a</b>" +:+ appleSpanOpen +:+ "   " +:+ "</span>" +:+ "b")
    = "<b>a</b>" +:+ String nbsp (String " " (String nbsp "b")) /\
  textContent (normalizeSpacerunSpans docSpacerun documentNode) 6 = String nbsp EmptyString.
Proof.
  destruct space_spans_rewritten as (Hsafari & Htext & _ & _ & Hrun & _).
  split; [|split].
  - rewrite (Hsafari "<p>a" spanOpen " " "b</p>");
      [|left; reflexivity | discriminate | reflexivity].
    rewrite (Htext "<p>a" eq_refl), (Htext "b</p>" eq_refl). reflexivity.
  - rewrite (Hsafari "<b>a</b>" appleSpanOpen "   " "b");
      [|right; reflexivity | discriminate | reflexivity].
    rewrite (Htext "<b>a</b>" eq_refl), (Htext "b" eq_refl). reflexivity.
  - apply (Hrun docSpacerun documentNode 6%nat).
    + exists (fun n => 8 - n)%nat. intros p c Hc.
      do 9 (destruct p as [|p];
            [vm_compute in Hc; repeat (destruct Hc as [<-|Hc]; [simpl; lia|]); destruct Hc|]).
      vm_compute in Hc. destruct Hc.
    + vm_compute; tauto.
    + reflexivity.
Defined.
